(** * A shallow embedding of the rewriting proxy (sebs-unblocker V8)

    The development follows the pipeline of the proxy:
    request -> validate -> fetch-or-cache -> rewrite -> stream.

    - [Str], [Regex], [Uri], [Url], [Obj], [Net]: the parts of the
      JavaScript runtime the source relies on (string methods, regular
      expressions, URI component coding, the WHATWG URL parser and
      URLSearchParams, plain objects, net.isIPv4).
    - [Sanitize], [Validator], [Config]: src/proxy/sanitize.js, validator.js,
      src/proxy/config.js.
    - [Rewrite]: src/proxy/rewrite.js.
    - [CssParser], [Cookies]: cssParser.js, cookies.js.
    - [ErrorPage], [Security]: src/proxy/errorPage.js, src/proxy/security.js.
    - [Cache]: src/proxy/resourceCache.js.
    - [Fetcher]: src/proxy/fetcher.js.

    The definitions come first; the modules of facts and laws that follow
    them hold the theorems.

    JavaScript strings are modelled as Rocq strings holding the UTF-8 bytes
    of well-formed text; whitespace and case mapping are those of ASCII. *)

From stdpp Require Import gmap strings list.
From Stdlib Require Import ZArith Lia Bool Ascii String DecimalString Sorted.

Local Open Scope string_scope.
Local Open Scope list_scope.

(* ===================================================================== *)
(** * String methods of the runtime *)
(* ===================================================================== *)

Module Str.

Definition chr (n : nat) : ascii := ascii_of_nat n.
Definition code (c : ascii) : nat := nat_of_ascii c.

(** The double quote, kept out of string literals. *)
Definition DQ : string := String (chr 34) EmptyString.

Definition between (lo hi : nat) (c : ascii) : bool :=
  (lo <=? code c)%nat && (code c <=? hi)%nat.

Definition is_upper (c : ascii) : bool := between 65 90 c.
Definition is_lower (c : ascii) : bool := between 97 122 c.
Definition is_alpha (c : ascii) : bool := is_upper c || is_lower c.
Definition is_digit (c : ascii) : bool := between 48 57 c.
Definition is_alnum (c : ascii) : bool := is_alpha c || is_digit c.

Definition lower (c : ascii) : ascii :=
  if is_upper c then chr (code c + 32) else c.
Definition upper (c : ascii) : ascii :=
  if is_lower c then chr (code c - 32) else c.

Fixpoint smap (f : ascii -> ascii) (s : string) : string :=
  match s with
  | EmptyString => EmptyString
  | String c t => String (f c) (smap f t)
  end.

(** [String.prototype.toLowerCase] *)
Definition toLowerCase (s : string) : string := smap lower s.

(** White space of [trim] and of the class [\s]: TAB, LF, VT, FF, CR, SP. *)
Definition is_space (c : ascii) : bool :=
  between 9 13 c || (code c =? 32)%nat.

Fixpoint srev_onto (s acc : string) : string :=
  match s with
  | EmptyString => acc
  | String c t => srev_onto t (String c acc)
  end.
Definition srev (s : string) : string := srev_onto s EmptyString.

Fixpoint trimStart (s : string) : string :=
  match s with
  | EmptyString => EmptyString
  | String c t => if is_space c then trimStart t else s
  end.
Definition trimEnd (s : string) : string := srev (trimStart (srev s)).

(** [String.prototype.trim] *)
Definition trim (s : string) : string := trimEnd (trimStart s).

(** [String.prototype.startsWith] *)
Definition startsWith (s p : string) : bool := String.prefix p s.

Fixpoint take (n : nat) (s : string) : string :=
  match n, s with
  | S n', String c t => String c (take n' t)
  | _, _ => EmptyString
  end.

Fixpoint drop (n : nat) (s : string) : string :=
  match n, s with
  | S n', String _ t => drop n' t
  | _, _ => s
  end.

(** [String.prototype.slice(a, b)] for [0 <= a <= b]. *)
Definition slice (a b : nat) (s : string) : string := take (b - a) (drop a s).

Definition last_char (s : string) : option ascii :=
  match srev s with
  | EmptyString => None
  | String c _ => Some c
  end.

(** Position of the first occurrence of [p] in [s] ([indexOf]). *)
Fixpoint indexOf_from (n : nat) (p s : string) : option nat :=
  if String.prefix p s then Some n
  else match s with
       | EmptyString => None
       | String _ t => indexOf_from (S n) p t
       end.
Definition indexOf (p s : string) : option nat := indexOf_from 0 p s.

Definition includes_char (c : ascii) (s : string) : bool :=
  match indexOf (String c EmptyString) s with Some _ => true | None => false end.

(** The character [c] does not occur in [s]: [!s.includes(c)]. *)
Fixpoint lacks (c : ascii) (s : string) : bool :=
  match s with
  | EmptyString => true
  | String a t => negb (Ascii.eqb a c) && lacks c t
  end.

(** [String.prototype.split] with a one-character separator. *)
Fixpoint split_acc (sep : ascii) (s cur : string) : list string :=
  match s with
  | EmptyString => [srev cur]
  | String c t =>
      if Ascii.eqb c sep then srev cur :: split_acc sep t EmptyString
      else split_acc sep t (String c cur)
  end.
Definition split (sep : ascii) (s : string) : list string :=
  split_acc sep s EmptyString.

(** [Array.prototype.join] *)
Fixpoint join (sep : string) (l : list string) : string :=
  match l with
  | [] => EmptyString
  | [x] => x
  | x :: t => x +:+ sep +:+ join sep t
  end.

(** [Array.prototype.includes] on an array of strings. *)
Definition includes (l : list string) (x : string) : bool :=
  existsb (String.eqb x) l.

(** Every byte, for properties settled by enumeration. *)
Definition all_bytes : list ascii := map ascii_of_nat (seq 0 256).

(** A string is falsy exactly when it is empty. *)
Definition truthy (s : string) : bool :=
  match s with EmptyString => false | _ => true end.

End Str.

(* ===================================================================== *)
(** * Regular expressions *)
(* ===================================================================== *)

(** A backtracking matcher in continuation-passing style, after the
    pattern semantics of ECMAScript (non-unicode mode).  Supported: literal
    characters, classes with ranges and the escapes \s \S \w, sequence,
    alternation, greedy and lazy quantifiers, capturing groups,
    backreferences, the anchor ^ and the word boundary \b; flags i and g.
    Captures are not cleared when a quantified group is re-entered. *)

Module Regex.
Import Str.

Inductive cls_item :=
| CChar (c : ascii)
| CRange (lo hi : ascii)
| CSpace
| CNotSpace
| CWord.

Inductive regex :=
| Eps
| Chr (c : ascii)
| Cls (negated : bool) (items : list cls_item)
| Seq (r1 r2 : regex)
| Alt (r1 r2 : regex)
| Star (greedy : bool) (r : regex)
| Opt (greedy : bool) (r : regex)
| Group (n : nat) (r : regex)
| Backref (n : nat)
| Bol
| WordB.

(** r+ is r followed by r-star. *)
Definition Plus (greedy : bool) (r : regex) : regex := Seq r (Star greedy r).

Fixpoint Lit (s : string) : regex :=
  match s with
  | EmptyString => Eps
  | String c EmptyString => Chr c
  | String c t => Seq (Chr c) (Lit t)
  end.

Fixpoint Seqs (l : list regex) : regex :=
  match l with
  | [] => Eps
  | [r] => r
  | r :: t => Seq r (Seqs t)
  end.

Fixpoint Alts (l : list regex) : regex :=
  match l with
  | [] => Eps
  | [r] => r
  | r :: t => Alt r (Alts t)
  end.

Definition is_word (c : ascii) : bool := is_alnum c || (code c =? 95)%nat.

Definition is_word_opt (o : option ascii) : bool :=
  match o with Some c => is_word c | None => false end.

(** Canonicalize: with flag i characters are compared by their upper-case
    form. *)
Definition ceq (icase : bool) (a b : ascii) : bool :=
  if icase then Ascii.eqb (upper a) (upper b) else Ascii.eqb a b.

Definition item_has (it : cls_item) (c : ascii) : bool :=
  match it with
  | CChar a => Ascii.eqb a c
  | CRange lo hi => between (code lo) (code hi) c
  | CSpace => is_space c
  | CNotSpace => negb (is_space c)
  | CWord => is_word c
  end.

Definition set_has (items : list cls_item) (c : ascii) : bool :=
  existsb (fun it => item_has it c) items.

Definition in_cls (icase negated : bool) (items : list cls_item) (c : ascii) : bool :=
  xorb negated
       (set_has items c
        || (icase && (set_has items (upper c) || set_has items (lower c)))).

(** The state of a match: the character before the current position
    ([None] at index 0), the text still to read, and the captures. *)
Record mstate := MState {
  prev : option ascii;
  rest : string;
  caps : list (nat * string)
}.

Definition cont := mstate -> option mstate.
Definition matcher := mstate -> cont -> option mstate.

Definition advance (c : ascii) (t : string) (x : mstate) : mstate :=
  {| prev := Some c; rest := t; caps := caps x |}.

Fixpoint get_cap (n : nat) (l : list (nat * string)) : option string :=
  match l with
  | [] => None
  | (m, s) :: t => if (m =? n)%nat then Some s else get_cap n t
  end.

Definition set_cap (n : nat) (s : string) (y : mstate) : mstate :=
  {| prev := prev y; rest := rest y; caps := (n, s) :: caps y |}.

(** The text read between state [x] and the later state [y]. *)
Definition consumed (x y : mstate) : string :=
  take (String.length (rest x) - String.length (rest y)) (rest x).

Definition progressed (x y : mstate) : bool :=
  (String.length (rest y) <? String.length (rest x))%nat.

(** Reads [t] from the front of [s], comparing by [ceq]. *)
Fixpoint read_string (icase : bool) (t : string) (p : option ascii) (s : string)
  : option (option ascii * string) :=
  match t with
  | EmptyString => Some (p, s)
  | String a t' =>
      match s with
      | String b s' => if ceq icase a b then read_string icase t' (Some b) s' else None
      | EmptyString => None
      end
  end.

Fixpoint star_loop (greedy : bool) (body : matcher) (n : nat)
         (x : mstate) (k : cont) : option mstate :=
  match n with
  | O => k x
  | S n' =>
      let again (y : mstate) :=
        if progressed x y then star_loop greedy body n' y k else None in
      if greedy then
        match body x again with
        | Some z => Some z
        | None => k x
        end
      else
        match k x with
        | Some z => Some z
        | None => body x again
        end
  end.

Fixpoint compile (icase : bool) (r : regex) : matcher :=
  match r with
  | Eps => fun x k => k x
  | Chr c => fun x k =>
      match rest x with
      | String a t => if ceq icase c a then k (advance a t x) else None
      | EmptyString => None
      end
  | Cls negated items => fun x k =>
      match rest x with
      | String a t => if in_cls icase negated items a then k (advance a t x) else None
      | EmptyString => None
      end
  | Seq r1 r2 => fun x k => compile icase r1 x (fun y => compile icase r2 y k)
  | Alt r1 r2 => fun x k =>
      match compile icase r1 x k with
      | Some z => Some z
      | None => compile icase r2 x k
      end
  | Star greedy r' => fun x k =>
      star_loop greedy (compile icase r') (S (String.length (rest x))) x k
  | Opt greedy r' => fun x k =>
      let once (y : mstate) := if progressed x y then k y else None in
      if greedy then
        match compile icase r' x once with
        | Some z => Some z
        | None => k x
        end
      else
        match k x with
        | Some z => Some z
        | None => compile icase r' x once
        end
  | Group n r' => fun x k =>
      compile icase r' x (fun y => k (set_cap n (consumed x y) y))
  | Backref n => fun x k =>
      match get_cap n (caps x) with
      | None => k x
      | Some t =>
          match read_string icase t (prev x) (rest x) with
          | Some (p, s) => k {| prev := p; rest := s; caps := caps x |}
          | None => None
          end
      end
  | Bol => fun x k => match prev x with None => k x | Some _ => None end
  | WordB => fun x k =>
      let next := match rest x with String a _ => Some a | EmptyString => None end in
      if xorb (is_word_opt (prev x)) (is_word_opt next) then k x else None
  end.

(** A regular expression object: pattern and flag i.  (The flag g only
    matters to the methods, which are modelled separately.) *)
Record regexp := RegExp { pattern : regex; ignoreCase : bool }.

(** One match: [match[0]], the captures, and the state after it. *)
Record found := Found {
  m0 : string;
  groups : list (nat * string);
  after : mstate
}.

(** Capture [n] of a match; [undefined] is [None]. *)
Definition group (n : nat) (f : found) : option string := get_cap n (groups f).
(** Capture [n] where the pattern makes it always defined. *)
Definition group_str (n : nat) (f : found) : string :=
  match group n f with Some s => s | None => EmptyString end.

(** Tries the pattern at one position. *)
Definition match_at (re : regexp) (p : option ascii) (s : string) : option found :=
  let x := {| prev := p; rest := s; caps := [] |} in
  match compile (ignoreCase re) (pattern re) x Some with
  | Some y => Some {| m0 := consumed x y; groups := caps y; after := y |}
  | None => None
  end.

(** First match at or after the current position; the result carries the
    number of characters skipped before the match. *)
Fixpoint search (re : regexp) (n : nat) (skipped : nat) (p : option ascii) (s : string)
  : option (nat * found) :=
  match match_at re p s with
  | Some f => Some (skipped, f)
  | None =>
      match n, s with
      | S n', String c t => search re n' (S skipped) (Some c) t
      | _, _ => None
      end
  end.

(** [RegExp.prototype.test] for a regular expression without flag g. *)
Definition test (re : regexp) (s : string) : bool :=
  match search re (String.length s) 0 None s with Some _ => true | None => false end.

(** [String.prototype.match] for a regular expression without flag g. *)
Definition smatch (re : regexp) (s : string) : option found :=
  match search re (String.length s) 0 None s with Some (_, f) => Some f | None => None end.

(** [RegExp.prototype.exec] for a regular expression with flag g, whose
    [lastIndex] is threaded explicitly: the result is the match with its
    index, and the new [lastIndex]. *)
Definition exec (re : regexp) (s : string) (lastIndex : nat)
  : option (nat * found) * nat :=
  if (String.length s <? lastIndex)%nat then (None, 0%nat)
  else
    let p := last_char (take lastIndex s) in
    let t := drop lastIndex s in
    match search re (String.length t) 0 p t with
    | Some (k, f) =>
        (Some ((lastIndex + k)%nat, f),
         (lastIndex + k + String.length (m0 f))%nat)
    | None => (None, 0%nat)
    end.

(** [String.prototype.replace] with a regular expression with flag g and a
    replacer function, which receives the match. *)
Fixpoint replace_loop (re : regexp) (fn : found -> string) (n : nat)
         (p : option ascii) (s : string) : string :=
  let step :=
    match n, s with
    | S n', String c t => String c (replace_loop re fn n' (Some c) t)
    | _, _ => s
    end in
  match match_at re p s with
  | Some f =>
      match m0 f with
      | EmptyString => fn f +:+ step
      | _ =>
          match n with
          | S n' => fn f +:+ replace_loop re fn n' (prev (after f)) (rest (after f))
          | O => fn f +:+ rest (after f)
          end
      end
  | None => step
  end.

Definition replace_all (re : regexp) (fn : found -> string) (s : string) : string :=
  replace_loop re fn (String.length s) None s.

(** [String.prototype.split] with a regular expression without groups:
    a match that ends where the current piece starts does not split. *)
Fixpoint split_loop (re : regexp) (n : nat) (p : option ascii) (s cur : string)
  : list string :=
  match n, s with
  | S n', String c t =>
      match match_at re p s with
      | Some f =>
          match m0 f, cur with
          | EmptyString, EmptyString => split_loop re n' (Some c) t (String c cur)
          | _, _ =>
              srev cur ::
              split_loop re n' (prev (after f)) (rest (after f)) EmptyString
          end
      | None => split_loop re n' (Some c) t (String c cur)
      end
  | _, _ => [srev cur]
  end.

Definition split_re (re : regexp) (s : string) : list string :=
  split_loop re (2 * String.length s + 1) None s EmptyString.

(** ** A static check on patterns *)

(** [must icase P r]: every match of [r] reads a character of [P],
    because every path through the pattern passes a character or a
    class that admits only characters of [P]. *)
Fixpoint must (icase : bool) (P : ascii -> bool) (r : regex) : bool :=
  match r with
  | Chr c => forallb (fun a => implb (ceq icase c a) (P a)) all_bytes
  | Cls negated items =>
      forallb (fun a => implb (in_cls icase negated items a) (P a)) all_bytes
  | Seq r1 r2 => must icase P r1 || must icase P r2
  | Alt r1 r2 => must icase P r1 && must icase P r2
  | Group _ r' => must icase P r'
  | _ => false
  end.

(** No character of [s] is in [P]. *)
Fixpoint free (P : ascii -> bool) (s : string) : bool :=
  match s with
  | EmptyString => true
  | String a t => negb (P a) && free P t
  end.

End Regex.

(* ===================================================================== *)
(** * encodeURIComponent and decodeURIComponent *)
(* ===================================================================== *)

Module Uri.
Import Str.

Definition hexdigit (n : nat) : ascii :=
  if (n <? 10)%nat then chr (48 + n) else chr (55 + n).

Definition hexval (c : ascii) : option nat :=
  if is_digit c then Some (code c - 48)%nat
  else if between 65 70 c then Some (code c - 55)%nat
  else if between 97 102 c then Some (code c - 87)%nat
  else None.

Definition hex_byte (h1 h2 : ascii) : option ascii :=
  match hexval h1, hexval h2 with
  | Some a, Some b => Some (chr (16 * a + b))
  | _, _ => None
  end.

(** The escape %XY of one byte, with upper-case digits. *)
Definition escape (c : ascii) : string :=
  String "%" (String (hexdigit (code c / 16)) (String (hexdigit (code c mod 16)) EmptyString)).

(** uriUnescaped: letters, digits and - _ . ! ~ * ' ( ) *)
Definition unreserved (c : ascii) : bool :=
  is_alnum c || includes_char c "-_.!~*'()".

Fixpoint encode_with (keep : ascii -> bool) (s : string) : string :=
  match s with
  | EmptyString => EmptyString
  | String c t => (if keep c then String c EmptyString else escape c) +:+ encode_with keep t
  end.

(** [encodeURIComponent]: every byte of the UTF-8 form that is not
    unreserved is escaped. *)
Definition encodeURIComponent (s : string) : string := encode_with unreserved s.

(** Number of leading one bits of a byte of 0x80 and above. *)
Definition lead_ones (c : ascii) : nat :=
  if (code c <? 192)%nat then 1
  else if (code c <? 224)%nat then 2
  else if (code c <? 240)%nat then 3
  else if (code c <? 248)%nat then 4
  else 5.

Definition is_cont (c : ascii) : bool := between 128 191 c.

(** [a] is the first byte of a sequence of [n] bytes. *)
Definition lead_is (n : nat) (a : ascii) : bool :=
  (lead_ones a =? n)%nat && negb (code a <? 128)%nat.

(** Well-formed UTF-8 sequences of two to four bytes. *)
Definition valid_seq (l : list ascii) : bool :=
  match l with
  | [a; b] => between 194 223 a && is_cont b
  | [a; b; c] =>
      ((code a =? 224)%nat && between 160 191 b && is_cont c)
      || (between 225 236 a && is_cont b && is_cont c)
      || ((code a =? 237)%nat && between 128 159 b && is_cont c)
      || (between 238 239 a && is_cont b && is_cont c)
  | [a; b; c; d] =>
      ((code a =? 240)%nat && between 144 191 b && is_cont c && is_cont d)
      || (between 241 243 a && is_cont b && is_cont c && is_cont d)
      || ((code a =? 244)%nat && between 128 143 b && is_cont c && is_cont d)
  | _ => false
  end.

Definition prepend (l : list ascii) (s : string) : string :=
  fold_right String s l.

Definition opt_map {A B} (f : A -> B) (o : option A) : option B :=
  match o with Some a => Some (f a) | None => None end.

(** [decodeURIComponent]; [None] is the URIError.  [pend] holds the bytes
    of a multi-byte sequence read so far and [need] the number of escaped
    continuation bytes still due. *)
Fixpoint decode (pend : list ascii) (need : nat) (s : string) : option string :=
  match need with
  | S need' =>
      match s with
      | String "%" (String h1 (String h2 t)) =>
          match hex_byte h1 h2 with
          | Some b =>
              if is_cont b then
                match need' with
                | O => if valid_seq (pend ++ [b])
                       then opt_map (prepend (pend ++ [b])) (decode [] 0 t)
                       else None
                | S _ => decode (pend ++ [b]) need' t
                end
              else None
          | None => None
          end
      | _ => None
      end
  | O =>
      match s with
      | EmptyString => Some EmptyString
      | String c t =>
          if Ascii.eqb c "%" then
            match t with
            | String h1 (String h2 t') =>
                match hex_byte h1 h2 with
                | Some b =>
                    if (code b <? 128)%nat then opt_map (String b) (decode [] 0 t')
                    else
                      match lead_ones b with
                      | 2 => decode [b] 1 t'
                      | 3 => decode [b] 2 t'
                      | 4 => decode [b] 3 t'
                      | _ => None
                      end
                | None => None
                end
            | _ => None
            end
          else opt_map (String c) (decode [] 0 t)
      end
  end.

Definition decodeURIComponent (s : string) : option string := decode [] 0 s.

(** Well-formed UTF-8 text. *)
Fixpoint utf8_valid (s : string) : bool :=
  match s with
  | EmptyString => true
  | String a t =>
      if (code a <? 128)%nat then utf8_valid t
      else
        match t with
        | String b t1 =>
            if valid_seq [a; b] then utf8_valid t1
            else
              match t1 with
              | String c t2 =>
                  if valid_seq [a; b; c] then utf8_valid t2
                  else
                    match t2 with
                    | String d t3 => valid_seq [a; b; c; d] && utf8_valid t3
                    | EmptyString => false
                    end
              | EmptyString => false
              end
        | EmptyString => false
        end
  end.

End Uri.

(* ===================================================================== *)
(** * The URL parser of the runtime *)
(* ===================================================================== *)

(** [new URL(input, base)] after the URL Standard, for the schemes the
    proxy admits (http and https).  Outside the model, and reported as a
    parse failure: other schemes, host names with non-ASCII or punycode
    labels, and IPv6 literals with an embedded IPv4 address. *)

Module Url.
Import Str Uri.

Record url := URL {
  scheme : string;
  username : string;
  password : string;
  host : string;
  port : option N;
  path : list string;
  query : option string;
  fragment : option string
}.

(** ** Percent-encode sets *)

Definition in_c0_set (c : ascii) : bool := (code c <? 32)%nat || (126 <? code c)%nat.
Definition in_fragment_set (c : ascii) : bool :=
  in_c0_set c || includes_char c (" <>`" +:+ DQ).
Definition in_query_set (c : ascii) : bool :=
  in_c0_set c || includes_char c (" #<>" +:+ DQ).
Definition in_special_query_set (c : ascii) : bool :=
  in_query_set c || Ascii.eqb c "'".
Definition in_path_set (c : ascii) : bool :=
  in_query_set c || includes_char c "?^`{}".
Definition in_userinfo_set (c : ascii) : bool :=
  in_path_set c || includes_char c "/:;=@[\]|".

Definition percent_encode (set : ascii -> bool) (s : string) : string :=
  encode_with (fun c => negb (set c)) s.

(** ** Splitting helpers *)

Fixpoint sfilter (f : ascii -> bool) (s : string) : string :=
  match s with
  | EmptyString => EmptyString
  | String c t => if f c then String c (sfilter f t) else sfilter f t
  end.

Fixpoint sforall (f : ascii -> bool) (s : string) : bool :=
  match s with
  | EmptyString => true
  | String c t => f c && sforall f t
  end.

(** The longest prefix without a character of [stop], and the rest. *)
Fixpoint break (stop : ascii -> bool) (s : string) : string * string :=
  match s with
  | EmptyString => (EmptyString, EmptyString)
  | String c t =>
      if stop c then (EmptyString, s)
      else let (a, b) := break stop t in (String c a, b)
  end.

Fixpoint drop_while (f : ascii -> bool) (s : string) : string :=
  match s with
  | EmptyString => EmptyString
  | String c t => if f c then drop_while f t else s
  end.

Fixpoint split_by_acc (sep : ascii -> bool) (s cur : string) : list string :=
  match s with
  | EmptyString => [srev cur]
  | String c t =>
      if sep c then srev cur :: split_by_acc sep t EmptyString
      else split_by_acc sep t (String c cur)
  end.
Definition split_by (sep : ascii -> bool) (s : string) : list string :=
  split_by_acc sep s EmptyString.

Definition is_slash (c : ascii) : bool := Ascii.eqb c "/" || Ascii.eqb c "\".

(** ** Numbers *)

Definition digit_val (radix : N) (c : ascii) : option N :=
  match hexval c with
  | Some v => if (N.of_nat v <? radix)%N then Some (N.of_nat v) else None
  | None => None
  end.

Fixpoint number_acc (radix : N) (s : string) (acc : N) : option N :=
  match s with
  | EmptyString => Some acc
  | String c t =>
      match digit_val radix c with
      | Some v => number_acc radix t (acc * radix + v)%N
      | None => None
      end
  end.

Definition N_to_string (n : N) : string :=
  DecimalString.NilZero.string_of_uint (N.to_uint n).

(** ** IPv4 *)

(** The IPv4 number parser: decimal, 0x hexadecimal, or 0 octal. *)
Definition ipv4_number (s : string) : option N :=
  match s with
  | EmptyString => None
  | String "0" (String x t) =>
      if Ascii.eqb x "x" || Ascii.eqb x "X" then number_acc 16 t 0
      else number_acc 8 (String x t) 0
  | _ => number_acc 10 s 0
  end.

Definition drop_last_empty (parts : list string) : list string :=
  match rev parts with
  | EmptyString :: (_ :: _) as r => rev r
  | _ => parts
  end.

Definition ends_in_number (s : string) : bool :=
  let parts := split "." s in
  match parts with
  | [EmptyString] => false
  | _ =>
      match rev (drop_last_empty parts) with
      | l :: _ =>
          (truthy l && sforall is_digit l)
          || match ipv4_number l with Some _ => true | None => false end
      | [] => false
      end
  end.

Fixpoint all_some {A} (l : list (option A)) : option (list A) :=
  match l with
  | [] => Some []
  | Some a :: t => match all_some t with Some r => Some (a :: r) | None => None end
  | None :: _ => None
  end.

Fixpoint ipv4_sum (front : list N) (k : nat) : N :=
  match front with
  | [] => 0
  | n :: t => (n * 256 ^ N.of_nat k + ipv4_sum t (k - 1))%N
  end.

Definition ipv4_parse (s : string) : option N :=
  let parts := drop_last_empty (split "." s) in
  if (4 <? List.length parts)%nat then None
  else
    match all_some (map ipv4_number parts) with
    | None => None
    | Some numbers =>
        match rev numbers with
        | [] => None
        | last :: front_rev =>
            if existsb (fun n => (255 <? n)%N) front_rev then None
            else if (256 ^ N.of_nat (5 - List.length numbers) <=? last)%N then None
            else Some (last + ipv4_sum (rev front_rev) 3)%N
        end
    end.

Definition ipv4_serialize (a : N) : string :=
  N_to_string (a / 16777216 mod 256) +:+ "." +:+
  N_to_string (a / 65536 mod 256) +:+ "." +:+
  N_to_string (a / 256 mod 256) +:+ "." +:+
  N_to_string (a mod 256).

(** ** IPv6 *)

(** Up to four hexadecimal digits: their value, their number, the rest. *)
Fixpoint hex_piece (n : nat) (s : string) (acc : N) (len : nat) : N * nat * string :=
  match n, s with
  | S n', String c t =>
      match hexval c with
      | Some v => hex_piece n' t (acc * 16 + N.of_nat v)%N (S len)
      | None => (acc, len, s)
      end
  | _, _ => (acc, len, s)
  end.

(** The pieces before the compression and after it; [compress] tells
    whether a double colon was read. *)
Fixpoint ipv6_loop (n : nat) (s : string) (front back : list N) (compress : bool)
  : option (list N * list N * bool) :=
  match n with
  | O => None
  | S n' =>
      match s with
      | EmptyString => Some (front, back, compress)
      | String c t =>
          if (List.length front + List.length back =? 8)%nat then None
          else if Ascii.eqb c ":" then
            if compress then None
            else ipv6_loop n' t (front ++ [0%N]) back true
          else
            match hex_piece 4 s 0 0 with
            | (v, len, s1) =>
                let store := if compress then (front, back ++ [v]) else (front ++ [v], back) in
                match s1 with
                | EmptyString =>
                    match len with O => None | _ => Some (store.1, store.2, compress) end
                | String ":" EmptyString => None
                | String ":" s2 =>
                    ipv6_loop n' s2 store.1 store.2 compress
                | _ => None
                end
            end
      end
  end.

Definition ipv6_parse (s : string) : option (list N) :=
  let start :=
    match s with
    | String ":" (String ":" t) => Some (t, [0%N], true)
    | String ":" _ => None
    | _ => Some (s, [], false)
    end in
  match start with
  | None => None
  | Some (t, front, compress) =>
      match ipv6_loop (S (String.length t)) t front [] compress with
      | Some (f, b, true) =>
          Some (f ++ repeat 0%N (8 - List.length f - List.length b) ++ b)
      | Some (f, _, false) =>
          if (List.length f =? 8)%nat then Some f else None
      | None => None
      end
  end.

Fixpoint hex_digits (n : nat) (v : N) (acc : string) : string :=
  match n with
  | O => acc
  | S n' =>
      let acc' := String (lower (hexdigit (N.to_nat (v mod 16)))) acc in
      if (v / 16 =? 0)%N then acc' else hex_digits n' (v / 16)%N acc'
  end.
Definition hex_of (v : N) : string := hex_digits 4 v EmptyString.

(** Length of the run of zero pieces at the head of [l]. *)
Fixpoint zero_run (l : list N) : nat :=
  match l with
  | 0%N :: t => S (zero_run t)
  | _ => 0
  end.

(** Index and length of the first longest run of zero pieces. *)
Fixpoint longest_run (l : list N) (i : nat) (best : nat * nat) : nat * nat :=
  match l with
  | [] => best
  | _ :: t =>
      let r := zero_run l in
      longest_run t (S i) (if (best.2 <? r)%nat then (i, r) else best)
  end.

Fixpoint ipv6_pieces (l : list N) (i : nat) (c : option nat) (skip : nat) : string :=
  match l with
  | [] => EmptyString
  | v :: t =>
      match skip with
      | S k => ipv6_pieces t (S i) c k
      | O =>
          if decide (c = Some i) then
            (if (i =? 0)%nat then "::" else ":") +:+ ipv6_pieces t (S i) c (zero_run l - 1)
          else
            hex_of v +:+ (if (i =? 7)%nat then EmptyString else ":") +:+ ipv6_pieces t (S i) c 0
      end
  end.

Definition ipv6_serialize (l : list N) : string :=
  let best := longest_run l 0 (0%nat, 0%nat) in
  let c := if (1 <? best.2)%nat then Some best.1 else None in
  ipv6_pieces l 0 c 0.

(** ** Hosts *)

(** Percent-decoding of a byte sequence: malformed escapes stay. *)
Fixpoint percent_decode (s : string) : string :=
  match s with
  | EmptyString => EmptyString
  | String c t =>
      match c, t with
      | "%"%char, String h1 (String h2 t') =>
          match hex_byte h1 h2 with
          | Some b => String b (percent_decode t')
          | None => String c (percent_decode t)
          end
      | _, _ => String c (percent_decode t)
      end
  end.

Definition forbidden_domain (c : ascii) : bool :=
  (code c <=? 32)%nat || (code c =? 127)%nat || includes_char c "#/:<>?@[\]^|%".

Definition ends_with_char (c : ascii) (s : string) : bool :=
  match last_char s with Some d => Ascii.eqb c d | None => false end.

(** The host parser for a special scheme; the result is the serialized
    host, as [URL.hostname] shows it. *)
Definition host_parse (s : string) : option string :=
  match s with
  | String "[" t =>
      if ends_with_char "]" t then
        match ipv6_parse (take (String.length t - 1) t) with
        | Some l => Some ("[" +:+ ipv6_serialize l +:+ "]")
        | None => None
        end
      else None
  | _ =>
      let d := percent_decode s in
      if negb (sforall (fun c => (code c <? 128)%nat) d) then None
      else
        let a := toLowerCase d in
        if negb (truthy a) then None
        else if negb (sforall (fun c => negb (forbidden_domain c)) a) then None
        else if existsb (fun l => String.prefix "xn--" l) (split "." a) then None
        else if ends_in_number a then opt_map ipv4_serialize
               (match ipv4_parse a with
                | Some n => Some n
                | None => None
                end)
        else Some a
  end.

(** ** Paths *)

Definition single_dot (b : string) : bool :=
  includes ["."; "%2e"] (toLowerCase b).
Definition double_dot (b : string) : bool :=
  includes [".."; ".%2e"; "%2e."; "%2e%2e"] (toLowerCase b).

Definition shorten (p : list string) : list string := removelast p.

(** The path state over the segments of the input; the last one ends at
    the end of the path, the others at a slash. *)
Fixpoint path_segments (segs : list string) (p : list string) : list string :=
  match segs with
  | [] => p
  | [b] =>
      if double_dot b then shorten p ++ [EmptyString]
      else if single_dot b then p ++ [EmptyString]
      else p ++ [b]
  | b :: t =>
      path_segments t
        (if double_dot b then shorten p
         else if single_dot b then p
         else p ++ [b])
  end.

Definition is_q_or_hash (c : ascii) : bool := Ascii.eqb c "?" || Ascii.eqb c "#".

Definition parse_fragment (s : string) : option string :=
  match s with
  | String "#" f => Some (percent_encode in_fragment_set f)
  | _ => None
  end.

(** Query state and fragment state, from a text that starts with ? or #
    or is empty. *)
Definition query_fragment (s : string) : option string * option string :=
  match s with
  | String "?" r =>
      let (q, r2) := break (Ascii.eqb "#") r in
      (Some (percent_encode in_special_query_set q), parse_fragment r2)
  | _ => (None, parse_fragment s)
  end.

(** Path state, query state and fragment state. *)
Definition path_query_fragment (u : url) (p0 : list string) (s : string) : url :=
  let (p, r) := break is_q_or_hash s in
  let segs := map (percent_encode in_path_set) (split_by is_slash p) in
  let (q, f) := query_fragment r in
  {| scheme := scheme u; username := username u; password := password u;
     host := host u; port := port u;
     path := path_segments segs p0; query := q; fragment := f |}.

(** ** Authority *)

Definition default_port (sch : string) : option N :=
  if String.eqb sch "http" then Some 80%N
  else if String.eqb sch "https" then Some 443%N
  else None.

(** Splits at the last @ of the authority. *)
Definition split_credentials (a : string) : option string * string :=
  match split "@" a with
  | [] | [_] => (None, a)
  | parts => (Some (join "@" (removelast parts)), List.last parts EmptyString)
  end.

Fixpoint split_hostport (inb : bool) (s acc : string) : string * option string :=
  match s with
  | EmptyString => (srev acc, None)
  | String c t =>
      if Ascii.eqb c ":" && negb inb then (srev acc, Some t)
      else split_hostport (if Ascii.eqb c "[" then true
                           else if Ascii.eqb c "]" then false else inb)
                          t (String c acc)
  end.

Definition parse_port (sch : string) (p : option string) : option (option N) :=
  match p with
  | None | Some EmptyString => Some None
  | Some d =>
      if sforall is_digit d then
        match number_acc 10 d 0 with
        | Some n =>
            if (65535 <? n)%N then None
            else if decide (default_port sch = Some n) then Some None
            else Some (Some n)
        | None => None
        end
      else None
  end.

(** Authority state, host state, port state and path start state, from
    the text after the slashes that follow the scheme. *)
Definition parse_authority (sch : string) (s : string) : option url :=
  let (auth, r) := break (fun c => is_slash c || is_q_or_hash c) s in
  let (cred, hp) := split_credentials auth in
  let (user, pass) :=
    match cred with
    | None => (EmptyString, EmptyString)
    | Some c =>
        match split ":" c with
        | u :: ps => (percent_encode in_userinfo_set u,
                      percent_encode in_userinfo_set (join ":" ps))
        | [] => (EmptyString, EmptyString)
        end
    end in
  let (h, p) := split_hostport false hp EmptyString in
  match host_parse h, parse_port sch p with
  | Some hs, Some po =>
      let u := {| scheme := sch; username := user; password := pass;
                  host := hs; port := po; path := [];
                  query := None; fragment := None |} in
      Some (path_query_fragment u []
              (match r with
               | String c t => if is_slash c then t else r
               | EmptyString => r
               end))
  | _, _ => None
  end.

(** ** The parser *)

Definition is_c0_space (c : ascii) : bool := (code c <=? 32)%nat.
Definition is_tab_newline (c : ascii) : bool :=
  (code c =? 9)%nat || (code c =? 10)%nat || (code c =? 13)%nat.

Definition prepare (s : string) : string :=
  sfilter (fun c => negb (is_tab_newline c))
          (srev (drop_while is_c0_space (srev (drop_while is_c0_space s)))).

Fixpoint scheme_chars (s acc : string) : option (string * string) :=
  match s with
  | EmptyString => None
  | String c t =>
      if Ascii.eqb c ":" then Some (srev acc, t)
      else if is_alnum c || includes_char c "+-." then scheme_chars t (String (lower c) acc)
      else None
  end.

Definition scan_scheme (s : string) : option (string * string) :=
  match s with
  | String c _ => if is_alpha c then scheme_chars s EmptyString else None
  | EmptyString => None
  end.

(** Relative state and relative slash state. *)
Definition parse_relative (b : url) (s : string) : option url :=
  match s with
  | String c t =>
      if is_slash c then
        match t with
        | String d _ =>
            if is_slash d then parse_authority (scheme b) (drop_while is_slash t)
            else Some (path_query_fragment b [] t)
        | EmptyString => Some (path_query_fragment b [] t)
        end
      else if Ascii.eqb c "?" then
        let (q, f) := query_fragment s in
        Some {| scheme := scheme b; username := username b; password := password b;
                host := host b; port := port b; path := path b;
                query := q; fragment := f |}
      else if Ascii.eqb c "#" then
        Some {| scheme := scheme b; username := username b; password := password b;
                host := host b; port := port b; path := path b;
                query := query b; fragment := parse_fragment s |}
      else Some (path_query_fragment b (shorten (path b)) s)
  | EmptyString =>
      Some {| scheme := scheme b; username := username b; password := password b;
              host := host b; port := port b; path := path b;
              query := query b; fragment := None |}
  end.

Definition parse (input : string) (base : option url) : option url :=
  let s := prepare input in
  match scan_scheme s with
  | Some (sch, r) =>
      if String.eqb sch "http" || String.eqb sch "https" then
        match base with
        | Some b =>
            if String.eqb (scheme b) sch && negb (String.prefix "//" r)
            then parse_relative b r
            else parse_authority sch (drop_while is_slash r)
        | None => parse_authority sch (drop_while is_slash r)
        end
      else None
  | None =>
      match base with
      | Some b => parse_relative b s
      | None => None
      end
  end.

(** [new URL(input)] and [new URL(input, base)]; [None] is the TypeError. *)
Definition construct (input : string) (base : option string) : option url :=
  match base with
  | None => parse input None
  | Some b =>
      match parse b None with
      | Some bu => parse input (Some bu)
      | None => None
      end
  end.

(** ** Getters and the serializer *)

Definition protocol (u : url) : string := scheme u +:+ ":".
Definition hostname (u : url) : string := host u.

Definition href (u : url) : string :=
  scheme u +:+ "://" +:+
  (if truthy (username u) || truthy (password u)
   then username u +:+ (if truthy (password u) then ":" +:+ password u else EmptyString) +:+ "@"
   else EmptyString) +:+
  host u +:+
  (match port u with Some n => ":" +:+ N_to_string n | None => EmptyString end) +:+
  String.concat EmptyString (map (fun seg => "/" +:+ seg) (path u)) +:+
  (match query u with Some q => "?" +:+ q | None => EmptyString end) +:+
  (match fragment u with Some f => "#" +:+ f | None => EmptyString end).

(** ** URLSearchParams *)

Definition plus_to_space (s : string) : string :=
  smap (fun c => if Ascii.eqb c "+" then " "%char else c) s.

(** The application/x-www-form-urlencoded parser. *)
Definition params_parse (q : string) : list (string * string) :=
  flat_map
    (fun piece =>
       match piece with
       | EmptyString => []
       | _ =>
           let (n, r) := break (Ascii.eqb "=") piece in
           let v := match r with String _ v => v | EmptyString => EmptyString end in
           [(percent_decode (plus_to_space n), percent_decode (plus_to_space v))]
       end)
    (split "&" q).

Definition form_keep (c : ascii) : bool := is_alnum c || includes_char c "*-._".

Fixpoint form_encode (s : string) : string :=
  match s with
  | EmptyString => EmptyString
  | String c t =>
      (if Ascii.eqb c " " then "+"
       else if form_keep c then String c EmptyString
       else escape c) +:+ form_encode t
  end.

(** The application/x-www-form-urlencoded serializer. *)
Definition params_serialize (l : list (string * string)) : string :=
  join "&" (map (fun kv => form_encode kv.1 +:+ "=" +:+ form_encode kv.2) l).

(** The list a URL's [searchParams] object starts with. *)
Definition searchParams (u : url) : list (string * string) :=
  match query u with
  | Some q => params_parse q
  | None => []
  end.

(** [URLSearchParams.prototype.delete(name)]: every pair of that name. *)
Definition params_delete (name : string) (l : list (string * string))
  : list (string * string) :=
  List.filter (fun kv => negb (String.eqb kv.1 name)) l.

(** The update steps of a [searchParams] object: the query of its URL
    becomes the serialized list, or null when that is empty. *)
Definition set_params (u : url) (l : list (string * string)) : url :=
  {| scheme := scheme u; username := username u; password := password u;
     host := host u; port := port u; path := path u;
     query := match params_serialize l with
              | EmptyString => None
              | q => Some q
              end;
     fragment := fragment u |}.

End Url.

(* ===================================================================== *)
(** * Plain objects *)
(* ===================================================================== *)

(** Objects created by an object literal and used as maps from property
    names to strings. *)

Module Obj.

(** [obj[key] = val].  An assignment to the name __proto__ reaches the
    accessor inherited from Object.prototype, which ignores a value that
    is not an object: no property is created. *)
Definition assign (key val : string) (obj : gmap string string) : gmap string string :=
  if String.eqb key "__proto__" then obj else <[key := val]> obj.

End Obj.

(* ===================================================================== *)
(** * src/proxy/config.js *)
(* ===================================================================== *)

Module Config.
Import Str.

(** [DEFAULTS.proxy.blockedHostnames] without the environment override. *)
Definition blockedHostnames : list string :=
  ["localhost"; "127.0.0.1"; "::1"; "0.0.0.0"].

Definition proxyPath : string := "/proxy?url=".
Definition resourcePath : string := "/resource?url=".

(** [isBlockedHostname(hostname)]: exact or prefix match. *)
Definition isBlockedHostname (hostname : string) : bool :=
  if negb (truthy hostname) then true
  else
    let lower := toLowerCase hostname in
    existsb
      (fun b =>
         if negb (truthy b) then false
         else String.eqb lower (toLowerCase b) || startsWith lower (toLowerCase b))
      blockedHostnames.

(** [resolveProxyUrl(target)] and [resolveResourceUrl(target)] *)
Definition resolveProxyUrl (target : string) : string :=
  proxyPath +:+ Uri.encodeURIComponent target.
Definition resolveResourceUrl (target : string) : string :=
  resourcePath +:+ Uri.encodeURIComponent target.

End Config.

(* ===================================================================== *)
(** * src/proxy/sanitize.js *)
(* ===================================================================== *)

Module Sanitize.
Import Str Regex Url.

(** /^https?:\/\//i *)
Definition re_http : regexp :=
  RegExp (Seqs [Bol; Lit "http"; Opt true (Chr "s"); Lit "://"]) true.

(** /(<|>|script|javascript:)/i *)
Definition re_injection : regexp :=
  RegExp (Group 1 (Alts [Chr "<"; Chr ">"; Lit "script"; Lit "javascript:"])) true.

Definition badHosts : list string := ["localhost"; "127."; "::1"; "0.0.0.0"].

(** [URLSearchParams.prototype.forEach]: the pairs are visited by index
    over the live list, so the callback's changes to the list are seen by
    the rest of the loop.  The state is the URL with its list of pairs;
    [n] bounds the number of visits. *)
Fixpoint forEach (n : nat) (i : nat)
         (cb : string -> string -> url * list (string * string) -> url * list (string * string))
         (st : url * list (string * string)) : url * list (string * string) :=
  match n with
  | O => st
  | S n' =>
      match nth_error st.2 i with
      | Some (k, v) => forEach n' (S i) cb (cb v k st)
      | None => st
      end
  end.

(** The callback of [sanitizeURL]: a pair whose value looks like an
    injection has its key deleted from the list, which updates the URL. *)
Definition strip_param (v k : string) (st : url * list (string * string))
  : url * list (string * string) :=
  if test re_injection v then
    let l := params_delete k st.2 in (set_params st.1 l, l)
  else st.

(** [sanitizeURL(input)]; [None] is [null].  The callback never adds a
    pair, so the loop makes at most one visit per pair of the query. *)
Definition sanitizeURL (input : string) : option string :=
  if negb (truthy input) then None
  else
    let raw := trim input in
    let raw := if negb (test re_http raw) then "https://" +:+ raw else raw in
    match construct raw None with
    | None => None
    | Some parsed =>
        let hostname := toLowerCase (hostname parsed) in
        if existsb (fun h => startsWith hostname h) badHosts then None
        else
          let l := searchParams parsed in
          let st := forEach (List.length l) 0 strip_param (parsed, l) in
          Some (href st.1)
    end.

(** ** The other helpers of the module

    An object handed in is modelled by the list of its entries, in the
    order of [Object.entries], or by the map of its properties when that
    order cannot matter; the values are strings. *)

(** [s.replace(/[^...]/g, '')] for a negated class: the characters of
    the class stay. *)
Definition keep_chars (items : list cls_item) (s : string) : string :=
  sfilter (in_cls false false items) s.

(** /(cookie|authorization|set-cookie)/i *)
Definition re_credentials : regexp :=
  RegExp (Group 1 (Alts [Lit "cookie"; Lit "authorization"; Lit "set-cookie"])) true.

(** The class of /[^\w\-\/\.;,= ]/g *)
Definition header_value_class : list cls_item :=
  [CWord; CChar "-"; CChar "/"; CChar "."; CChar ";"; CChar ","; CChar "="; CChar " "].

(** [sanitizeHeaders(headers)] *)
Definition sanitizeHeaders (headers : list (string * string)) : gmap string string :=
  fold_left
    (fun clean kv =>
       let key := toLowerCase kv.1 in
       if startsWith key "proxy-" || startsWith key "x-forwarded" then clean
       else if test re_credentials key then clean
       else Obj.assign key (keep_chars header_value_class kv.2) clean)
    headers ∅.

(** The classes of /[^\w\-_.]/g and of /[^\w\-_.:@/?&=%]/g *)
Definition query_key_class : list cls_item :=
  [CWord; CChar "-"; CChar "_"; CChar "."].
Definition query_value_class : list cls_item :=
  [CWord; CChar "-"; CChar "_"; CChar "."; CChar ":"; CChar "@"; CChar "/"; CChar "?";
   CChar "&"; CChar "="; CChar "%"].

(** [sanitizeQueryParams(queryObj)] *)
Definition sanitizeQueryParams (queryObj : list (string * string)) : gmap string string :=
  fold_left
    (fun clean kv =>
       let safeKey := keep_chars query_key_class kv.1 in
       let safeVal := keep_chars query_value_class (trim kv.2) in
       Obj.assign safeKey safeVal clean)
    queryObj ∅.

(** The class of /[^a-zA-Z0-9_\-.]/g *)
Definition filename_class : list cls_item :=
  [CRange "a" "z"; CRange "A" "Z"; CRange "0" "9"; CChar "_"; CChar "-"; CChar "."].

(** What [replace] leaves of one byte of the name.  The pattern works
    on UTF-16 code units: a character outside ASCII is one unit when its
    UTF-8 form has two or three bytes and two units when it has four, and
    every unit becomes an underscore.  So the lead byte gives the
    underscores and the continuation bytes give nothing. *)
Definition filename_units (c : ascii) : string :=
  if in_cls false false filename_class c then String c EmptyString
  else if Uri.is_cont c then EmptyString
  else if (code c <? 240)%nat then "_"
  else "__".

Fixpoint expand (f : ascii -> string) (s : string) : string :=
  match s with
  | EmptyString => EmptyString
  | String c t => f c +:+ expand f t
  end.

(** [sanitizeFilename(name)] for a text. *)
Definition sanitizeFilename (name : string) : string :=
  take 255 (expand filename_units name).

Definition dangerous_headers : list string :=
  ["content-security-policy"; "x-frame-options"; "x-xss-protection"; "referrer-policy"].

(** [stripDangerousHeaders(respHeaders)]: no two properties of the
    object share a name, so the order of the visits does not matter. *)
Definition stripDangerousHeaders (respHeaders : gmap string string) : gmap string string :=
  map_fold
    (fun k v safe =>
       if includes dangerous_headers (toLowerCase k) then safe else Obj.assign k v safe)
    ∅ respHeaders.

End Sanitize.

(* ===================================================================== *)
(** * Addresses as the module net reads them *)
(* ===================================================================== *)

Module Net.
Import Str.

Fixpoint digits_value (s : string) (acc : Z) : Z :=
  match s with
  | EmptyString => acc
  | String c t => digits_value t (acc * 10 + Z.of_nat (code c - 48))%Z
  end.

(** One part of a dotted quad for [net.isIPv4]: a decimal number up to
    255 without a leading zero. *)
Definition octet_ok (o : string) : bool :=
  truthy o && Url.sforall is_digit o && (String.length o <=? 3)%nat
  && (negb (String.prefix "0" o) || String.eqb o "0")
  && (digits_value o 0 <=? 255)%Z.

(** [net.isIP(s) === 4] *)
Definition isIPv4 (s : string) : bool :=
  match split "." s with
  | [a; b; c; d] => octet_ok a && octet_ok b && octet_ok c && octet_ok d
  | _ => false
  end.

End Net.

(* ===================================================================== *)
(** * validator.js *)
(* ===================================================================== *)

Module Validator.
Import Str Url Net.

Definition BLACKLIST_HOSTS : list string := ["127.0.0.1"; "localhost"; "::1"].

Record validation := Validation { valid : bool; reason : option string }.

(** [isValidUrl(str)] *)
Definition isValidUrl (str : string) : bool :=
  match construct str None with
  | Some parsed => String.eqb (protocol parsed) "http:" || String.eqb (protocol parsed) "https:"
  | None => false
  end.

(** [isHostAllowed(host)] *)
Definition isHostAllowed (host : string) : bool :=
  if negb (truthy host) then false
  else negb (includes BLACKLIST_HOSTS (toLowerCase host)).

(** [validateUrl(urlStr)] *)
Definition validateUrl (urlStr : string) : validation :=
  if negb (isValidUrl urlStr) then Validation false (Some "Invalid URL")
  else
    let host := match construct urlStr None with
                | Some u => hostname u
                | None => EmptyString
                end in
    if negb (isHostAllowed host) then Validation false (Some "Host is blacklisted")
    else Validation true None.

Section LocalAddress.

(** [net.isIPv6], which the results below do not depend on. *)
Variable isIPv6 : string -> bool.

(** [net.isIP(s)]: 4, 6 or 0. *)
Definition isIP (s : string) : Z :=
  if isIPv4 s then 4 else if isIPv6 s then 6 else 0.

(** [isLocalAddress(host)] *)
Definition isLocalAddress (host : string) : bool :=
  if (isIP host =? 0)%Z then false
  else if startsWith host "10." || startsWith host "192.168." || startsWith host "172.16."
  then true
  else String.eqb host "127.0.0.1".

End LocalAddress.

End Validator.

(* ===================================================================== *)
(** * src/proxy/rewrite.js *)
(* ===================================================================== *)

Module Rewrite.
Import Str Regex Uri.

Definition dq : ascii := chr 34.
Definition quotes : list cls_item := [CChar "'"; CChar dq].
Definition quotes3 : list cls_item := [CChar "'"; CChar dq; CChar "`"].
Definition anything : regex := Cls false [CSpace; CNotSpace].
Definition spaces : regex := Star true (Cls false [CSpace]).

(** [safeResolve(link, base)] *)
Definition safeResolve (link base : string) : string :=
  match Url.construct link (Some base) with
  | Some u => Url.href u
  | None => link
  end.

Fixpoint replace_chars (f : ascii -> option string) (s : string) : string :=
  match s with
  | EmptyString => EmptyString
  | String c t =>
      match f c with
      | Some r => r +:+ replace_chars f t
      | None => String c (replace_chars f t)
      end
  end.

(** [escapeAttr(s)] *)
Definition escapeAttr (s : string) : string :=
  replace_chars (fun c => if Ascii.eqb c "'" then Some "&#39;" else None)
    (replace_chars (fun c => if Ascii.eqb c dq then Some "&quot;" else None) s).

(** [s.replace(/['\x22]/g, '')] *)
Definition strip_quotes (s : string) : string :=
  replace_chars (fun c => if Ascii.eqb c "'" || Ascii.eqb c dq then Some EmptyString else None) s.

Record config := Cfg {
  proxyPath : string;
  resourcePath : string;
  aggressiveSanitize : bool
}.

Definition default_config : config :=
  {| proxyPath := "/proxy?url="; resourcePath := "/resource?url=";
     aggressiveSanitize := false |}.

(** ** The regular expressions of the module

    In the patterns quoted below \x22 is the double quote. *)

(** /url\(([^)]+)\)/gi *)
Definition re_css_url : regexp :=
  RegExp (Seqs [Lit "url("; Group 1 (Plus true (Cls true [CChar ")"])); Chr ")"]) true.

(** /^data:/ *)
Definition re_data : regexp := RegExp (Seqs [Bol; Lit "data:"]) false.

(** /@import\s+(?:url\()?['\x22]?([^'\x22\)]+)['\x22]?\)?/gi *)
Definition re_css_import : regexp :=
  RegExp (Seqs [Lit "@import"; Plus true (Cls false [CSpace]);
                Opt true (Lit "url("); Opt true (Cls false quotes);
                Group 1 (Plus true (Cls true [CChar "'"; CChar dq; CChar ")"]));
                Opt true (Cls false quotes); Opt true (Chr ")")]) true.

(** /<base[^>]*>/gi *)
Definition re_base : regexp :=
  RegExp (Seqs [Lit "<base"; Star true (Cls true [CChar ">"]); Chr ">"]) true.

(** /<meta[^>]+http-equiv=[\x22']?refresh[\x22']?[^>]*>/gi *)
Definition re_meta : regexp :=
  RegExp (Seqs [Lit "<meta"; Plus true (Cls true [CChar ">"]); Lit "http-equiv=";
                Opt true (Cls false [CChar dq; CChar "'"]); Lit "refresh";
                Opt true (Cls false [CChar dq; CChar "'"]);
                Star true (Cls true [CChar ">"]); Chr ">"]) true.

(** /content=[\x22']?([^\x22'>]+)[\x22']?/i *)
Definition re_content : regexp :=
  RegExp (Seqs [Lit "content="; Opt true (Cls false [CChar dq; CChar "'"]);
                Group 1 (Plus true (Cls true [CChar dq; CChar "'"; CChar ">"]));
                Opt true (Cls false [CChar dq; CChar "'"])]) true.

(** /^url=/i *)
Definition re_url_eq : regexp := RegExp (Seqs [Bol; Lit "url="]) true.

(** /<(img|script|iframe|audio|video|source|link|embed|object)\b([^>]{0,})>/gi,
    where {0,} is written for the star before a closing parenthesis *)
Definition re_tag : regexp :=
  RegExp (Seqs [Chr "<";
                Group 1 (Alts [Lit "img"; Lit "script"; Lit "iframe"; Lit "audio";
                               Lit "video"; Lit "source"; Lit "link"; Lit "embed";
                               Lit "object"]);
                WordB; Group 2 (Star true (Cls true [CChar ">"])); Chr ">"]) true.

(** /\bNAME=(['\x22])([^'\x22]+)\1/gi for NAME one of src, href, srcset *)
Definition re_attr (name : string) : regexp :=
  RegExp (Seqs [WordB; Lit name; Chr "="; Group 1 (Cls false quotes);
                Group 2 (Plus true (Cls true quotes)); Backref 1]) true.

(** /^https?:\/\//i *)
Definition re_http : regexp :=
  RegExp (Seqs [Bol; Lit "http"; Opt true (Chr "s"); Lit "://"]) true.

(** /rel\s*=\s*['\x22]?stylesheet['\x22]?/i *)
Definition re_rel_stylesheet : regexp :=
  RegExp (Seqs [Lit "rel"; spaces; Chr "="; spaces; Opt true (Cls false quotes);
                Lit "stylesheet"; Opt true (Cls false quotes)]) true.

(** /sandbox=/i *)
Definition re_sandbox : regexp := RegExp (Lit "sandbox=") true.

(** /\s+/ *)
Definition re_spaces : regexp := RegExp (Plus true (Cls false [CSpace])) false.

(** /style=(['\x22])([^'\x22]*?)\1/gi *)
Definition re_style_attr : regexp :=
  RegExp (Seqs [Lit "style="; Group 1 (Cls false quotes);
                Group 2 (Star false (Cls true quotes)); Backref 1]) true.

(** /<style[^>]*>([\s\S]*?)<\/style>/gi *)
Definition re_style_block : regexp :=
  RegExp (Seqs [Lit "<style"; Star true (Cls true [CChar ">"]); Chr ">";
                Group 1 (Star false anything); Lit "</style>"]) true.

(** /<script\b([^>]{0,})>([\s\S]*?)<\/script>/gi *)
Definition re_script_block : regexp :=
  RegExp (Seqs [Lit "<script"; WordB; Group 1 (Star true (Cls true [CChar ">"])); Chr ">";
                Group 2 (Star false anything); Lit "</script>"]) true.

(** /\son\w+=(['\x22])[\s\S]*?\1/gi *)
Definition re_handler : regexp :=
  RegExp (Seqs [Cls false [CSpace]; Lit "on"; Plus true (Cls false [CWord]); Chr "=";
                Group 1 (Cls false quotes); Star false anything; Backref 1]) true.

(** /fetch\s*\(\s*(['\x22`])([^'\x22`]+)\1/gi *)
Definition re_fetch : regexp :=
  RegExp (Seqs [Lit "fetch"; spaces; Chr "("; spaces; Group 1 (Cls false quotes3);
                Group 2 (Plus true (Cls true quotes3)); Backref 1]) true.

(** /open\s*\(\s*(['\x22`])?(GET|POST|PUT|DELETE|PATCH)['\x22]?\s*,\s*(['\x22`])([^'\x22`]+)\3/gi *)
Definition re_open : regexp :=
  RegExp (Seqs [Lit "open"; spaces; Chr "("; spaces;
                Opt true (Group 1 (Cls false quotes3));
                Group 2 (Alts [Lit "GET"; Lit "POST"; Lit "PUT"; Lit "DELETE"; Lit "PATCH"]);
                Opt true (Cls false quotes); spaces; Chr ","; spaces;
                Group 3 (Cls false quotes3);
                Group 4 (Plus true (Cls true quotes3)); Backref 3]) true.

(** /(\.src\s*=\s*['\x22`])([^'\x22`]+)(['\x22`])/gi *)
Definition re_dot_src : regexp :=
  RegExp (Seqs [Group 1 (Seqs [Lit ".src"; spaces; Chr "="; spaces; Cls false quotes3]);
                Group 2 (Plus true (Cls true quotes3));
                Group 3 (Cls false quotes3)]) true.

(** /import\s*\(\s*(['\x22`])([^'\x22`]+)\1\s*\)/gi *)
Definition re_import_call : regexp :=
  RegExp (Seqs [Lit "import"; spaces; Chr "("; spaces; Group 1 (Cls false quotes3);
                Group 2 (Plus true (Cls true quotes3)); Backref 1; spaces; Chr ")"]) true.

(** ** String.prototype.replace with a string pattern *)

(** The replacement text with its dollar patterns expanded; a string
    pattern has no captures, so a dollar before a digit stays. *)
Fixpoint substitution (repl before matched after_ : string) : string :=
  match repl with
  | EmptyString => EmptyString
  | String "$" (String c t as t0) =>
      if Ascii.eqb c "$" then String "$" (substitution t before matched after_)
      else if Ascii.eqb c "&" then matched +:+ substitution t before matched after_
      else if Ascii.eqb c "`" then before +:+ substitution t before matched after_
      else if Ascii.eqb c "'" then after_ +:+ substitution t before matched after_
      else String "$" (substitution t0 before matched after_)
  | String c t => String c (substitution t before matched after_)
  end.

(** [s.replace(pat, repl)] for strings [pat] and [repl]: the first
    occurrence only. *)
Definition replace_str (pat repl s : string) : string :=
  match indexOf pat s with
  | None => s
  | Some i =>
      let before := take i s in
      let after_ := drop (i + String.length pat) s in
      before +:+ substitution repl before pat after_ +:+ after_
  end.

(** ** rewriteCss *)

Definition rewriteCss (cssText baseUrl : string) (cfg : config) : string :=
  if negb (truthy cssText) || negb (truthy baseUrl) then cssText
  else
    let out :=
      replace_all re_css_url
        (fun f =>
           let cleaned := trim (strip_quotes (group_str 1 f)) in
           if test re_data cleaned then "url(" +:+ cleaned +:+ ")"
           else
             let abs := safeResolve cleaned baseUrl in
             "url(" +:+ resourcePath cfg +:+ encodeURIComponent abs +:+ ")")
        cssText in
    replace_all re_css_import
      (fun f =>
         let abs := safeResolve (group_str 1 f) baseUrl in
         "@import url(" +:+ DQ +:+ resourcePath cfg +:+ encodeURIComponent abs +:+ DQ +:+ ")")
      out.



(** ** rewriteJs *)

Definition rewriteJs (jsText baseUrl : string) (cfg : config) : string :=
  if negb (truthy jsText) || negb (truthy baseUrl) then jsText
  else
    let proxyPath := if truthy (proxyPath cfg) then proxyPath cfg else "/proxy?url=" in
    let out :=
      replace_all re_fetch
        (fun f =>
           let q := group_str 1 f in
           let abs := safeResolve (group_str 2 f) baseUrl in
           "fetch(" +:+ q +:+ proxyPath +:+ encodeURIComponent abs +:+ q)
        jsText in
    let out :=
      replace_all re_open
        (fun f =>
           let p := group_str 4 f in
           let abs := safeResolve p baseUrl in
           replace_str p (proxyPath +:+ encodeURIComponent abs) (m0 f))
        out in
    let out :=
      replace_all re_dot_src
        (fun f =>
           let abs := safeResolve (group_str 2 f) baseUrl in
           group_str 1 f +:+ proxyPath +:+ encodeURIComponent abs +:+ group_str 3 f)
        out in
    replace_all re_import_call
      (fun f =>
         let q := group_str 1 f in
         let abs := safeResolve (group_str 2 f) baseUrl in
         "import(" +:+ q +:+ proxyPath +:+ encodeURIComponent abs +:+ q +:+ ")")
      out.

(** ** rewriteHtml *)

(** The replacer of the meta refresh rewrite. *)
Definition rewrite_meta (baseUrl : string) (cfg : config) (f : found) : string :=
  let m := m0 f in
  match smatch re_content m with
  | None => EmptyString
  | Some cm =>
      let parts := map trim (split ";" (group_str 1 cm)) in
      match List.find (test re_url_eq) parts with
      | None => m
      | Some urlPart =>
          let orig := nth 1 (split "=" urlPart) EmptyString in
          let resolved := safeResolve orig baseUrl in
          "<meta http-equiv=" +:+ DQ +:+ "refresh" +:+ DQ +:+ " content=" +:+ DQ +:+
          escapeAttr (nth 0 parts EmptyString) +:+ "; url=" +:+
          escapeAttr (proxyPath cfg +:+ encodeURIComponent resolved) +:+ DQ +:+ ">"
      end
  end.

(** One candidate of a srcset list. *)
Definition rewrite_candidate (baseUrl : string) (cfg : config) (p : string) : string :=
  let fields := split_re re_spaces p in
  let src := nth 0 fields EmptyString in
  let abs := safeResolve src baseUrl in
  resourcePath cfg +:+ encodeURIComponent abs +:+
  match nth_error fields 1 with
  | Some desc => if truthy desc then " " +:+ desc else EmptyString
  | None => EmptyString
  end.

(** The replacer of the tag rewrite. *)
Definition rewrite_tag (baseUrl : string) (cfg : config) (f : found) : string :=
  let tag := group_str 1 f in
  let attrs := group_str 2 f in
  let newAttrs :=
    replace_all (re_attr "src")
      (fun f2 =>
         let abs := safeResolve (group_str 2 f2) baseUrl in
         if test re_http abs then
           if String.eqb tag "script" || String.eqb tag "iframe"
              || String.eqb tag "embed" || String.eqb tag "object"
           then "src=" +:+ DQ +:+ proxyPath cfg +:+ encodeURIComponent abs +:+ DQ
           else "src=" +:+ DQ +:+ resourcePath cfg +:+ encodeURIComponent abs +:+ DQ
         else m0 f2)
      attrs in
  let newAttrs :=
    replace_all (re_attr "href")
      (fun f2 =>
         let abs := safeResolve (group_str 2 f2) baseUrl in
         if negb (truthy abs) then m0 f2
         else if test re_rel_stylesheet newAttrs
         then "href=" +:+ DQ +:+ resourcePath cfg +:+ encodeURIComponent abs +:+ DQ
         else "href=" +:+ DQ +:+ proxyPath cfg +:+ encodeURIComponent abs +:+ DQ)
      newAttrs in
  let newAttrs :=
    replace_all (re_attr "srcset")
      (fun f2 =>
         let parts := map trim (split "," (group_str 2 f2)) in
         let rewritten := join ", " (map (rewrite_candidate baseUrl cfg) parts) in
         "srcset=" +:+ DQ +:+ escapeAttr rewritten +:+ DQ)
      newAttrs in
  let newAttrs :=
    if String.eqb tag "iframe" && negb (test re_sandbox newAttrs)
    then newAttrs +:+ " sandbox=" +:+ DQ +:+ "allow-scripts allow-forms allow-same-origin" +:+ DQ
    else newAttrs in
  "<" +:+ tag +:+ newAttrs +:+ ">".

Definition rewriteHtml (html baseUrl : string) (cfg : config) : string :=
  if negb (truthy html) || negb (truthy baseUrl) then html
  else
    let out := replace_all re_base (fun _ => EmptyString) html in
    let out := replace_all re_meta (rewrite_meta baseUrl cfg) out in
    let out := replace_all re_tag (rewrite_tag baseUrl cfg) out in
    let out :=
      replace_all re_style_attr
        (fun f =>
           let replaced :=
             replace_all re_css_url
               (fun u =>
                  let clean := trim (strip_quotes (group_str 1 u)) in
                  let abs := safeResolve clean baseUrl in
                  "url(" +:+ DQ +:+ resourcePath cfg +:+ encodeURIComponent abs +:+ DQ +:+ ")")
               (group_str 2 f) in
           "style=" +:+ DQ +:+ escapeAttr replaced +:+ DQ)
        out in
    let out :=
      replace_all re_style_block
        (fun f => "<style>" +:+ rewriteCss (group_str 1 f) baseUrl cfg +:+ "</style>")
        out in
    let out :=
      replace_all re_script_block
        (fun f => "<script" +:+ group_str 1 f +:+ ">" +:+
                  rewriteJs (group_str 2 f) baseUrl cfg +:+ "</script>")
        out in
    if aggressiveSanitize cfg
    then replace_all re_handler (fun _ => EmptyString) out
    else out.

End Rewrite.

(* ===================================================================== *)
(** * cssParser.js *)
(* ===================================================================== *)

Module CssParser.
Import Str Regex Rewrite.

(** /@import\s+(?:url\()?['\x22]?([^'\x22)]+)['\x22]?\)?;/gi, one object for the
    whole module: its [lastIndex] is shared by every call. *)
Definition IMPORT_REGEX : regexp :=
  RegExp (Seqs [Lit "@import"; Plus true (Cls false [CSpace]);
                Opt true (Lit "url("); Opt true (Cls false quotes);
                Group 1 (Plus true (Cls true [CChar "'"; CChar dq; CChar ")"]));
                Opt true (Cls false quotes); Opt true (Chr ")"); Chr ";"]) true.

Section InlineImports.

(** The fetcher handed in by the caller; [None] is a rejection. *)
Variable fetcherFn : string -> option string.

(** [inlineImports(css, baseUrl, fetcherFn)], started with the value
    [lastIndex] of [IMPORT_REGEX]; the result is the text returned and the
    value of [lastIndex] left behind.  Every turn of the loop and every
    call takes one unit of [fuel]; [None] means the fuel ran out. *)
Fixpoint inlineImports (fuel : nat) (lastIndex : nat) (css baseUrl : string)
  : option (string * nat) :=
  match fuel with
  | O => None
  | S fuel' =>
      if negb (truthy css) then Some (css, lastIndex)
      else
        match exec IMPORT_REGEX css lastIndex with
        | (None, li) => Some (css, li)
        | (Some (_, f), li) =>
            let importUrl := group_str 1 f in
            let abs := safeResolve importUrl baseUrl in
            match fetcherFn abs with
            | Some importedCss =>
                match inlineImports fuel' li importedCss abs with
                | Some (cleaned, li') =>
                    inlineImports fuel' li' (replace_str (m0 f) cleaned css) baseUrl
                | None => None
                end
            | None =>
                inlineImports fuel' li (replace_str (m0 f) EmptyString css) baseUrl
            end
        end
  end.

End InlineImports.

End CssParser.

(* ===================================================================== *)
(** * cookies.js *)
(* ===================================================================== *)

Module Cookies.
Import Str.

(** [parseCookieHeader(header)] *)
Definition parseCookieHeader (header : string) : gmap string string :=
  if negb (truthy header) then ∅
  else
    fold_left
      (fun result pair =>
         match indexOf "=" pair with
         | Some idx =>
             if (0 <? idx)%nat
             then Obj.assign (trim (slice 0 idx pair)) (trim (drop (idx + 1) pair)) result
             else result
         | None => result
         end)
      (split ";" header) ∅.

(** The options of [serializeCookie]: an empty text and the number 0
    are falsy; [expires] carries the text that [toUTCString] gives for
    the date. *)
Record cookie_options := CookieOptions {
  domain : string;
  path : string;
  expires : option string;
  maxAge : Z;
  httpOnly : bool;
  secure : bool;
  sameSite : string
}.

Definition no_options : cookie_options :=
  {| domain := EmptyString; path := EmptyString; expires := None; maxAge := 0;
     httpOnly := false; secure := false; sameSite := EmptyString |}.

(** [serializeCookie(key, value, options)] *)
Definition serializeCookie (key value : string) (options : cookie_options) : string :=
  let cookieStr := key +:+ "=" +:+ value in
  let cookieStr :=
    if truthy (domain options) then cookieStr +:+ "; Domain=" +:+ domain options
    else cookieStr in
  let cookieStr :=
    if truthy (path options) then cookieStr +:+ "; Path=" +:+ path options else cookieStr in
  let cookieStr :=
    match expires options with
    | Some utc => cookieStr +:+ "; Expires=" +:+ utc
    | None => cookieStr
    end in
  let cookieStr :=
    if negb (maxAge options =? 0)%Z
    then cookieStr +:+ "; Max-Age=" +:+
         DecimalString.NilZero.string_of_int (Z.to_int (maxAge options))
    else cookieStr in
  let cookieStr := if httpOnly options then cookieStr +:+ "; HttpOnly" else cookieStr in
  let cookieStr := if secure options then cookieStr +:+ "; Secure" else cookieStr in
  if truthy (sameSite options) then cookieStr +:+ "; SameSite=" +:+ sameSite options
  else cookieStr.

(** A name and a value that a Cookie header carries as they are: no
    separator inside, no white space around, and a name that is neither
    empty nor __proto__. *)
Definition plain_name (k : string) : bool :=
  truthy k && lacks ";" k && lacks "=" k && String.eqb (trim k) k
  && negb (String.eqb k "__proto__").
Definition plain_value (v : string) : bool := lacks ";" v && String.eqb (trim v) v.

(** [filterCookies(cookies, { whitelist, blacklist })] *)
Definition filterCookies (cookies : gmap string string) (whitelist blacklist : list string)
  : gmap string string :=
  map_fold
    (fun k v filtered =>
       if includes blacklist k then filtered
       else if negb (List.length whitelist =? 0)%nat && negb (includes whitelist k)
       then filtered
       else Obj.assign k v filtered)
    ∅ cookies.

End Cookies.

(* ===================================================================== *)
(** * src/proxy/errorPage.js *)
(* ===================================================================== *)

Module ErrorPage.
Import Str Rewrite.

Definition replace_char (c : ascii) (r : string) (s : string) : string :=
  replace_chars (fun a => if Ascii.eqb a c then Some r else None) s.

(** [sanitizeForHtml(s)]; [None] is null or undefined. *)
Definition sanitizeForHtml (s : option string) : string :=
  match s with
  | None => EmptyString
  | Some t =>
      replace_char "'" "&#39;"
        (replace_char dq "&quot;"
           (replace_char ">" "&gt;"
              (replace_char "<" "&lt;"
                 (replace_char "&" "&amp;" t))))
  end.

End ErrorPage.

(* ===================================================================== *)
(** * src/proxy/security.js *)
(* ===================================================================== *)

Module Security.
Import Str Net.

(** ** Numbers of the runtime *)

(** ToInt32 of an integer. *)
Definition to_int32 (x : Z) : Z := ((x + 2 ^ 31) mod 2 ^ 32 - 2 ^ 31)%Z.

(** [parseInt(s, 10)]: white space, a sign, then the longest run of
    digits; [None] is NaN. *)
Definition parseInt10 (s : string) : option Z :=
  let s := trimStart s in
  let (neg, s) :=
    match s with
    | String "-" t => (true, t)
    | String "+" t => (false, t)
    | _ => (false, s)
    end in
  let (ds, _) := Url.break (fun c => negb (is_digit c)) s in
  match ds with
  | EmptyString => None
  | _ => Some (if neg then (- digits_value ds 0)%Z else digits_value ds 0)
  end.

(** ** The module *)

Definition allowedDomains : list string := ["example.com"; "wikipedia.org"; "github.com"].

Definition blockedSubnets : list string :=
  ["127.0.0.0/8"; "10.0.0.0/8"; "172.16.0.0/12"; "192.168.0.0/16"].

(** The text of the IPv4 address a.b.c.d. *)
Definition dotted_quad (a b c d : N) : string :=
  Url.N_to_string a +:+ "." +:+ Url.N_to_string b +:+ "." +:+ Url.N_to_string c +:+ "."
  +:+ Url.N_to_string d.

(** [ipToInt(ip)]: the reduction starts at 0; [acc << 8] takes ToInt32
    of the accumulator (0 for NaN); [None] is NaN. *)
Definition ipToInt (ip : string) : option Z :=
  fold_left
    (fun acc o =>
       let shifted := to_int32 (to_int32 (default 0%Z acc) * 2 ^ 8) in
       match parseInt10 o with
       | Some v => Some (shifted + v)%Z
       | None => None
       end)
    (split "." ip) (Some 0%Z).

(** [~(2 ** (32 - maskBits) - 1)]: the power is exact up to 2 ** 53,
    rounds to a multiple of 2 ** 32 above, and is a fraction below 1 for
    a negative exponent. *)
Definition mask_of (maskBits : option Z) : Z :=
  Z.lnot
    (match maskBits with
     | None => 0
     | Some b =>
         let k := (32 - b)%Z in
         if (k <? 0)%Z then 0
         else if (k <=? 53)%Z then to_int32 (2 ^ k - 1)
         else 0
     end)%Z.

(** [!x] for a number or null. *)
Definition falsy_num (x : option Z) : bool :=
  match x with
  | Some v => (v =? 0)%Z
  | None => true
  end.

(** [ipInSubnet(ip, subnet)] *)
Definition ipInSubnet (ip subnet : string) : bool :=
  let parts := split "/" subnet in
  let block := nth 0 parts EmptyString in
  let maskBits :=
    match nth_error parts 1 with
    | Some mask => parseInt10 mask
    | None => None
    end in
  let ipBuf := if isIPv4 ip then ipToInt ip else None in
  let blockBuf := if isIPv4 block then ipToInt block else None in
  if falsy_num ipBuf || falsy_num blockBuf then false
  else
    let maskVal := mask_of maskBits in
    (Z.land (to_int32 (default 0%Z ipBuf)) maskVal
     =? Z.land (to_int32 (default 0%Z blockBuf)) maskVal)%Z.

(** The number that [ipToInt] gives for a.b.c.d with numbers below
    256: the unsigned value, less 2 ** 32 from 128.0.0.0 on. *)
Definition quad_int (a b c d : N) : Z :=
  (Z.of_N a * 2 ^ 24 + Z.of_N b * 2 ^ 16 + Z.of_N c * 2 ^ 8 + Z.of_N d
   - (if (a <? 128)%N then 0 else 2 ^ 32))%Z.

(** The ranges 127/8, 10/8, 172.16/12 and 192.168/16, by the first two
    numbers of an address. *)
Definition private_range (a b : N) : bool :=
  ((a =? 127) || (a =? 10) || ((a =? 172) && (16 <=? b) && (b <=? 31))
   || ((a =? 192) && (b =? 168)))%N.

(** An address that a lookup gives: the four numbers of an IPv4 address,
    or a text of another family. *)
Definition address_text (x : N * N * N * N + string) : string :=
  match x with
  | inl (a, b, c, d) => dotted_quad a b c d
  | inr s => s
  end.
Definition resolved_ok (x : N * N * N * N + string) : bool :=
  match x with
  | inl (a, b, c, d) => ((a <? 256) && (b <? 256) && (c <? 256) && (d <? 256))%N
  | inr s => negb (isIPv4 s)
  end.
Definition address_private (x : N * N * N * N + string) : bool :=
  match x with
  | inl (a, b, _, _) => private_range a b
  | inr _ => false
  end.

(** [String.prototype.endsWith] *)
Definition endsWith (s suffix : string) : bool :=
  String.prefix (srev suffix) (srev s).

(** [checkHostAllowed(hostname)]; [dns] is the lookup with the option
    all, [None] its rejection. *)
Definition checkHostAllowed (dns : string -> option (list string)) (hostname : string)
  : bool :=
  if negb (truthy hostname) then false
  else
    let domain := toLowerCase hostname in
    if existsb (fun d => endsWith domain d) allowedDomains then true
    else
      match dns domain with
      | Some addrs =>
          negb (existsb (fun ip => existsb (fun sub => ipInSubnet ip sub) blockedSubnets)
                        addrs)
      | None => false
      end.

(** [enforceRateLimit(ip, limit, perMs)] at time [now], on the map
    [clientRequests]. *)
Definition enforceRateLimit (ip : string) (limit perMs : Z) (now : Z)
           (clientRequests : gmap string (list Z)) : bool * gmap string (list Z) :=
  let m :=
    match clientRequests !! ip with
    | Some _ => clientRequests
    | None => <[ip := []]> clientRequests
    end in
  let arr := List.filter (fun t => (now - t <? perMs)%Z) (default [] (m !! ip)) ++ [now] in
  let m := <[ip := arr]> m in
  if (Z.of_nat (List.length arr) >? limit)%Z then (false, m) else (true, m).

(** The requests served one after the other, from an empty map: the
    answers and the map left. *)
Fixpoint serve (limit perMs : Z) (calls : list (string * Z))
         (clientRequests : gmap string (list Z)) : list bool * gmap string (list Z) :=
  match calls with
  | [] => ([], clientRequests)
  | (ip, now) :: rest =>
      let (r, m) := enforceRateLimit ip limit perMs now clientRequests in
      let (rs, m') := serve limit perMs rest m in
      (r :: rs, m')
  end.

End Security.

(* ===================================================================== *)
(** * Values and JSON *)
(* ===================================================================== *)

Module Js.
Import Str Uri.

(** The values the cache stores: text, buffers and plain records.
    Numbers are integers. *)
#[warnings="-register-all"] Inductive jsval :=
| JUndefined
| JNull
| JBool (b : bool)
| JNum (n : Z)
| JStr (s : string)
| JBuffer (bytes : string)
| JArr (items : list jsval)
| JObj (fields : list (string * jsval)).

(** ToBoolean *)
Definition truthy (v : jsval) : bool :=
  match v with
  | JUndefined | JNull => false
  | JBool b => b
  | JNum n => negb (n =? 0)%Z
  | JStr s => Str.truthy s
  | JBuffer _ | JArr _ | JObj _ => true
  end.

(** [v != null] *)
Definition not_nullish (v : jsval) : bool :=
  match v with
  | JUndefined | JNull => false
  | _ => true
  end.

(** Property read [v.name]; [undefined] when there is none. *)
Definition field (name : string) (v : jsval) : jsval :=
  match v with
  | JObj fields =>
      match List.find (fun kv => String.eqb kv.1 name) fields with
      | Some kv => kv.2
      | None => JUndefined
      end
  | _ => JUndefined
  end.

Definition Z_to_string (n : Z) : string :=
  DecimalString.NilZero.string_of_int (Z.to_int n).

Definition hex4 (c : ascii) : string :=
  "00" +:+ String (lower (hexdigit (code c / 16)))
             (String (lower (hexdigit (code c mod 16))) EmptyString).

(** QuoteJSONString *)
Definition quote_char (c : ascii) : string :=
  if (code c =? 8)%nat then "\b"
  else if (code c =? 9)%nat then "\t"
  else if (code c =? 10)%nat then "\n"
  else if (code c =? 12)%nat then "\f"
  else if (code c =? 13)%nat then "\r"
  else if (code c =? 34)%nat then String "\" DQ
  else if (code c =? 92)%nat then "\\"
  else if (code c <? 32)%nat then "\u" +:+ hex4 c
  else String c EmptyString.

Fixpoint quote_body (s : string) : string :=
  match s with
  | EmptyString => EmptyString
  | String c t => quote_char c +:+ quote_body t
  end.

Definition quote (s : string) : string := DQ +:+ quote_body s +:+ DQ.

Fixpoint bytes_of (s : string) : list Z :=
  match s with
  | EmptyString => []
  | String c t => Z.of_nat (code c) :: bytes_of t
  end.

(** [JSON.stringify(v)]; [None] is [undefined]. *)
Fixpoint stringify (v : jsval) : option string :=
  match v with
  | JUndefined => None
  | JNull => Some "null"
  | JBool b => Some (if b then "true" else "false")
  | JNum n => Some (Z_to_string n)
  | JStr s => Some (quote s)
  | JBuffer b =>
      Some ("{" +:+ quote "type" +:+ ":" +:+ quote "Buffer" +:+ "," +:+ quote "data" +:+ ":["
            +:+ join "," (map Z_to_string (bytes_of b)) +:+ "]}")
  | JArr items =>
      Some ("[" +:+
            join "," (map (fun x => match stringify x with
                                    | Some t => t
                                    | None => "null"
                                    end) items)
            +:+ "]")
  | JObj fields =>
      Some ("{" +:+
            join "," (flat_map (fun kv => match stringify (snd kv) with
                                          | Some t => [quote (fst kv) +:+ ":" +:+ t]
                                          | None => []
                                          end) fields)
            +:+ "}")
  end.

(** [JSON.parse(JSON.stringify(v))] for a value that is not [undefined]. *)
Fixpoint roundtrip (v : jsval) : jsval :=
  match v with
  | JBuffer b => JObj [("type", JStr "Buffer"); ("data", JArr (map JNum (bytes_of b)))]
  | JArr items =>
      JArr (map (fun x => match x with
                          | JUndefined => JNull
                          | _ => roundtrip x
                          end) items)
  | JObj fields =>
      JObj (flat_map (fun kv => match snd kv with
                                | JUndefined => []
                                | _ => [(fst kv, roundtrip (snd kv))]
                                end) fields)
  | _ => v
  end.

End Js.

(* ===================================================================== *)
(** * src/proxy/resourceCache.js *)
(* ===================================================================== *)

Module Cache.
Import Str Js.

(** The source's values of the two ceilings and of the persistence limit. *)
Definition DEFAULT_MAX_ITEMS : Z := 500.
Definition DEFAULT_MAX_BYTES : Z := 50 * 1024 * 1024.
Definition MAX_PERSIST_BYTES : Z := 1024 * 1024.

(** [estimateSize(obj)].  The values of the model always serialize, so
    the fallback 1024 of the catch clause is only reached for
    [undefined], which the first test answers. *)
Definition estimateSize (obj : jsval) : Z :=
  if negb (truthy obj) then 0
  else
    match obj with
    | JBuffer b => Z.of_nat (String.length b)
    | JStr s => Z.of_nat (String.length s)
    | _ =>
        match stringify obj with
        | Some t => Z.of_nat (String.length t)
        | None => 1024
        end
    end.

Record entry := Entry { value : jsval; size : Z; expiresAt : option Z }.

(** A file of the cache folder: its parsed JSON text, or a text that
    does not parse. *)
Inductive file :=
| Unparsable
| Parsed (content : jsval).

(** [cacheMap] in insertion order, [currentBytes], and the cache folder
    by file name. *)
Record state := State {
  cacheMap : list (string * entry);
  currentBytes : Z;
  disk : gmap string file
}.

(** ** Map methods, on the list of entries in insertion order *)

Definition map_has (k : string) (m : list (string * entry)) : bool :=
  existsb (fun p => String.eqb p.1 k) m.

Fixpoint map_get (k : string) (m : list (string * entry)) : option entry :=
  match m with
  | [] => None
  | (k', e) :: t => if String.eqb k' k then Some e else map_get k t
  end.

Definition map_delete (k : string) (m : list (string * entry)) : list (string * entry) :=
  List.filter (fun p => negb (String.eqb p.1 k)) m.

(** A present key keeps its place, a new key goes to the end. *)
Fixpoint map_set (k : string) (e : entry) (m : list (string * entry))
  : list (string * entry) :=
  match m with
  | [] => [(k, e)]
  | (k', e') :: t => if String.eqb k' k then (k, e) :: t else (k', e') :: map_set k e t
  end.

(** ** Well-formed states *)

(** The sum of the recorded sizes of the entries in memory. *)
Definition sum_sizes (m : list (string * entry)) : Z :=
  fold_right (fun p acc => (size p.2 + acc)%Z) 0%Z m.

(** A Map holds a key once. *)
Fixpoint nodup_keys (m : list (string * entry)) : bool :=
  match m with
  | [] => true
  | (k, _) :: t => negb (map_has k t) && nodup_keys t
  end.

Definition nonneg (m : list (string * entry)) : bool :=
  forallb (fun p => (0 <=? size p.2)%Z) m.

(** The state is consistent: no key twice, the byte counter is the sum
    of the recorded sizes, and no size is negative. *)
Definition consistent (s : state) : bool :=
  nodup_keys (cacheMap s)
  && (currentBytes s =? sum_sizes (cacheMap s))%Z
  && nonneg (cacheMap s).

(** [entry.expiresAt && entry.expiresAt < now()] *)
Definition expired (e : entry) (now : Z) : bool :=
  match expiresAt e with
  | Some t => negb (t =? 0)%Z && (t <? now)%Z
  | None => false
  end.

(** The entry is not expired at time [t]. *)
Definition live (t : Z) (p : string * entry) : bool := negb (expired p.2 t).

Section Store.

(** [shaKey]: the SHA-256 digest in hexadecimal. *)
Variable shaKey : string -> string.
(** The two ceilings, the default arguments of [evictIfNeeded]: the
    source passes [DEFAULT_MAX_ITEMS] and [DEFAULT_MAX_BYTES] everywhere. *)
Variables maxItems maxBytes : Z.

Definition filename (key : string) : string := shaKey key +:+ ".json".

(** [touchKey(key)] *)
Definition touchKey (key : string) (m : list (string * entry)) : list (string * entry) :=
  match map_get key m with
  | None => m
  | Some e => map_set key e (map_delete key m)
  end.

(** The loop of [evictIfNeeded]; every turn removes an entry, so the
    number of entries bounds the number of turns. *)
Fixpoint evict_loop (n : nat) (m : list (string * entry)) (bytes : Z)
  : list (string * entry) * Z :=
  match n with
  | O => (m, bytes)
  | S n' =>
      if ((Z.of_nat (List.length m) >? maxItems)%Z || (bytes >? maxBytes)%Z)
         && (0 <? List.length m)%nat
      then
        match m with
        | (firstKey, _) :: _ =>
            match map_get firstKey m with
            | Some e => evict_loop n' (map_delete firstKey m) (bytes - size e)%Z
            | None => (m, bytes)
            end
        | [] => (m, bytes)
        end
      else (m, bytes)
  end.

(** [evictIfNeeded()] *)
Definition evictIfNeeded (s : state) : state :=
  let (m, b) := evict_loop (List.length (cacheMap s)) (cacheMap s) (currentBytes s) in
  {| cacheMap := m; currentBytes := b; disk := disk s |}.

(** [persistToDisk(key, data)]; [ok] tells whether the write succeeds, a
    failed write leaves the folder as it was. *)
Definition persistToDisk (key : string) (data : jsval) (now : Z) (ok : bool)
           (d : gmap string file) : gmap string file :=
  if ok then
    <[filename key :=
        Parsed (roundtrip (JObj [("ts", JNum now); ("key", JStr key); ("data", data)]))]> d
  else d.

(** [loadFromDisk(key)] *)
Definition loadFromDisk (key : string) (d : gmap string file) : jsval :=
  match d !! filename key with
  | Some (Parsed parsed) =>
      if truthy parsed && truthy (field "data" parsed) then field "data" parsed
      else JNull
  | _ => JNull
  end.

(** [removeFromDisk(key)] *)
Definition removeFromDisk (key : string) (d : gmap string file) : gmap string file :=
  delete (filename key) d.

(** [get(key)] runs in two turns of the event loop when the key is not
    in memory: it is suspended at [await loadFromDisk(key)] and resumed
    with what was read.  Everything else in the module's functions that
    touches [cacheMap] and [currentBytes] runs in one turn. *)
Inductive pending :=
| Done (v : jsval)
| AwaitDisk (key : string).

(** [get(key)] at time [now], up to its return or to the await. *)
Definition get_begin (key : string) (now : Z) (s : state) : pending * state :=
  if negb (Str.truthy key) then (Done JNull, s)
  else
    match map_get key (cacheMap s) with
    | Some e =>
        if expired e now then
          (Done JNull,
           {| cacheMap := map_delete key (cacheMap s);
              currentBytes := (currentBytes s - size e)%Z;
              disk := removeFromDisk key (disk s) |})
        else
          (Done (value e),
           {| cacheMap := touchKey key (cacheMap s);
              currentBytes := currentBytes s;
              disk := disk s |})
    | None => (AwaitDisk key, s)
    end.

(** [get(key)] from the await on, resumed with [diskVal]. *)
Definition get_resume (key : string) (diskVal : jsval) (s : state) : jsval * state :=
  if not_nullish diskVal then
    let sz := estimateSize diskVal in
    (diskVal,
     evictIfNeeded
       {| cacheMap := map_set key (Entry diskVal sz None) (cacheMap s);
          currentBytes := (currentBytes s + sz)%Z;
          disk := disk s |})
  else (JNull, s).

(** [get(key)] when nothing else runs between its two turns. *)
Definition get (key : string) (now : Z) (s : state) : jsval * state :=
  match get_begin key now s with
  | (Done v, s') => (v, s')
  | (AwaitDisk k, s') => get_resume k (loadFromDisk k (disk s')) s'
  end.

(** [set(key, value, ttlMs)] at time [now]; [ok] tells whether the write
    to the folder succeeds. *)
Definition set (key : string) (v : jsval) (ttlMs : Z) (now : Z) (ok : bool) (s : state)
  : bool * state :=
  if negb (Str.truthy key) then (false, s)
  else
    let sz := estimateSize v in
    let exp := if negb (ttlMs =? 0)%Z then Some (now + ttlMs)%Z else None in
    let (m, b) :=
      match map_get key (cacheMap s) with
      | Some prev => (map_delete key (cacheMap s), (currentBytes s - size prev)%Z)
      | None => (cacheMap s, currentBytes s)
      end in
    let s1 := evictIfNeeded
                {| cacheMap := map_set key (Entry v sz exp) m;
                   currentBytes := (b + sz)%Z;
                   disk := disk s |} in
    (true,
     if (sz <=? MAX_PERSIST_BYTES)%Z then
       {| cacheMap := cacheMap s1; currentBytes := currentBytes s1;
          disk := persistToDisk key
                    (JObj [("value", v);
                           ("meta", JObj [("ttl", JNum ttlMs); ("storedAt", JNum now)])])
                    now ok (disk s1) |}
     else s1).

(** [del(key)] *)
Definition del (key : string) (s : state) : bool * state :=
  if negb (Str.truthy key) then (false, s)
  else
    let (m, b) :=
      match map_get key (cacheMap s) with
      | Some e => (map_delete key (cacheMap s), (currentBytes s - size e)%Z)
      | None => (cacheMap s, currentBytes s)
      end in
    (true, {| cacheMap := m; currentBytes := b; disk := removeFromDisk key (disk s) |}).

(** [clear()] *)
Definition clear (s : state) : state :=
  {| cacheMap := []; currentBytes := 0; disk := ∅ |}.

(** [stats()]: items, bytes, persisted files *)
Definition stats (s : state) : Z * Z * Z :=
  (Z.of_nat (List.length (cacheMap s)), currentBytes s, Z.of_nat (base.size (disk s))).

(** The background cleanup at time [nowTs]: the entries are visited in
    order and the expired ones deleted, then the ceilings are enforced. *)
Definition sweep_step (nowTs : Z) (acc : list (string * entry) * Z) (p : string * entry)
  : list (string * entry) * Z :=
  if expired p.2 nowTs then (map_delete p.1 acc.1, (acc.2 - size p.2)%Z) else acc.

Definition sweep (nowTs : Z) (s : state) : state :=
  let (m, b) := fold_left (sweep_step nowTs) (cacheMap s) (cacheMap s, currentBytes s) in
  evictIfNeeded {| cacheMap := m; currentBytes := b; disk := disk s |}.

(** The state is within the two ceilings. *)
Definition bounded (s : state) : Prop :=
  (Z.of_nat (List.length (cacheMap s)) <= maxItems /\ currentBytes s <= maxBytes)%Z.

(** The entries are over a ceiling: the condition under which the loop
    of [evictIfNeeded] removes the first of them. *)
Definition over (m : list (string * entry)) : Prop :=
  (maxItems < Z.of_nat (List.length m) \/ maxBytes < sum_sizes m)%Z.

(** ** Runs of the module *)

Inductive op :=
| OGet (key : string) (now : Z)
| OSet (key : string) (v : jsval) (ttlMs : Z) (now : Z) (ok : bool)
| ODel (key : string)
| OClear
| OSweep (nowTs : Z).

Definition step (o : op) (s : state) : state :=
  match o with
  | OGet k now => (get k now s).2
  | OSet k v ttl now ok => (set k v ttl now ok s).2
  | ODel k => (del k s).2
  | OClear => clear s
  | OSweep t => sweep t s
  end.

Definition run (ops : list op) (s : state) : state := fold_left (fun s o => step o s) ops s.

(** The module when it is loaded: nothing in memory, the folder as the
    last run of the process left it. *)
Definition init (d : gmap string file) : state :=
  {| cacheMap := []; currentBytes := 0; disk := d |}.

End Store.

End Cache.

(* ===================================================================== *)
(** * src/proxy/fetcher.js *)
(* ===================================================================== *)

Module Fetcher.
Import Str Js.

Definition DEFAULT_TIMEOUT : Z := 15000.
Definition DEFAULT_RETRIES : Z := 2.
Definition BACKOFF_BASE : Z := 300.

(** What one call of [fetch] comes to: a response with its status,
    headers and body chunks ([body_ok] is false when the body stream
    errors after the chunks), or a rejection (timeout and abort,
    connection reset, any other error). *)
Inductive outcome :=
| Resolved (status : Z) (statusText : string) (headers : list (string * string))
           (chunks : list string) (body_ok : bool)
| Rejected (message : string).

(** The upstream: the outcome of the n-th attempt of one call. *)
Definition upstream := Z -> outcome.

Inductive event :=
| EFetch (attempt : Z)
| ESleep (ms : Z).

Record options := Options {
  timeout : option Z;
  retries : option Z;
  useCache : bool;
  ttl : Z;
  maxCacheCaptureBytes : Z
}.

Definition default_options : options :=
  {| timeout := None; retries := None; useCache := true; ttl := 0;
     maxCacheCaptureBytes := 0 |}.

(** [res.ok] *)
Definition ok (status : Z) : bool := (200 <=? status)%Z && (status <=? 299)%Z.

(** [isValidUrl(u)], as far as the URL model goes. *)
Definition isValidUrl (u : string) : bool :=
  match Url.construct u None with Some _ => true | None => false end.

(** [(opts.ttl || 60) * 1000] *)
Definition ttl_ms (o : options) : Z := ((if (ttl o =? 0)%Z then 60 else ttl o) * 1000)%Z.

(** What a throw carries: an error with its message (one that the
    module makes, or the rejection of [fetch]), the TypeError of reading
    the property [property] of undefined, or the value undefined. *)
Inductive error :=
| Err (message : string)
| TypeErr (property : string)
| Undef.

(** The result of [fetchText]: the value returned, or what is thrown. *)
Inductive result :=
| Returned (v : jsval)
| Thrown (e : error).

(** [const { logger } = require('./logger')]: the module logger.js is
    there and exports logInfo, logWarn, logError, writeLog, LOG_FILE and
    LOG_DIR, and no property named logger.  The require succeeds, so the
    fallback object of the catch clause is not used, and [logger] is
    undefined ([None]). *)
Definition logger : option unit := None.

(** [logger.logX(...)]: reading a property of undefined throws a
    TypeError; [Some e] is the throw of [e], [None] a call that returns. *)
Definition log (method : string) : option error :=
  match logger with
  | Some _ => None
  | None => Some (TypeErr method)
  end.

(** How a call of [streamToResponse] ends: its promise resolves and
    nothing is thrown afterwards; its promise rejects; or its promise
    resolves and a listener of the body stream throws later (or the
    promise of the asynchronous listener rejects), where nothing catches
    it. *)
Inductive ending :=
| Resolves
| Rejects (e : error)
| Uncaught (e : error).

Section Fetch.

(** SHA-256 in hexadecimal, of [cacheKeyFor] and of the cache. *)
Variable sha256 : string -> string.

Definition cache_get := Cache.get sha256 Cache.DEFAULT_MAX_ITEMS Cache.DEFAULT_MAX_BYTES.
Definition cache_set := Cache.set sha256 Cache.DEFAULT_MAX_ITEMS Cache.DEFAULT_MAX_BYTES.

(** [cacheKeyFor(url, { mode })] *)
Definition cacheKeyFor (url mode : string) : string :=
  sha256 (url +:+ match stringify (JObj [("mode", JStr mode)]) with
                  | Some t => t
                  | None => EmptyString
                  end).

(** The retry loop of [fetchText].  [n] bounds the turns that are left;
    the loop is entered with [attempt = 0] and [n] at least
    [retries + 1].  [caught] is the catch clause: it records the error and
    calls [logger.logWarn] before it waits. *)
Fixpoint text_loop (n : nat) (up : upstream) (retries attempt : Z)
         (lastErr : error) (tr : list event)
  : result * list event :=
  match n with
  | O => (Thrown lastErr, tr)
  | S n' =>
      if (attempt <=? retries)%Z then
        let attempt := (attempt + 1)%Z in
        let tr := tr ++ [EFetch attempt] in
        let caught (err : error) :=
          match log "logWarn" with
          | Some e => (Thrown e, tr)
          | None =>
              if (attempt <=? retries)%Z
              then text_loop n' up retries attempt err
                             (tr ++ [ESleep (BACKOFF_BASE * attempt)])
              else text_loop n' up retries attempt err tr
          end in
        match up attempt with
        | Resolved status statusText _ chunks body_ok =>
            if negb (ok status) then
              let msg := "fetchText got " +:+ Z_to_string status +:+ " " +:+ statusText in
              if (status >=? 500)%Z && (attempt <=? retries)%Z then
                text_loop n' up retries attempt (Err msg)
                          (tr ++ [ESleep (BACKOFF_BASE * attempt)])
              else caught (Err msg)
            else if body_ok then (Returned (JStr (String.concat EmptyString chunks)), tr)
            else caught (Err "body stream error")
        | Rejected message => caught (Err message)
        end
      else (Thrown lastErr, tr)
  end.

Definition retries_of (o : options) : Z :=
  match retries o with Some r => r | None => DEFAULT_RETRIES end.

(** [fetchText(url, opts)] at time [now] against the cache [c].  On a
    hit the try block calls [logger.logInfo] before it returns, and the
    catch clause around it calls [logger.logWarn]; were both to return,
    the call would go on to the loop. *)
Definition fetchText (url : string) (o : options) (up : upstream) (now : Z)
           (c : Cache.state) : result * list event * Cache.state :=
  if negb (isValidUrl url) then (Thrown (Err "Invalid URL"), [], c)
  else
    let key := cacheKeyFor url "text" in
    let (cached, c1) := if useCache o then cache_get key now c else (JNull, c) in
    let fetched :=
      let (r, tr) := text_loop (Z.to_nat (retries_of o + 1)) up (retries_of o) 0 Undef [] in
      match r with
      | Returned text =>
          (r, tr, if useCache o then (cache_set key text (ttl_ms o) now true c1).2 else c1)
      | Thrown _ => (r, tr, c1)
      end in
    if useCache o && truthy cached then
      match log "logInfo" with
      | None => (Returned cached, [], c1)
      | Some _ =>
          match log "logWarn" with
          | Some e => (Thrown e, [], c1)
          | None => fetched
          end
      end
    else fetched.

(** The Express response: status, headers, the chunks written, and
    whether it was ended. *)
Record response := Response {
  statusCode : option Z;
  resHeaders : list (string * string);
  written : list string;
  ended : bool
}.

Definition fresh_response : response :=
  {| statusCode := None; resHeaders := []; written := []; ended := false |}.

(** [res.status(code).send(text)] *)
Definition send (code : Z) (text : string) (r : response) : response :=
  {| statusCode := Some code; resHeaders := resHeaders r;
     written := written r ++ [text]; ended := true |}.

Definition headerWhitelist : list string :=
  ["content-type"; "content-length"; "last-modified"; "etag"; "cache-control"].

Definition header_get (h : string) (hs : list (string * string)) : option string :=
  match List.find (fun kv => String.eqb kv.1 h) hs with
  | Some kv => Some kv.2
  | None => None
  end.

(** The allow-listed headers of a response that have a value. *)
Definition allowed_headers (hs : list (string * string)) : list (string * string) :=
  flat_map (fun h => match header_get h hs with
                     | Some v => if Str.truthy v then [(h, v)] else []
                     | None => []
                     end) headerWhitelist.

(** The capture of the chunks for the cache: the chunks kept and their
    length, [None] once the limit was passed. *)
Fixpoint capture (limit : Z) (chunks : list string) (kept : list string) (len : option Z)
  : list string * option Z :=
  match chunks with
  | [] => (kept, len)
  | ch :: t =>
      match len with
      | Some l =>
          if (l + Z.of_nat (String.length ch) <=? limit)%Z
          then capture limit t (kept ++ [ch]) (Some (l + Z.of_nat (String.length ch))%Z)
          else capture limit t kept None
      | None => capture limit t kept None
      end
  end.

(** The body of a 2xx answer going to the response [res1], whose
    headers are set already.  With the cache in use the listeners of the
    module do it: every chunk is written; at the end of the stream the
    response is ended and a body that was captured is handed to the
    cache, after which [logger.logInfo] is called inside a try block whose
    catch clause calls [logger.logWarn]; on an error of the stream
    [logger.logError] is called before the response is ended.  Without the
    cache the stream is piped, which ends the response at the end of the
    stream and leaves it open on an error.  The result is the response,
    what to put into the cache, and the ending. *)
Definition stream_body (o : options) (hs : list (string * string)) (chunks : list string)
           (body_ok : bool) (res1 : response) : response * option jsval * ending :=
  let wrote (e : bool) :=
    {| statusCode := statusCode res1; resHeaders := resHeaders res1;
       written := written res1 ++ chunks; ended := ended res1 || e |} in
  if useCache o then
    if body_ok then
      let limit := if (maxCacheCaptureBytes o =? 0)%Z then (1024 * 1024)%Z
                   else maxCacheCaptureBytes o in
      match capture limit chunks [] (Some 0%Z) with
      | (kept, Some len) =>
          if (0 <? len)%Z then
            let entry :=
              JObj [("headers",
                     JObj (map (fun kv => (kv.1, JStr kv.2)) (allowed_headers hs)));
                    ("body", JBuffer (String.concat EmptyString kept))] in
            match log "logInfo" with
            | None => (wrote true, Some entry, Resolves)
            | Some _ =>
                match log "logWarn" with
                | Some e => (wrote true, Some entry, Uncaught e)
                | None => (wrote true, Some entry, Resolves)
                end
            end
          else (wrote true, None, Resolves)
      | (_, None) => (wrote true, None, Resolves)
      end
    else
      match log "logError" with
      | Some e => (wrote false, None, Uncaught e)
      | None => (wrote true, None, Resolves)
      end
  else (wrote body_ok, None, Resolves).

(** The retry loop of [streamToResponse] with the statements after it;
    the third component tells what to put into the cache. *)
Fixpoint stream_loop (n : nat) (url : string) (up : upstream) (o : options)
         (retries attempt : Z) (lastErr : error) (tr : list event) (res : response)
  : response * list event * option jsval * ending :=
  let final_failure :=
    match log "logError" with
    | Some e => (res, tr, None, Rejects e)
    | None => (send 502 "Failed to fetch resource" res, tr, None, Resolves)
    end in
  match n with
  | O => final_failure
  | S n' =>
      if (attempt <=? retries)%Z then
        let attempt := (attempt + 1)%Z in
        let tr := tr ++ [EFetch attempt] in
        match up attempt with
        | Resolved status _ hs chunks body_ok =>
            if negb (ok status) then
              if (status >=? 500)%Z && (attempt <=? retries)%Z then
                stream_loop n' url up o retries attempt
                            (Err ("Failed to fetch " +:+ url +:+ " - " +:+ Z_to_string status))
                            (tr ++ [ESleep (BACKOFF_BASE * attempt)]) res
              else
                (send status ("Upstream error: " +:+ Z_to_string status) res, tr, None,
                 Resolves)
            else
              let res1 :=
                {| statusCode := statusCode res;
                   resHeaders := resHeaders res ++ allowed_headers hs;
                   written := written res; ended := ended res |} in
              let '(res2, v, e) := stream_body o hs chunks body_ok res1 in
              (res2, tr, v, e)
        | Rejected message =>
            match log "logWarn" with
            | Some e => (res, tr, None, Rejects e)
            | None =>
                if (attempt <=? retries)%Z
                then stream_loop n' url up o retries attempt (Err message)
                                 (tr ++ [ESleep (BACKOFF_BASE * attempt)]) res
                else stream_loop n' url up o retries attempt (Err message) tr res
            end
        end
      else final_failure
  end.

(** [streamToResponse(url, res, opts)] at time [now] against the cache.
    On a hit the try block calls [logger.logInfo] before it writes
    anything, and the catch clause around it calls [logger.logWarn]; were
    both to return, the call would go on to the loop. *)
Definition streamToResponse (url : string) (res : response) (o : options) (up : upstream)
           (now : Z) (c : Cache.state) : response * list event * Cache.state * ending :=
  if negb (isValidUrl url) then (send 400 "Invalid URL" res, [], c, Resolves)
  else
    let key := cacheKeyFor url "stream" in
    let (cached, c1) := if useCache o then cache_get key now c else (JNull, c) in
    let fetched :=
      match stream_loop (Z.to_nat (retries_of o + 1)) url up o (retries_of o) 0 Undef [] res
      with
      | (res1, tr, Some v, e) => (res1, tr, (cache_set key v (ttl_ms o) now true c1).2, e)
      | (res1, tr, None, e) => (res1, tr, c1, e)
      end in
    if useCache o && truthy cached && truthy (field "body" cached) then
      match log "logInfo" with
      | None =>
          ({| statusCode := statusCode res;
              resHeaders :=
                resHeaders res ++
                match field "headers" cached with
                | JObj hs => flat_map (fun kv => match kv.2 with
                                                 | JStr v => [(kv.1, v)]
                                                 | _ => []
                                                 end) hs
                | _ => []
                end;
              written :=
                written res ++
                [match field "body" cached with
                 | JBuffer b => b
                 | JStr t => t
                 | _ => EmptyString
                 end];
              ended := true |}, [], c1, Resolves)
      | Some _ =>
          match log "logWarn" with
          | Some e => (res, [], c1, Rejects e)
          | None => fetched
          end
      end
    else fetched.

(** The number of calls of [fetch] in a trace. *)
Definition attempts (tr : list event) : nat :=
  List.length (List.filter (fun e => match e with EFetch _ => true | ESleep _ => false end) tr).

End Fetch.

(** ** Descriptions of a run of the retry loops *)

(** The calls of [fetch] and the waits of [n] attempts in a row: the
    i-th attempt, when it is not the last one, is followed by a wait of
    [BACKOFF_BASE * i] milliseconds. *)
Fixpoint schedule (n : nat) : list event :=
  match n with
  | O => []
  | S m =>
      match m with
      | O => [EFetch 1]
      | S _ => schedule m ++ [ESleep (BACKOFF_BASE * Z.of_nat m); EFetch (Z.of_nat (S m))]
      end
  end.

(** The trace at the head of the loop when [a] attempts were made and
    each was followed by its wait. *)
Definition open_trace (a : nat) : list event :=
  match a with
  | O => []
  | S _ => schedule a ++ [ESleep (BACKOFF_BASE * Z.of_nat a)]
  end.

(** The attempt gives [fetchText] its result: a 2xx answer whose body
    is read to the end. *)
Definition good (o : outcome) : bool :=
  match o with
  | Resolved status _ _ _ body_ok => ok status && body_ok
  | Rejected _ => false
  end.

Definition body_text (o : outcome) : string :=
  match o with
  | Resolved _ _ _ chunks _ => String.concat EmptyString chunks
  | Rejected _ => EmptyString
  end.

(** The attempt is answered with a status of 500 or above: the answer
    after which both loops wait and try again, when it is not the last
    attempt. *)
Definition retryable (o : outcome) : bool :=
  match o with
  | Resolved status _ _ _ _ => negb (ok status) && (status >=? 500)%Z
  | Rejected _ => false
  end.

(** The length of a body in bytes. *)
Definition total (chunks : list string) : Z :=
  Z.of_nat (String.length (String.concat EmptyString chunks)).

(** [opts.maxCacheCaptureBytes || 1024 * 1024] *)
Definition capture_limit (o : options) : Z :=
  if (maxCacheCaptureBytes o =? 0)%Z then (1024 * 1024)%Z else maxCacheCaptureBytes o.

(** What [streamToResponse] hands to the cache after a 2xx answer. *)
Definition captured (o : options) (hs : list (string * string)) (chunks : list string)
           (body_ok : bool) : option jsval :=
  if useCache o then
    match capture (capture_limit o) chunks [] (Some 0%Z) with
    | (kept, Some len) =>
        if body_ok && (0 <? len)%Z then
          Some (JObj [("headers", JObj (map (fun kv => (kv.1, JStr kv.2)) (allowed_headers hs)));
                      ("body", JBuffer (String.concat EmptyString kept))])
        else None
    | (_, None) => None
    end
  else None.

End Fetcher.

(* ===================================================================== *)
(** * Concrete runs *)
(* ===================================================================== *)

Module Runs.
Import Str Js.

(** An injective stand-in for the SHA-256 digest in concrete runs. *)
Definition digest (k : string) : string := "sha-" +:+ k.

(** An upstream that answers 404 to every attempt. *)
Definition always_404 : Fetcher.upstream :=
  fun _ => Fetcher.Resolved 404 "Not Found" [] [] true.

(** An upstream that answers 503 to every attempt, and one that resets
    every connection. *)
Definition always_503 : Fetcher.upstream :=
  fun _ => Fetcher.Resolved 503 "Service Unavailable" [] [] true.
Definition always_reset : Fetcher.upstream :=
  fun _ => Fetcher.Rejected "ECONNRESET".

(** A chain of three style sheets without a cycle:
    a.css imports d/b.css, which imports a.css of its own folder, that
    is d/a.css, which imports nothing. *)
Definition sheet_a : string := "@import 'd/b.css';".
Definition sheet_b : string := "@import 'a.css';".
Definition sheet_c : string := "p{color:red}".

Definition chain (url : string) : option string :=
  if String.eqb url "https://h.test/a.css" then Some sheet_a
  else if String.eqb url "https://h.test/d/b.css" then Some sheet_b
  else if String.eqb url "https://h.test/d/a.css" then Some sheet_c
  else None.

(** The same chain with absolute addresses in the import statements. *)
Definition chain_abs (url : string) : option string :=
  if String.eqb url "https://h.test/a.css" then Some "@import 'https://h.test/b.css';"
  else if String.eqb url "https://h.test/b.css"
  then Some "x{} @import 'https://h.test/c.css'; y{}"
  else if String.eqb url "https://h.test/c.css" then Some "p{color:red}"
  else None.

(** The address of the first sheet. *)
Definition base_a : string := "https://h.test/a.css".

(** The imports of a style sheet, each resolved against the sheet's own
    address. *)
Definition imports_of (css url : string) : list string :=
  (fix go (n : nat) (li : nat) : list string :=
     match n with
     | O => []
     | S n' =>
         match Regex.exec CssParser.IMPORT_REGEX css li with
         | (Some (_, f), li') =>
             Rewrite.safeResolve (Regex.group_str 1 f) url :: go n' li'
         | (None, _) => []
         end
     end) (String.length css) 0%nat.

(** Three entries of one byte each that never expire. *)
Definition three_entries : Cache.state :=
  {| Cache.cacheMap := [("a", Cache.Entry (JStr "x") 1 None);
                        ("b", Cache.Entry (JStr "y") 1 None);
                        ("c", Cache.Entry (JStr "z") 1 None)];
     Cache.currentBytes := 3; Cache.disk := ∅ |}.

(** An entry that expires at time 50 between two that expire at 200. *)
Definition mixed_entries : Cache.state :=
  {| Cache.cacheMap := [("a", Cache.Entry (JStr "x") 1 (Some 200%Z));
                        ("b", Cache.Entry (JStr "y") 1 (Some 50%Z));
                        ("c", Cache.Entry (JStr "z") 1 (Some 200%Z))];
     Cache.currentBytes := 3; Cache.disk := ∅ |}.

(** An upstream that answers 503 twice and then 200 with a body. *)
Definition flaky : Fetcher.upstream :=
  fun n => if (n <=? 2)%Z then Fetcher.Resolved 503 "Service Unavailable" [] [] true
           else Fetcher.Resolved 200 "OK" [] ["hel"; "lo"] true.

(** An upstream that answers 503 once and resets the connection
    afterwards. *)
Definition reset_after_503 : Fetcher.upstream :=
  fun n => if (n <=? 1)%Z then Fetcher.Resolved 503 "Service Unavailable" [] [] true
           else Fetcher.Rejected "ECONNRESET".

(** An upstream that answers 200 with two headers and a body in two chunks. *)
Definition page : Fetcher.upstream :=
  fun _ => Fetcher.Resolved 200 "OK"
             [("content-type", "text/html"); ("set-cookie", "id=1")] ["ab"; "c"] true.

(** Request headers with a credential and with a value that carries a
    line break. *)
Definition sample_headers : list (string * string) :=
  [("Accept", "text/html"); ("Cookie", "sid=1");
   ("ACCEPT", "a/b" +:+ String (Str.chr 13) (String (Str.chr 10) "Set-Cookie: x=1"))].

End Runs.

(* ===================================================================== *)
(** * Properties *)
(* ===================================================================== *)

Module Bytes.
Import Str.

Lemma all_bytes_complete (c : ascii) : In c all_bytes.
Proof.
  unfold all_bytes. rewrite <- (ascii_nat_embedding c).
  apply in_map. apply in_seq. pose proof (nat_ascii_bounded c). lia.
Qed.

Lemma for_all_bytes (P : ascii -> bool) :
  forallb P all_bytes = true -> forall c, P c = true.
Proof. intros H c. exact (proj1 (forallb_forall P all_bytes) H c (all_bytes_complete c)). Qed.

End Bytes.

(* --------------------------------------------------------------------- *)
(** ** URI component coding *)

Module UriFacts.
Import Str Uri Bytes.

Lemma hex_byte_escape c :
  hex_byte (hexdigit (code c / 16)) (hexdigit (code c mod 16)) = Some c.
Proof.
  pose proof (for_all_bytes (fun c => match hex_byte (hexdigit (code c / 16)) (hexdigit (code c mod 16)) with
                        | Some d => Ascii.eqb d c | None => false end) ltac:(vm_compute; reflexivity) c) as H.
  cbv beta in H. destruct (hex_byte _ _); [|discriminate].
  apply Ascii.eqb_eq in H. congruence.
Qed.

Lemma unreserved_not_percent c : unreserved c = true -> Ascii.eqb c "%" = false.
Proof.
  intros H.
  pose proof (for_all_bytes (fun c => implb (unreserved c) (negb (Ascii.eqb c "%"))) ltac:(vm_compute; reflexivity) c) as G.
  cbv beta in G. rewrite H in G. simpl in G. apply negb_true_iff in G. exact G.
Qed.

Lemma high_not_unreserved c : (code c <? 128)%nat = false -> unreserved c = false.
Proof.
  intros H.
  pose proof (for_all_bytes (fun c => (code c <? 128)%nat || negb (unreserved c)) ltac:(vm_compute; reflexivity) c) as G.
  cbv beta in G. rewrite H in G. simpl in G. apply negb_true_iff in G. exact G.
Qed.

Lemma cont_high c : is_cont c = true -> (code c <? 128)%nat = false.
Proof.
  intros H.
  pose proof (for_all_bytes (fun c => implb (is_cont c) (negb (code c <? 128)%nat)) ltac:(vm_compute; reflexivity) c) as G.
  cbv beta in G. rewrite H in G. simpl in G. apply negb_true_iff in G. exact G.
Qed.

Ltac bool_to_prop :=
  repeat match goal with
         | H : _ && _ = true |- _ => apply andb_true_iff in H; destruct H
         | H : _ || _ = true |- _ => apply orb_true_iff in H; destruct H
         | H : (_ <=? _)%nat = true |- _ => apply Nat.leb_le in H
         | H : (_ =? _)%nat = true |- _ => apply Nat.eqb_eq in H
         end.

Lemma lead_is_range n lo hi a :
  (128 <= lo)%nat ->
  (match n with
   | 2 => 192 <= lo /\ hi < 224
   | 3 => 224 <= lo /\ hi < 240
   | 4 => 240 <= lo /\ hi < 248
   | _ => False
   end)%nat ->
  (lo <= code a <= hi)%nat -> lead_is n a = true.
Proof.
  intros Hlo Hn Ha. unfold lead_is, lead_ones.
  apply andb_true_iff. split.
  - repeat match goal with |- context [(?x <? ?y)%nat] =>
      destruct (Nat.ltb_spec x y) end;
    destruct n as [|[|[|[|[|?]]]]]; try reflexivity; lia.
  - apply negb_true_iff. apply Nat.ltb_ge. lia.
Qed.

Lemma cont_range c lo hi :
  (128 <= lo)%nat -> (hi <= 191)%nat -> (lo <= code c <= hi)%nat -> is_cont c = true.
Proof.
  intros. unfold is_cont, between. apply andb_true_iff.
  split; apply Nat.leb_le; lia.
Qed.

Lemma valid2 a b : valid_seq [a; b] = true -> lead_is 2 a = true /\ is_cont b = true.
Proof.
  unfold valid_seq, between. intros H. bool_to_prop. split; [|assumption].
  apply (lead_is_range 2 194 223); lia.
Qed.

Lemma valid3 a b c :
  valid_seq [a; b; c] = true -> lead_is 3 a = true /\ is_cont b = true /\ is_cont c = true.
Proof.
  unfold valid_seq. intros H. unfold between in H. bool_to_prop;
    (split; [apply (lead_is_range 3 224 239); lia|]);
    (split; [|assumption]);
    try assumption; apply (cont_range b 128 191); lia.
Qed.

Lemma valid4 a b c d :
  valid_seq [a; b; c; d] = true ->
  lead_is 4 a = true /\ is_cont b = true /\ is_cont c = true /\ is_cont d = true.
Proof.
  unfold valid_seq. intros H. unfold between in H. bool_to_prop;
    (split; [apply (lead_is_range 4 240 244); lia|]);
    (split; [|split; assumption]);
    try assumption; apply (cont_range b 128 191); lia.
Qed.

Lemma append_one c t : String c EmptyString +:+ t = String c t.
Proof. reflexivity. Qed.

Lemma append_escape c t :
  escape c +:+ t
  = String "%" (String (hexdigit (code c / 16)) (String (hexdigit (code c mod 16)) t)).
Proof. reflexivity. Qed.

Lemma encode_cons c t :
  encodeURIComponent (String c t)
  = (if unreserved c then String c EmptyString else escape c) +:+ encodeURIComponent t.
Proof. reflexivity. Qed.

Lemma encode_high c t :
  (code c <? 128)%nat = false ->
  encodeURIComponent (String c t)
  = String "%" (String (hexdigit (code c / 16)) (String (hexdigit (code c mod 16))
      (encodeURIComponent t))).
Proof. intros H. rewrite encode_cons, (high_not_unreserved c H). apply append_escape. Qed.

Lemma decode_plain c t :
  Ascii.eqb c "%" = false -> decode [] 0 (String c t) = opt_map (String c) (decode [] 0 t).
Proof. intros H. cbn [decode]. rewrite H. reflexivity. Qed.

Lemma decode_first c t :
  decode [] 0 (String "%" (String (hexdigit (code c / 16)) (String (hexdigit (code c mod 16)) t)))
  = if (code c <? 128)%nat then opt_map (String c) (decode [] 0 t)
    else match lead_ones c with
         | 2 => decode [c] 1 t
         | 3 => decode [c] 2 t
         | 4 => decode [c] 3 t
         | _ => None
         end.
Proof. cbn [decode]. rewrite hex_byte_escape. reflexivity. Qed.

Lemma decode_next pend need c t :
  is_cont c = true ->
  decode pend (S need)
         (String "%" (String (hexdigit (code c / 16)) (String (hexdigit (code c mod 16)) t)))
  = match need with
    | O => if valid_seq (pend ++ [c]) then opt_map (prepend (pend ++ [c])) (decode [] 0 t)
           else None
    | S _ => decode (pend ++ [c]) need t
    end.
Proof. intros H. cbn [decode]. rewrite hex_byte_escape, H. reflexivity. Qed.

Lemma lead_is_eq n a : lead_is n a = true -> lead_ones a = n /\ (code a <? 128)%nat = false.
Proof.
  unfold lead_is. intros H. apply andb_true_iff in H as [H1 H2].
  apply Nat.eqb_eq in H1. apply negb_true_iff in H2. auto.
Qed.

Lemma decode_encode_fuel (n : nat) : forall s,
  (String.length s <= n)%nat -> utf8_valid s = true ->
  decodeURIComponent (encodeURIComponent s) = Some s.
Proof.
  unfold decodeURIComponent.
  induction n as [|n IH]; intros s Hlen Hv.
  - destruct s; [reflexivity|simpl in Hlen; lia].
  - destruct s as [|a t]; [reflexivity|].
    cbn [utf8_valid] in Hv. cbn [String.length] in Hlen.
    destruct (code a <? 128)%nat eqn:Ha.
    + assert (IHt : decode [] 0 (encodeURIComponent t) = Some t) by (apply IH; [lia|exact Hv]).
      rewrite encode_cons. destruct (unreserved a) eqn:U.
      * rewrite append_one. rewrite decode_plain by (apply unreserved_not_percent; exact U).
        rewrite IHt. reflexivity.
      * rewrite append_escape, decode_first, Ha, IHt. reflexivity.
    + destruct t as [|b t1]; [discriminate|].
      destruct (valid_seq [a; b]) eqn:V2.
      { destruct (valid2 a b V2) as [La Cb]. apply lead_is_eq in La as [La _].
        rewrite (encode_high a _ Ha), (encode_high b _ (cont_high b Cb)).
        rewrite decode_first, Ha, La, (decode_next _ _ _ _ Cb).
        cbn [app]. rewrite V2. rewrite IH; [reflexivity|cbn [String.length] in Hlen; lia|exact Hv]. }
      destruct t1 as [|c t2]; [discriminate|].
      destruct (valid_seq [a; b; c]) eqn:V3.
      { destruct (valid3 a b c V3) as (La & Cb & Cc). apply lead_is_eq in La as [La _].
        rewrite (encode_high a _ Ha), (encode_high b _ (cont_high b Cb)),
          (encode_high c _ (cont_high c Cc)).
        rewrite decode_first, Ha, La, (decode_next _ _ _ _ Cb), (decode_next _ _ _ _ Cc).
        cbn [app]. rewrite V3. rewrite IH; [reflexivity|cbn [String.length] in Hlen; lia|exact Hv]. }
      destruct t2 as [|d t3]; [discriminate|].
      apply andb_true_iff in Hv as [V4 Hv].
      destruct (valid4 a b c d V4) as (La & Cb & Cc & Cd). apply lead_is_eq in La as [La _].
      rewrite (encode_high a _ Ha), (encode_high b _ (cont_high b Cb)),
        (encode_high c _ (cont_high c Cc)), (encode_high d _ (cont_high d Cd)).
      rewrite decode_first, Ha, La, (decode_next _ _ _ _ Cb), (decode_next _ _ _ _ Cc),
        (decode_next _ _ _ _ Cd).
      cbn [app]. rewrite V4. rewrite IH; [reflexivity|cbn [String.length] in Hlen; lia|exact Hv].
Qed.

Lemma decode_encode s :
  utf8_valid s = true -> decodeURIComponent (encodeURIComponent s) = Some s.
Proof. apply (decode_encode_fuel (String.length s)). lia. Qed.

End UriFacts.

(* --------------------------------------------------------------------- *)
(** ** Patterns that cannot match *)

Module RegexFacts.
Import Str Regex Bytes.

Section Stuck.

(** A property of the text still to read that reading preserves. *)
Variable Q : string -> Prop.
Hypothesis Q_tail : forall a t, Q (String a t) -> Q t.

Lemma read_string_Q icase t : forall p s p' s',
  read_string icase t p s = Some (p', s') -> Q s -> Q s'.
Proof.
  induction t as [|a t IH]; intros p s p' s' H HQ; simpl in H.
  - injection H as _ <-. exact HQ.
  - destruct s as [|b s0]; [discriminate|].
    destruct (ceq icase a b); [|discriminate].
    apply (IH _ _ _ _ H). apply (Q_tail b). exact HQ.
Qed.

Lemma star_loop_stuck greedy (body : matcher) (k : cont) :
  (forall x k', Q (rest x) -> (forall y, Q (rest y) -> k' y = None) -> body x k' = None) ->
  (forall y, Q (rest y) -> k y = None) ->
  forall n x, Q (rest x) -> star_loop greedy body n x k = None.
Proof.
  intros Hbody Hk. induction n as [|n IH]; intros x Hx; cbn [star_loop].
  - apply Hk. exact Hx.
  - assert (B : body x (fun y => if progressed x y then star_loop greedy body n y k else None)
                = None).
    { apply Hbody; [exact Hx|]. intros y Hy. destruct (progressed x y); [|reflexivity].
      apply IH. exact Hy. }
    rewrite B, (Hk x Hx). destruct greedy; reflexivity.
Qed.

(** If the continuation fails wherever [Q] holds, so does the matcher
    followed by it. *)
Lemma compile_stuck icase r : forall x k,
  Q (rest x) -> (forall y, Q (rest y) -> k y = None) -> compile icase r x k = None.
Proof.
  induction r; intros x k Hx Hk; cbn [compile].
  - apply Hk. exact Hx.
  - destruct (rest x) as [|a t] eqn:E; [reflexivity|].
    destruct (ceq icase c a); [|reflexivity].
    apply Hk. cbn. apply (Q_tail a). exact Hx.
  - destruct (rest x) as [|a t] eqn:E; [reflexivity|].
    destruct (in_cls icase negated items a); [|reflexivity].
    apply Hk. cbn. apply (Q_tail a). exact Hx.
  - apply IHr1; [exact Hx|]. intros y Hy. apply IHr2; assumption.
  - rewrite IHr1 by assumption. apply IHr2; assumption.
  - apply star_loop_stuck; assumption.
  - assert (B : compile icase r x (fun y => if progressed x y then k y else None) = None).
    { apply IHr; [exact Hx|]. intros y Hy. destruct (progressed x y); [|reflexivity].
      apply Hk. exact Hy. }
    rewrite B, (Hk x Hx). destruct greedy; reflexivity.
  - apply IHr; [exact Hx|]. intros y Hy. apply Hk. exact Hy.
  - destruct (get_cap n (caps x)) as [t|]; [|apply Hk; exact Hx].
    destruct (read_string icase t (prev x) (rest x)) as [[p s]|] eqn:R; [|reflexivity].
    apply Hk. cbn. apply (read_string_Q _ _ _ _ _ _ R). exact Hx.
  - destruct (prev x); [reflexivity|]. apply Hk. exact Hx.
  - destruct (xorb _ _); [|reflexivity]. apply Hk. exact Hx.
Qed.

(** A pattern that cannot match where [Q] holds leaves such a text
    unchanged under a global replace. *)
Lemma replace_loop_stuck re fn :
  (forall p s, Q s -> match_at re p s = None) ->
  forall n p s, Q s -> replace_loop re fn n p s = s.
Proof.
  intros Hre. induction n as [|n IH]; intros p s Hs.
  - cbn [replace_loop]. rewrite (Hre p s Hs). destruct s; reflexivity.
  - cbn [replace_loop]. rewrite (Hre p s Hs). destruct s as [|c t]; [reflexivity|].
    f_equal. apply IH. apply (Q_tail c). exact Hs.
Qed.

End Stuck.

Lemma lacks_tail c a t : lacks c (String a t) = true -> lacks c t = true.
Proof. simpl. intros H. apply andb_true_iff in H. tauto. Qed.

(** A pattern that ends in a character that the text lacks cannot match. *)
Lemma needs_last_char icase r c p s :
  (forall a, ceq icase c a = Ascii.eqb a c) ->
  lacks c s = true ->
  match_at (RegExp (Seq r (Chr c)) icase) p s = None.
Proof.
  intros Hc Hs. unfold match_at. cbn [pattern ignoreCase compile].
  rewrite (compile_stuck (fun t => lacks c t = true) (lacks_tail c)); [reflexivity|exact Hs|].
  intros y Hy. destruct (rest y) as [|a t]; [reflexivity|].
  simpl in Hy. apply andb_true_iff in Hy as [Hy _]. apply negb_true_iff in Hy.
  rewrite Hc, Hy. reflexivity.
Qed.

(** A pattern that starts with a character that the text lacks cannot
    match. *)
Lemma needs_first_char icase r c p s :
  (forall a, ceq icase c a = Ascii.eqb a c) ->
  lacks c s = true ->
  match_at (RegExp (Seq (Chr c) r) icase) p s = None.
Proof.
  intros Hc Hs. unfold match_at. cbn [pattern ignoreCase compile rest].
  destruct s as [|a t]; [reflexivity|].
  simpl in Hs. apply andb_true_iff in Hs as [Hs _]. apply negb_true_iff in Hs.
  rewrite Hc, Hs. reflexivity.
Qed.


End RegexFacts.

(* --------------------------------------------------------------------- *)
(** ** The runtime model on known cases *)

Module RuntimeChecks.
Import Str Regex Uri Js.

Definition href_of (input : string) (base : option string) : option string :=
  Url.href <$> Url.construct input base.

Example url_lowercases_and_drops_default_port :
  href_of "HTTP://LocalHost:80/x?a=b c#f g" None = Some "http://localhost/x?a=b%20c#f%20g"
  /\ href_of "https://example.com:443" None = Some "https://example.com/"
  /\ href_of "http://example.com:443/" None = Some "http://example.com:443/".
Proof. vm_compute. repeat split. Qed.

Example url_ipv4_numbers :
  href_of "http://2130706433/" None = Some "http://127.0.0.1/"
  /\ href_of "http://0x7f.1/" None = Some "http://127.0.0.1/"
  /\ href_of "http://1.2.3.4.5/" None = None.
Proof. vm_compute. repeat split. Qed.

Example url_ipv6 :
  href_of "http://[0:0:0:0:0:0:0:1]:8080/" None = Some "http://[::1]:8080/"
  /\ href_of "http://[1:0:0:2::3]/" None = Some "http://[1:0:0:2::3]/"
  /\ href_of "http://[::1/" None = None.
Proof. vm_compute. repeat split. Qed.

Example url_relative :
  href_of "/a.png" (Some "https://site.test/page") = Some "https://site.test/a.png"
  /\ href_of "../x/./y/..?q" (Some "https://h/a/b/c") = Some "https://h/a/x/?q"
  /\ href_of "//o.test/z" (Some "https://h/a/b/c") = Some "https://o.test/z"
  /\ href_of "#top" (Some "https://h/a?x#y") = Some "https://h/a?x#top"
  /\ href_of "x" None = None.
Proof. vm_compute. repeat split. Qed.

Example url_rejects_bad_hosts :
  href_of "http://a b/" None = None /\ href_of "http://" None = None
  /\ href_of "http://h:99999/" None = None.
Proof. vm_compute. repeat split. Qed.

Example regexp_flags_and_anchors :
  test Sanitize.re_http "HTTPS://x" = true
  /\ test Sanitize.re_http " http://x" = false
  /\ test Sanitize.re_injection "a JavaScript:b" = true
  /\ test Sanitize.re_injection "plain" = false.
Proof. vm_compute. repeat split. Qed.

Example regexp_backreference :
  replace_all (Rewrite.re_attr "src") (fun f => "[" +:+ group_str 2 f +:+ "]")
              ("<img src='a.png' data-src=" +:+ DQ +:+ "b" +:+ DQ +:+ " src='c" +:+ DQ +:+ ">")
  = "<img [a.png] data-[b] src='c" +:+ DQ +:+ ">".
Proof. vm_compute. reflexivity. Qed.

Example json_stringify :
  stringify (JObj [("a", JStr ("x" +:+ DQ +:+ "y")); ("u", JUndefined);
                   ("l", JArr [JNum (-5); JUndefined; JBool true; JNull]);
                   ("b", JBuffer "AB")])
  = Some ("{" +:+ quote "a" +:+ ":" +:+ DQ +:+ "x\" +:+ DQ +:+ "y" +:+ DQ +:+ "," +:+
          quote "l" +:+ ":[-5,null,true,null]," +:+
          quote "b" +:+ ":{" +:+ quote "type" +:+ ":" +:+ quote "Buffer" +:+ "," +:+
          quote "data" +:+ ":[65,66]}}").
Proof. vm_compute. reflexivity. Qed.

End RuntimeChecks.

(* --------------------------------------------------------------------- *)
(** ** The validators *)

Module ValidatorFacts.
Import Str Validator.

(** [isBlockedHostname] of config.js follows the rule of exact or prefix
    match: a host name is blocked when it is empty or an entry of the
    list is a prefix of its lower-case form. *)
Lemma isBlockedHostname_prefix (hostname b : string) :
  In b Config.blockedHostnames ->
  String.prefix b (toLowerCase hostname) = true ->
  Config.isBlockedHostname hostname = true.
Proof.
  intros Hb Hp. unfold Config.isBlockedHostname.
  destruct (negb (truthy hostname)); [reflexivity|].
  apply existsb_exists. exists b. split; [exact Hb|].
  assert (Hl : toLowerCase b = b).
  { simpl in Hb. repeat destruct Hb as [<- | Hb]; try reflexivity. destruct Hb. }
  assert (Ht : truthy b = true).
  { simpl in Hb. repeat destruct Hb as [<- | Hb]; try reflexivity. destruct Hb. }
  rewrite Ht, Hl. cbn [negb]. unfold startsWith. rewrite Hp. apply orb_true_r.
Qed.

(** C1 (the code at the failing input): [validateUrl] rejects
    http://127.0.0.1/x and http://localhost/x as blacklisted hosts and
    accepts http://example.com, but it accepts http://[::1]/x: the host
    name of that URL is [::1] with its brackets, which no entry of the
    list equals.  [sanitizeURL] and [isBlockedHostname] let the same host
    through, and [validateUrl] also accepts http://0.0.0.0/. *)
Theorem validateUrl_misses_ipv6_loopback :
  validateUrl "http://127.0.0.1/x" = Validation false (Some "Host is blacklisted")
  /\ validateUrl "http://localhost/x" = Validation false (Some "Host is blacklisted")
  /\ validateUrl "http://example.com" = Validation true None
  /\ validateUrl "http://[::1]/x" = Validation true None
  /\ Url.hostname <$> Url.construct "http://[::1]/x" None = Some "[::1]"
  /\ Sanitize.sanitizeURL "http://[::1]/x" = Some "http://[::1]/x"
  /\ Config.isBlockedHostname "[::1]" = false
  /\ validateUrl "http://0.0.0.0/" = Validation true None.
Proof. vm_compute. repeat split. Qed.

End ValidatorFacts.

Module SanitizeFacts.
Import Str Regex Sanitize.

(** C7 (the code at the failing input): two neighbouring parameters
    with injection values.  Deleting the first one inside [forEach]
    shifts the second one to the index already visited, so it is never
    tested: the URL returned still carries b with the value <y>, which
    matches the pattern. *)
Theorem sanitizeURL_keeps_injection :
  sanitizeURL "https://example.com/?a=<x>&b=<y>" = Some "https://example.com/?b=%3Cy%3E"
  /\ Url.searchParams <$> Url.construct "https://example.com/?b=%3Cy%3E" None
     = Some [("b", "<y>")]
  /\ test re_injection "<y>" = true.
Proof. vm_compute. repeat split. Qed.

End SanitizeFacts.

(* --------------------------------------------------------------------- *)
(** ** The rewrite engine *)

Module RewriteFacts.
Import Str Regex Uri Rewrite Bytes RegexFacts.









End RewriteFacts.

(* --------------------------------------------------------------------- *)
(** ** Import inlining *)

Module CssParserFacts.
Import Str Regex Rewrite CssParser Runs.

Lemma inlineImports_S fetcherFn fuel li css baseUrl :
  inlineImports fetcherFn (S fuel) li css baseUrl =
  if negb (Str.truthy css) then Some (css, li)
  else
    match exec IMPORT_REGEX css li with
    | (None, li') => Some (css, li')
    | (Some (_, f), li') =>
        match fetcherFn (safeResolve (group_str 1 f) baseUrl) with
        | Some importedCss =>
            match inlineImports fetcherFn fuel li' importedCss
                                (safeResolve (group_str 1 f) baseUrl) with
            | Some (cleaned, li'') =>
                inlineImports fetcherFn fuel li'' (replace_str (m0 f) cleaned css) baseUrl
            | None => None
            end
        | None => inlineImports fetcherFn fuel li' (replace_str (m0 f) EmptyString css) baseUrl
        end
    end.
Proof. reflexivity. Qed.

(** The nested call on d/b.css starts behind the end of the text. *)
Lemma inner_b fuel :
  inlineImports chain fuel 18 sheet_b "https://h.test/d/b.css"
  = match fuel with O => None | S _ => Some (sheet_b, 0%nat) end.
Proof. destruct fuel; [reflexivity|]. rewrite inlineImports_S. vm_compute. reflexivity. Qed.

Lemma inner_a fuel :
  inlineImports chain fuel 16 sheet_a base_a
  = match fuel with O => None | S _ => Some (sheet_a, 0%nat) end.
Proof. destruct fuel; [reflexivity|]. rewrite inlineImports_S. vm_compute. reflexivity. Qed.

Lemma turn_a fuel :
  inlineImports chain (S fuel) 0 sheet_a base_a
  = match fuel with O => None | S _ => inlineImports chain fuel 0 sheet_b base_a end.
Proof.
  rewrite inlineImports_S.
  change (negb (Str.truthy sheet_a)) with false. cbv iota.
  set (e := exec IMPORT_REGEX sheet_a 0). vm_compute in (value of e). subst e. cbv iota beta.
  set (u := safeResolve _ _). vm_compute in (value of u). subst u.
  set (c := chain _). vm_compute in (value of c). subst c. cbv iota beta.
  change (inlineImports chain fuel 18 "@import 'a.css';" "https://h.test/d/b.css")
    with (inlineImports chain fuel 18 sheet_b "https://h.test/d/b.css").
  rewrite inner_b. destruct fuel; [reflexivity|]. cbv iota beta.
  set (r := replace_str _ _ _). vm_compute in (value of r). subst r. reflexivity.
Qed.

Lemma turn_b fuel :
  inlineImports chain (S fuel) 0 sheet_b base_a
  = match fuel with O => None | S _ => inlineImports chain fuel 0 sheet_a base_a end.
Proof.
  rewrite inlineImports_S.
  change (negb (Str.truthy sheet_b)) with false. cbv iota.
  set (e := exec IMPORT_REGEX sheet_b 0). vm_compute in (value of e). subst e. cbv iota beta.
  set (u := safeResolve _ _). vm_compute in (value of u). subst u.
  set (c := chain _). vm_compute in (value of c). subst c. cbv iota beta.
  change (inlineImports chain fuel 16 "@import 'd/b.css';" "https://h.test/a.css")
    with (inlineImports chain fuel 16 sheet_a base_a).
  rewrite inner_a. destruct fuel; [reflexivity|]. cbv iota beta.
  set (r := replace_str _ _ _). vm_compute in (value of r). subst r. reflexivity.
Qed.

Lemma never_returns_both fuel :
  inlineImports chain fuel 0 sheet_a base_a = None
  /\ inlineImports chain fuel 0 sheet_b base_a = None.
Proof.
  induction fuel as [|fuel [IHa IHb]]; [split; reflexivity|].
  rewrite turn_a, turn_b. destruct fuel; auto.
Qed.

(** With absolute addresses the nested import is likewise missed by the
    nested call and found by the outer loop, where it resolves to the
    same address: the call returns the inlined text. *)
Lemma inlineImports_absolute_chain :
  inlineImports chain_abs 4 0 "@import 'https://h.test/a.css'; z{}" "https://h.test/"
  = Some ("x{} p{color:red} y{} z{}", 0%nat).
Proof. vm_compute. reflexivity. Qed.

(** C8 (the code at the failing input): the three sheets of [chain]
    form an import chain of depth 3 without a cycle, yet
    [inlineImports] does not return on it, whatever the fuel.  The
    nested call starts at the [lastIndex] the outer match left in the
    shared pattern, which is behind the import of the nested sheet; that
    import is then found by the outer loop and resolved against the outer
    address, which leads back to the first sheet. *)
Theorem inlineImports_never_returns :
  imports_of sheet_a "https://h.test/a.css" = ["https://h.test/d/b.css"]
  /\ imports_of sheet_b "https://h.test/d/b.css" = ["https://h.test/d/a.css"]
  /\ imports_of sheet_c "https://h.test/d/a.css" = []
  /\ forall fuel : nat, inlineImports chain fuel 0 sheet_a base_a = None.
Proof.
  split; [vm_compute; reflexivity|]. split; [vm_compute; reflexivity|].
  split; [vm_compute; reflexivity|]. intros fuel. exact (proj1 (never_returns_both fuel)).
Qed.

End CssParserFacts.

(* --------------------------------------------------------------------- *)
(** ** The cache *)

Module CacheFacts.
Import Str Js Cache Runs.

Section Accounting.
Variable shaKey : string -> string.
Variables maxItems maxBytes : Z.

Local Abbreviation bounded := (Cache.bounded maxItems maxBytes).

Lemma estimateSize_nonneg v : (0 <= estimateSize v)%Z.
Proof.
  unfold estimateSize. destruct (negb (truthy v)); [lia|].
  destruct v; try destruct (stringify _); lia.
Qed.

Lemma map_has_get k m : map_has k m = match map_get k m with Some _ => true | None => false end.
Proof.
  induction m as [|[k' e] t IH]; simpl; [reflexivity|].
  destruct (String.eqb k' k); simpl; auto.
Qed.

Lemma map_delete_fresh k m : map_has k m = false -> map_delete k m = m.
Proof.
  induction m as [|[k' e] t IH]; simpl; [reflexivity|].
  intros H. apply orb_false_iff in H as [H1 H2]. rewrite H1. simpl. f_equal. auto.
Qed.

Lemma map_has_delete k m : map_has k (map_delete k m) = false.
Proof.
  induction m as [|[k' e] t IH]; simpl; [reflexivity|].
  destruct (String.eqb k' k) eqn:E; simpl; [assumption|]. rewrite E. assumption.
Qed.

Lemma map_has_delete_ne k k' m : String.eqb k' k = false ->
  map_has k' (map_delete k m) = map_has k' m.
Proof.
  intros Hne. induction m as [|[k0 e] t IH]; simpl; [reflexivity|].
  destruct (String.eqb k0 k) eqn:E; simpl.
  - apply String.eqb_eq in E. subst k0.
    rewrite String.eqb_sym, Hne. simpl. assumption.
  - rewrite IH. reflexivity.
Qed.

Lemma map_set_fresh k e m : map_has k m = false -> map_set k e m = m ++ [(k, e)].
Proof.
  induction m as [|[k' e'] t IH]; simpl; [reflexivity|].
  intros H. apply orb_false_iff in H as [H1 H2]. rewrite H1. f_equal. auto.
Qed.

Lemma map_has_app k m1 m2 : map_has k (m1 ++ m2) = map_has k m1 || map_has k m2.
Proof. unfold map_has. apply existsb_app. Qed.

Lemma nodup_keys_delete k m : nodup_keys m = true -> nodup_keys (map_delete k m) = true.
Proof.
  induction m as [|[k' e] t IH]; simpl; [reflexivity|].
  intros H. apply andb_true_iff in H as [H1 H2].
  destruct (String.eqb k' k) eqn:E; simpl; [auto|].
  apply andb_true_iff. split; [|auto].
  apply negb_true_iff. apply negb_true_iff in H1.
  destruct (String.eqb k k') eqn:E2.
  - apply String.eqb_eq in E2. subst. rewrite String.eqb_refl in E. discriminate.
  - change (map_has k' (map_delete k t) = false).
    rewrite map_has_delete_ne; [exact H1|]. rewrite String.eqb_sym. exact E2.
Qed.

Lemma nodup_keys_snoc k e m :
  nodup_keys m = true -> map_has k m = false -> nodup_keys (m ++ [(k, e)]) = true.
Proof.
  induction m as [|[k' e'] t IH]; simpl; [reflexivity|].
  intros H Hf. apply andb_true_iff in H as [H1 H2].
  apply orb_false_iff in Hf as [Hf1 Hf2].
  apply andb_true_iff. split; [|auto].
  apply negb_true_iff. apply negb_true_iff in H1.
  change (map_has k' (t ++ [(k, e)]) = false).
  rewrite map_has_app, H1. simpl. rewrite String.eqb_sym, Hf1. reflexivity.
Qed.

Lemma sum_sizes_cons p m : sum_sizes (p :: m) = (size p.2 + sum_sizes m)%Z.
Proof. reflexivity. Qed.

Lemma sum_sizes_app m1 m2 : sum_sizes (m1 ++ m2) = (sum_sizes m1 + sum_sizes m2)%Z.
Proof.
  induction m1 as [|p t IH]; [reflexivity|].
  change ((p :: t) ++ m2) with (p :: (t ++ m2)). rewrite !sum_sizes_cons, IH. lia.
Qed.

Lemma sum_sizes_delete k e m :
  nodup_keys m = true -> map_get k m = Some e ->
  sum_sizes (map_delete k m) = (sum_sizes m - size e)%Z.
Proof.
  induction m as [|[k' e'] t IH]; [discriminate|].
  rewrite sum_sizes_cons. cbn [nodup_keys map_get map_delete List.filter fst snd].
  intros H Hg. apply andb_true_iff in H as [H1 H2].
  fold (map_delete k t).
  destruct (String.eqb k' k) eqn:E; cbn [negb].
  - injection Hg as <-. apply String.eqb_eq in E. subst k'.
    apply negb_true_iff in H1. rewrite (map_delete_fresh k t H1). lia.
  - rewrite sum_sizes_cons, IH by assumption. simpl. lia.
Qed.

Lemma length_delete k e m :
  nodup_keys m = true -> map_get k m = Some e ->
  S (List.length (map_delete k m)) = List.length m.
Proof.
  induction m as [|[k' e'] t IH]; simpl; [discriminate|].
  intros H Hg. apply andb_true_iff in H as [H1 H2].
  destruct (String.eqb k' k) eqn:E; simpl.
  - apply String.eqb_eq in E. subst k'.
    apply negb_true_iff in H1. rewrite (map_delete_fresh k t H1). reflexivity.
  - f_equal. auto.
Qed.

Lemma nonneg_delete k m :
  nonneg m = true ->
  nonneg (map_delete k m) = true.
Proof.
  induction m as [|[k' e'] t IH]; simpl; [reflexivity|].
  intros H. apply andb_true_iff in H as [H1 H2].
  destruct (String.eqb k' k); simpl; [auto|]. rewrite H1. simpl. auto.
Qed.

Lemma consistent_iff s :
  consistent s = true <->
  nodup_keys (cacheMap s) = true /\ currentBytes s = sum_sizes (cacheMap s)
  /\ nonneg (cacheMap s) = true.
Proof.
  unfold consistent. rewrite !andb_true_iff, Z.eqb_eq. tauto.
Qed.


Lemma nonneg_app m1 m2 : nonneg (m1 ++ m2) = nonneg m1 && nonneg m2.
Proof. apply forallb_app. Qed.

Lemma map_get_app_fresh k e m :
  map_has k m = false -> map_get k (m ++ [(k, e)]) = Some e.
Proof.
  induction m as [|[k' e'] t IH]; simpl.
  - intros _. rewrite String.eqb_refl. reflexivity.
  - intros H. apply orb_false_iff in H as [H1 H2]. rewrite H1. auto.
Qed.

Lemma map_get_delete_ne k k' m : String.eqb k' k = false ->
  map_get k' (map_delete k m) = map_get k' m.
Proof.
  intros Hne. induction m as [|[k0 e] t IH]; simpl; [reflexivity|].
  destruct (String.eqb k0 k) eqn:E; simpl.
  - apply String.eqb_eq in E. subst k0. rewrite String.eqb_sym, Hne. assumption.
  - rewrite IH. reflexivity.
Qed.

(** One turn of the eviction loop on a list with a head. *)
Lemma evict_loop_head n k e t b :
  nodup_keys ((k, e) :: t) = true ->
  evict_loop maxItems maxBytes (S n) ((k, e) :: t) b =
  if (Z.of_nat (S (List.length t)) >? maxItems)%Z || (b >? maxBytes)%Z
  then evict_loop maxItems maxBytes n t (b - size e)%Z
  else ((k, e) :: t, b).
Proof.
  intros H. simpl in H. apply andb_true_iff in H as [H1 H2].
  apply negb_true_iff in H1.
  cbn [evict_loop]. cbn [List.length Nat.ltb Nat.leb andb].
  rewrite andb_true_r.
  destruct ((Z.of_nat (S (List.length t)) >? maxItems)%Z || (b >? maxBytes)%Z); [|reflexivity].
  cbn [map_get fst]. rewrite String.eqb_refl.
  unfold map_delete. cbn [List.filter fst]. rewrite String.eqb_refl. cbn [negb].
  fold (map_delete k t). rewrite (map_delete_fresh k t H1). reflexivity.
Qed.

Lemma evict_loop_nil n b : evict_loop maxItems maxBytes n [] b = ([], b).
Proof. destruct n; [reflexivity|]. cbn. rewrite andb_false_r. reflexivity. Qed.

(** The loop keeps the state consistent and ends within the ceilings or
    with an empty map. *)
Lemma evict_loop_spec n m b :
  nodup_keys m = true -> b = sum_sizes m -> nonneg m = true ->
  (List.length m <= n)%nat ->
  let r := evict_loop maxItems maxBytes n m b in
  nodup_keys r.1 = true /\ r.2 = sum_sizes r.1 /\ nonneg r.1 = true
  /\ (r.1 = [] \/ (Z.of_nat (List.length r.1) <= maxItems /\ r.2 <= maxBytes)%Z)
  /\ (List.length r.1 <= List.length m)%nat.
Proof.
  revert m b. induction n as [|n IH]; intros m b Hnd Hb Hnn Hlen.
  - destruct m; [|simpl in Hlen; lia]. simpl. auto 10.
  - destruct m as [|[k e] t].
    + rewrite evict_loop_nil. simpl. auto 10.
    + cbv zeta. rewrite (evict_loop_head n k e t b Hnd).
      destruct ((Z.of_nat (S (List.length t)) >? maxItems)%Z || (b >? maxBytes)%Z) eqn:C.
      * rewrite sum_sizes_cons in Hb. simpl in Hnd, Hnn, Hb, Hlen.
        apply andb_true_iff in Hnd as [_ Hnd]. apply andb_true_iff in Hnn as [_ Hnn].
        assert (Hb' : (b - size e)%Z = sum_sizes t) by lia.
        assert (Hl' : (List.length t <= n)%nat) by lia.
        specialize (IH t (b - size e)%Z Hnd Hb' Hnn Hl').
        cbv zeta in IH. destruct IH as (A & B & C' & D & E).
        split; [exact A|]. split; [exact B|]. split; [exact C'|].
        split; [exact D|]. simpl. lia.
      * apply orb_false_iff in C as [C1 C2].
        rewrite Z.gtb_ltb, Z.ltb_ge in C1, C2.
        cbn [fst snd]. split; [exact Hnd|]. split; [exact Hb|]. split; [exact Hnn|].
        split; [|lia].
        right. change (List.length ((k, e) :: t)) with (S (List.length t)). lia.
Qed.

Lemma evict_loop_stay n m b :
  (Z.of_nat (List.length m) <= maxItems)%Z -> (b <= maxBytes)%Z ->
  evict_loop maxItems maxBytes n m b = (m, b).
Proof.
  intros H1 H2. destruct n; [reflexivity|]. cbn [evict_loop].
  replace (Z.of_nat (List.length m) >? maxItems)%Z with false
    by (symmetry; rewrite Z.gtb_ltb, Z.ltb_ge; lia).
  replace (b >? maxBytes)%Z with false
    by (symmetry; rewrite Z.gtb_ltb, Z.ltb_ge; lia).
  reflexivity.
Qed.

(** The newest entry outlives the loop when it fits alone. *)
Lemma evict_loop_keeps_last x m n :
  (1 <= maxItems)%Z -> (size x.2 <= maxBytes)%Z ->
  nodup_keys (m ++ [x]) = true ->
  exists m1,
    evict_loop maxItems maxBytes n (m ++ [x]) (sum_sizes (m ++ [x]))
    = (m1 ++ [x], sum_sizes (m1 ++ [x]))
    /\ nodup_keys (m1 ++ [x]) = true.
Proof.
  intros HI HB. revert n. induction m as [|[k e] t IH]; intros n Hnd.
  - exists []. split; [|exact Hnd]. apply evict_loop_stay; simpl; lia.
  - destruct n as [|n]; [exists ((k, e) :: t); split; [reflexivity|exact Hnd]|].
    change (((k, e) :: t) ++ [x]) with ((k, e) :: (t ++ [x])) in *.
    rewrite (evict_loop_head n k e (t ++ [x]) _ Hnd).
    destruct (_ || _).
    + simpl in Hnd. apply andb_true_iff in Hnd as [_ Hnd].
      destruct (IH n Hnd) as (m1 & E & N). exists m1. split; [|exact N].
      rewrite <- E. f_equal. rewrite sum_sizes_cons. simpl. lia.
    + exists ((k, e) :: t). split; [reflexivity|exact Hnd].
Qed.

Lemma evictIfNeeded_spec s :
  (0 <= maxItems)%Z -> (0 <= maxBytes)%Z ->
  nodup_keys (cacheMap s) = true -> currentBytes s = sum_sizes (cacheMap s) ->
  nonneg (cacheMap s) = true ->
  consistent (evictIfNeeded maxItems maxBytes s) = true
  /\ bounded (evictIfNeeded maxItems maxBytes s)
  /\ disk (evictIfNeeded maxItems maxBytes s) = disk s.
Proof.
  intros HI HB Hnd Hb Hnn. unfold evictIfNeeded.
  pose proof (evict_loop_spec (List.length (cacheMap s)) (cacheMap s) (currentBytes s)
                              Hnd Hb Hnn (le_n _)) as H.
  cbv zeta in H. destruct (evict_loop _ _ _ _ _) as [m b]. simpl in H.
  destruct H as (A & B & C & D & _).
  split; [|split]; [| |reflexivity].
  - apply consistent_iff. simpl. auto.
  - unfold bounded. simpl. destruct D as [-> | D]; [|exact D].
    subst b. simpl. lia.
Qed.

(** After deleting a key (present or not) the counter minus the size of
    its entry is the sum of what is left. *)
Lemma delete_accounting k m b :
  nodup_keys m = true -> b = sum_sizes m -> nonneg m = true ->
  let r := match map_get k m with
           | Some e => (map_delete k m, (b - size e)%Z)
           | None => (m, b)
           end in
  nodup_keys r.1 = true /\ r.2 = sum_sizes r.1 /\ nonneg r.1 = true
  /\ map_has k r.1 = false /\ (List.length r.1 <= List.length m)%nat
  /\ r.1 = map_delete k m.
Proof.
  intros Hnd Hb Hnn. cbv zeta.
  destruct (map_get k m) as [e|] eqn:G; simpl.
  - repeat split.
    + apply nodup_keys_delete; assumption.
    + rewrite (sum_sizes_delete k e m Hnd G). lia.
    + apply nonneg_delete; assumption.
    + apply map_has_delete.
    + pose proof (length_delete k e m Hnd G). lia.
  - assert (F : map_has k m = false) by (rewrite map_has_get, G; reflexivity).
    repeat split; auto. symmetry. apply map_delete_fresh; assumption.
Qed.

Lemma consistent_snoc k e m b :
  nodup_keys m = true -> b = sum_sizes m -> nonneg m = true ->
  map_has k m = false -> (0 <= size e)%Z ->
  nodup_keys (map_set k e m) = true
  /\ (b + size e)%Z = sum_sizes (map_set k e m)
  /\ nonneg (map_set k e m) = true.
Proof.
  intros Hnd Hb Hnn Hf Hs. rewrite (map_set_fresh k e m Hf).
  split; [|split].
  - apply nodup_keys_snoc; assumption.
  - rewrite sum_sizes_app, sum_sizes_cons. simpl. lia.
  - rewrite nonneg_app, Hnn. simpl. replace (0 <=? size e)%Z with true by lia. reflexivity.
Qed.

Lemma set_consistent k v ttl now ok s :
  (0 <= maxItems)%Z -> (0 <= maxBytes)%Z ->
  consistent s = true -> bounded s ->
  consistent (set shaKey maxItems maxBytes k v ttl now ok s).2 = true
  /\ bounded (set shaKey maxItems maxBytes k v ttl now ok s).2.
Proof.
  intros HI HB Hc Hbd. unfold set.
  destruct (negb (Str.truthy k)); [simpl; auto|].
  apply consistent_iff in Hc as (Hnd & Hb & Hnn).
  pose proof (delete_accounting k (cacheMap s) (currentBytes s) Hnd Hb Hnn) as D.
  cbv zeta in D.
  destruct (match map_get k (cacheMap s) with
            | Some prev => _ | None => _ end) as [m b].
  simpl in D. destruct D as (D1 & D2 & D3 & D4 & _).
  pose proof (consistent_snoc k (Entry v (estimateSize v)
      (if negb (ttl =? 0)%Z then Some (now + ttl)%Z else None)) m b D1 D2 D3 D4
      (estimateSize_nonneg v)) as (S1 & S2 & S3).
  simpl in S2.
  match goal with |- context [evictIfNeeded _ _ ?st] =>
    pose proof (evictIfNeeded_spec st HI HB S1 S2 S3) as (E1 & E2 & E3) end.
  destruct (estimateSize v <=? MAX_PERSIST_BYTES)%Z; simpl; auto.
Qed.

Lemma get_consistent k now s :
  (0 <= maxItems)%Z -> (0 <= maxBytes)%Z ->
  consistent s = true -> bounded s ->
  consistent (get shaKey maxItems maxBytes k now s).2 = true
  /\ bounded (get shaKey maxItems maxBytes k now s).2.
Proof.
  intros HI HB Hc Hbd. unfold get, get_begin, get_resume.
  destruct (negb (Str.truthy k)); [simpl; auto|].
  pose proof Hc as Hc'.
  apply consistent_iff in Hc as (Hnd & Hb & Hnn).
  destruct (map_get k (cacheMap s)) as [e|] eqn:G.
  - pose proof (delete_accounting k (cacheMap s) (currentBytes s) Hnd Hb Hnn) as D.
    cbv zeta in D. rewrite G in D. simpl in D.
    destruct D as (D1 & D2 & D3 & D4 & D5 & _).
    assert (He : (0 <= size e)%Z).
    { clear - G Hnn. induction (cacheMap s) as [|[k' e'] t IH]; [discriminate|].
      simpl in G, Hnn. apply andb_true_iff in Hnn as [H1 H2].
      destruct (String.eqb k' k); [injection G as <-; lia|auto]. }
    destruct (expired e now); simpl.
    + split; [apply consistent_iff; simpl; auto|].
      unfold bounded in *. simpl. lia.
    + unfold touchKey. rewrite G.
      pose proof (consistent_snoc k e _ _ D1 eq_refl D3 D4 He) as (S1 & S2 & S3).
      split.
      * apply consistent_iff. simpl. repeat split; auto.
        rewrite <- S2, (sum_sizes_delete k e _ Hnd G). lia.
      * unfold bounded in *. simpl.
        rewrite (map_set_fresh _ _ _ D4), length_app. simpl.
        pose proof (length_delete k e _ Hnd G). lia.
  - cbv iota beta. destruct (not_nullish _); [|simpl; auto].
    assert (F : map_has k (cacheMap s) = false) by (rewrite map_has_get, G; reflexivity).
    pose proof (consistent_snoc k (Entry (loadFromDisk shaKey k (disk s))
       (estimateSize (loadFromDisk shaKey k (disk s))) None) _ _ Hnd Hb Hnn F
       (estimateSize_nonneg _)) as (S1 & S2 & S3).
    simpl in S2.
    match goal with |- context [evictIfNeeded _ _ ?st] =>
      pose proof (evictIfNeeded_spec st HI HB S1 S2 S3) as (E1 & E2 & E3) end.
    simpl. auto.
Qed.

Lemma del_consistent k s :
  consistent s = true -> bounded s ->
  consistent (del shaKey k s).2 = true /\ bounded (del shaKey k s).2.
Proof.
  intros Hc Hbd. unfold del.
  destruct (negb (Str.truthy k)); [simpl; auto|].
  apply consistent_iff in Hc as (Hnd & Hb & Hnn).
  pose proof (delete_accounting k (cacheMap s) (currentBytes s) Hnd Hb Hnn) as D.
  cbv zeta in D.
  assert (Hsz : forall e, map_get k (cacheMap s) = Some e -> (0 <= size e)%Z).
  { clear - Hnn. induction (cacheMap s) as [|[k' e'] t IH]; [discriminate|].
    simpl in *. apply andb_true_iff in Hnn as [H1 H2]. intros e.
    destruct (String.eqb k' k); [intros [= <-]; lia|auto]. }
  destruct (map_get k (cacheMap s)) as [e|] eqn:G; simpl in *.
  - destruct D as (D1 & D2 & D3 & D4 & D5 & _).
    split; [apply consistent_iff; simpl; auto|].
    unfold bounded in *. simpl. specialize (Hsz e eq_refl). lia.
  - destruct D as (D1 & D2 & D3 & D4 & D5 & _).
    split; [apply consistent_iff; simpl; auto|]. exact Hbd.
Qed.


Lemma In_map_has k e m : In (k, e) m -> map_has k m = true.
Proof.
  induction m as [|[k' e'] t IH]; simpl; [tauto|].
  intros [[= -> ->] | H].
  - rewrite String.eqb_refl. reflexivity.
  - rewrite (IH H). apply orb_true_r.
Qed.

Lemma In_map_get k e m : nodup_keys m = true -> In (k, e) m -> map_get k m = Some e.
Proof.
  induction m as [|[k' e'] t IH]; simpl; [tauto|].
  intros Hnd [[= -> ->] | H].
  - rewrite String.eqb_refl. reflexivity.
  - apply andb_true_iff in Hnd as [H1 H2]. apply negb_true_iff in H1.
    destruct (String.eqb k' k) eqn:E; [|auto].
    apply String.eqb_eq in E. subst k'.
    rewrite (In_map_has k e t H) in H1. discriminate.
Qed.

Lemma sweep_fold nowTs l acc :
  nodup_keys acc.1 = true -> acc.2 = sum_sizes acc.1 -> nonneg acc.1 = true ->
  nodup_keys l = true ->
  (forall k e, In (k, e) l -> map_get k acc.1 = Some e) ->
  let r := fold_left (sweep_step nowTs) l acc in
  nodup_keys r.1 = true /\ r.2 = sum_sizes r.1 /\ nonneg r.1 = true.
Proof.
  revert acc. induction l as [|[k e] t IH]; intros acc Hnd Hb Hnn Hl Hin; [simpl; auto|].
  cbn [fold_left]. simpl in Hl. apply andb_true_iff in Hl as [Hk Ht].
  apply negb_true_iff in Hk.
  apply IH; unfold sweep_step; cbn [fst snd]; destruct (expired e nowTs); cbn [fst snd]; auto.
  - apply nodup_keys_delete; assumption.
  - rewrite (sum_sizes_delete k e acc.1 Hnd (Hin k e (or_introl eq_refl))). lia.
  - apply nonneg_delete; assumption.
  - intros k' e' H'. rewrite map_get_delete_ne; [apply Hin; right; exact H'|].
    destruct (String.eqb k' k) eqn:E; [|reflexivity].
    apply String.eqb_eq in E. subst k'. rewrite (In_map_has k e' t H') in Hk. discriminate.
  - intros k' e' H'. apply Hin. right. exact H'.
Qed.

Lemma sweep_consistent nowTs s :
  (0 <= maxItems)%Z -> (0 <= maxBytes)%Z ->
  consistent s = true ->
  consistent (sweep maxItems maxBytes nowTs s) = true
  /\ bounded (sweep maxItems maxBytes nowTs s).
Proof.
  intros HI HB Hc. apply consistent_iff in Hc as (Hnd & Hb & Hnn).
  unfold sweep.
  pose proof (sweep_fold nowTs (cacheMap s) (cacheMap s, currentBytes s)
                Hnd Hb Hnn Hnd (fun k e => In_map_get k e _ Hnd)) as H.
  cbv zeta in H.
  destruct (fold_left _ _ _) as [m b]. simpl in H. destruct H as (A & B & C).
  match goal with |- context [evictIfNeeded _ _ ?st] =>
    pose proof (evictIfNeeded_spec st HI HB A B C) as (E1 & E2 & E3) end.
  auto.
Qed.

Lemma step_consistent o s :
  (0 <= maxItems)%Z -> (0 <= maxBytes)%Z ->
  consistent s = true -> bounded s ->
  consistent (step shaKey maxItems maxBytes o s) = true
  /\ bounded (step shaKey maxItems maxBytes o s).
Proof.
  intros HI HB Hc Hbd. destruct o; cbn [step].
  - apply get_consistent; assumption.
  - apply set_consistent; assumption.
  - apply del_consistent; assumption.
  - split; [reflexivity|]. unfold bounded. simpl. lia.
  - apply sweep_consistent; assumption.
Qed.

Lemma run_consistent ops s :
  (0 <= maxItems)%Z -> (0 <= maxBytes)%Z ->
  consistent s = true -> bounded s ->
  consistent (run shaKey maxItems maxBytes ops s) = true
  /\ bounded (run shaKey maxItems maxBytes ops s).
Proof.
  intros HI HB. revert s. induction ops as [|o ops IH]; intros s Hc Hbd; [simpl; auto|].
  cbn [run fold_left]. destruct (step_consistent o s HI HB Hc Hbd) as [A B].
  apply IH; assumption.
Qed.

(** ** Set then get *)

Lemma set_state k v ttl now ok s :
  Str.truthy k = true -> consistent s = true ->
  (1 <= maxItems)%Z -> (estimateSize v <= maxBytes)%Z ->
  let e := Entry v (estimateSize v) (if negb (ttl =? 0)%Z then Some (now + ttl)%Z else None) in
  let s1 := (set shaKey maxItems maxBytes k v ttl now ok s).2 in
  exists m1, cacheMap s1 = m1 ++ [(k, e)] /\ nodup_keys (m1 ++ [(k, e)]) = true
             /\ currentBytes s1 = sum_sizes (m1 ++ [(k, e)])
             /\ disk s1 = (if (estimateSize v <=? MAX_PERSIST_BYTES)%Z
                           then persistToDisk shaKey k
                                  (JObj [("value", v);
                                         ("meta", JObj [("ttl", JNum ttl); ("storedAt", JNum now)])])
                                  now ok (disk s)
                           else disk s).
Proof.
  intros Hk Hc HI HB e s1. subst s1. unfold set. rewrite Hk. cbn [negb].
  apply consistent_iff in Hc as (Hnd & Hb & Hnn).
  pose proof (delete_accounting k (cacheMap s) (currentBytes s) Hnd Hb Hnn) as D.
  cbv zeta in D.
  destruct (match map_get k (cacheMap s) with
            | Some prev => _ | None => _ end) as [m b].
  simpl in D. destruct D as (D1 & D2 & D3 & D4 & _).
  fold e.
  pose proof (consistent_snoc k e m b D1 D2 D3 D4 (estimateSize_nonneg v)) as (S1 & S2 & S3).
  rewrite (map_set_fresh k e m D4) in *.
  unfold evictIfNeeded. cbn [cacheMap currentBytes disk].
  change (b + estimateSize v)%Z with (b + size e)%Z. rewrite S2.
  destruct (evict_loop_keeps_last (k, e) m (List.length (m ++ [(k, e)])) HI HB S1)
    as (m1 & E & N).
  rewrite E. exists m1.
  destruct (estimateSize v <=? MAX_PERSIST_BYTES)%Z; cbn [snd cacheMap currentBytes disk]; auto.
Qed.

Lemma nodup_snoc_fresh k e m : nodup_keys (m ++ [(k, e)]) = true -> map_has k m = false.
Proof.
  induction m as [|[k' e'] t IH]; [reflexivity|].
  simpl. intros H. apply andb_true_iff in H as [H1 H2]. apply negb_true_iff in H1.
  rewrite map_has_app in H1. apply orb_false_iff in H1 as [_ H1].
  simpl in H1. rewrite orb_false_r in H1. rewrite String.eqb_sym, H1. simpl. auto.
Qed.


(** C2 (as amended): for a consistent cache, a non-empty key [k], a
    value [v] whose estimated size is within the byte ceiling, a positive
    [ttl], and ceilings that admit one item: after [set(k, v, ttl)] at
    time [now], [get(k)] at a time up to [now + ttl] returns exactly [v];
    at a later time it returns null, the entry is gone from memory and its
    file is removed from the cache folder. *)
Theorem cache_set_get_roundtrip (s : state) (k : string) (v : jsval) (ttl now now' : Z) (ok : bool) :
  consistent s = true ->
  Str.truthy k = true ->
  (0 < ttl)%Z -> (0 <= now)%Z ->
  (1 <= maxItems)%Z -> (estimateSize v <= maxBytes)%Z ->
  let s1 := (set shaKey maxItems maxBytes k v ttl now ok s).2 in
  let r := get shaKey maxItems maxBytes k now' s1 in
  ((now' <= now + ttl)%Z -> r.1 = v)
  /\ ((now + ttl < now')%Z ->
      r.1 = JNull /\ map_has k (cacheMap r.2) = false
      /\ disk r.2 !! filename shaKey k = None).
Proof.
  intros Hc Hk Httl Hnow HI HB s1 r.
  destruct (set_state k v ttl now ok s Hk Hc HI HB) as (m1 & Hm & Hnd & _ & _).
  fold s1 in Hm.
  replace (ttl =? 0)%Z with false in * by lia. cbn [negb] in *.
  pose proof (nodup_snoc_fresh _ _ _ Hnd) as Hf.
  subst r. unfold get, get_begin. rewrite Hk. cbn [negb]. rewrite Hm.
  rewrite (map_get_app_fresh _ _ _ Hf). unfold expired. cbn [expiresAt].
  replace (now + ttl =? 0)%Z with false by lia. cbn [negb andb].
  split; intros Ht.
  - replace (now + ttl <? now')%Z with false by lia. reflexivity.
  - replace (now + ttl <? now')%Z with true by lia. cbn [fst snd cacheMap disk].
    split; [reflexivity|]. split; [apply map_has_delete|].
    unfold removeFromDisk. apply lookup_delete_eq.
Qed.

(** C4 (the code at the failing input): a text stored with [set] and
    persisted, then looked up with an empty memory map (here: after a
    restart of the process), is not returned as it was stored: [get]
    returns the record [{ value, meta: { ttl, storedAt } }] that
    [set] handed to [persistToDisk]. *)
Theorem disk_hit_returns_wrapper (d : gmap string file) (k text : string) (ttl now now' : Z) :
  Str.truthy k = true ->
  (Z.of_nat (String.length text) <= MAX_PERSIST_BYTES)%Z ->
  let s1 := (set shaKey maxItems maxBytes k (JStr text) ttl now true (init d)).2 in
  let restarted := init (disk s1) in
  (get shaKey maxItems maxBytes k now' restarted).1
  = JObj [("value", JStr text);
          ("meta", JObj [("ttl", JNum ttl); ("storedAt", JNum now)])]
  /\ (get shaKey maxItems maxBytes k now' restarted).1 <> JStr text.
Proof.
  intros Hk Hsz s1 restarted.
  assert (Hd : disk s1 !! filename shaKey k
               = Some (Parsed (JObj [("ts", JNum now); ("key", JStr k);
                    ("data", JObj [("value", JStr text);
                       ("meta", JObj [("ttl", JNum ttl); ("storedAt", JNum now)])])]))).
  { subst s1. unfold set. rewrite Hk. cbn [negb].
    assert (E : estimateSize (JStr text) = Z.of_nat (String.length text)).
    { unfold estimateSize. destruct (negb (truthy (JStr text))) eqn:T; [|reflexivity].
      destruct text; [reflexivity|discriminate]. }
    rewrite E. cbn [init cacheMap map_get currentBytes disk].
    replace (Z.of_nat (String.length text) <=? MAX_PERSIST_BYTES)%Z with true by lia.
    cbn [snd disk]. unfold persistToDisk.
    unfold evictIfNeeded. destruct (evict_loop _ _ _ _ _). cbn [disk].
    rewrite lookup_insert_eq. reflexivity. }
  assert (G : (get shaKey maxItems maxBytes k now' restarted).1
              = JObj [("value", JStr text);
                      ("meta", JObj [("ttl", JNum ttl); ("storedAt", JNum now)])]).
  { unfold get, get_begin, get_resume. rewrite Hk. cbn [negb]. subst restarted.
    cbn [init cacheMap map_get disk]. unfold loadFromDisk. rewrite Hd.
    cbn. reflexivity. }
  split; [exact G|]. rewrite G. discriminate.
Qed.

(** C5: in a consistent cache that holds as many items as the item
    ceiling allows, with room left under the byte ceiling, inserting one
    more item under a new key evicts exactly the entry at the front of
    the insertion-ordered map; a successful [get] moves the entry read to
    the back of the map, so with a ceiling of two items or more the next
    insertion removes another entry and the entry read stays. *)
Theorem lru_eviction_order :
  (forall (s : state) (k' : string) (v' : jsval) (ttl now' : Z) (ok : bool),
      consistent s = true ->
      Z.of_nat (List.length (cacheMap s)) = maxItems -> (1 <= maxItems)%Z ->
      Str.truthy k' = true -> map_has k' (cacheMap s) = false ->
      (currentBytes s + estimateSize v' <= maxBytes)%Z ->
      cacheMap (set shaKey maxItems maxBytes k' v' ttl now' ok s).2
      = tl (cacheMap s)
        ++ [(k', Entry v' (estimateSize v')
                       (if negb (ttl =? 0)%Z then Some (now' + ttl)%Z else None))])
  /\
  (forall (s : state) (k : string) (e : entry) (now : Z)
          (k' : string) (v' : jsval) (ttl now' : Z) (ok : bool),
      consistent s = true ->
      Z.of_nat (List.length (cacheMap s)) = maxItems -> (2 <= maxItems)%Z ->
      Str.truthy k = true -> map_get k (cacheMap s) = Some e -> expired e now = false ->
      Str.truthy k' = true -> map_has k' (cacheMap s) = false ->
      (currentBytes s + estimateSize v' <= maxBytes)%Z ->
      let r := get shaKey maxItems maxBytes k now s in
      let s2 := (set shaKey maxItems maxBytes k' v' ttl now' ok r.2).2 in
      r.1 = value e
      /\ cacheMap r.2 = map_delete k (cacheMap s) ++ [(k, e)]
      /\ cacheMap s2
         = tl (cacheMap r.2)
           ++ [(k', Entry v' (estimateSize v')
                          (if negb (ttl =? 0)%Z then Some (now' + ttl)%Z else None))]
      /\ map_get k (cacheMap s2) = Some e).
Proof.
  assert (A : forall (s : state) (k' : string) (v' : jsval) (ttl now' : Z) (ok : bool),
      consistent s = true ->
      Z.of_nat (List.length (cacheMap s)) = maxItems -> (1 <= maxItems)%Z ->
      Str.truthy k' = true -> map_has k' (cacheMap s) = false ->
      (currentBytes s + estimateSize v' <= maxBytes)%Z ->
      cacheMap (set shaKey maxItems maxBytes k' v' ttl now' ok s).2
      = tl (cacheMap s)
        ++ [(k', Entry v' (estimateSize v')
                       (if negb (ttl =? 0)%Z then Some (now' + ttl)%Z else None))]).
  { intros s k' v' ttl now' ok Hc Hlen HI Hk Hf HB.
    apply consistent_iff in Hc as (Hnd & Hb & Hnn).
    unfold set. rewrite Hk. cbn [negb].
    assert (G : map_get k' (cacheMap s) = None).
    { rewrite map_has_get in Hf. destruct (map_get k' (cacheMap s)); [discriminate|reflexivity]. }
    rewrite G. rewrite (map_set_fresh _ _ _ Hf).
    set (e' := Entry v' _ _).
    assert (C : cacheMap (evictIfNeeded maxItems maxBytes
                  {| cacheMap := cacheMap s ++ [(k', e')];
                     currentBytes := (currentBytes s + estimateSize v')%Z;
                     disk := disk s |}) = tl (cacheMap s) ++ [(k', e')]).
    { unfold evictIfNeeded. cbn [cacheMap currentBytes disk].
      destruct (cacheMap s) as [|[k0 e0] t] eqn:M; [simpl in Hlen; lia|].
      rewrite length_app. cbn [List.length Nat.add].
      replace (S (List.length t) + 1)%nat with (S (S (List.length t))) by lia.
      change (((k0, e0) :: t) ++ [(k', e')]) with ((k0, e0) :: (t ++ [(k', e')])).
      rewrite evict_loop_head.
      2:{ change ((k0, e0) :: (t ++ [(k', e')])) with (((k0, e0) :: t) ++ [(k', e')]).
          apply nodup_keys_snoc; assumption. }
      rewrite length_app. cbn [List.length].
      replace (Z.of_nat (S (List.length t + 1)) >? maxItems)%Z with true
        by (symmetry; rewrite Z.gtb_ltb, Z.ltb_lt; cbn [List.length] in Hlen; lia).
      cbn [orb].
      rewrite evict_loop_stay; [reflexivity| |].
      - rewrite length_app. cbn [List.length] in *. lia.
      - simpl in Hnn. apply andb_true_iff in Hnn as [Hn0 _]. lia. }
    destruct (estimateSize v' <=? MAX_PERSIST_BYTES)%Z; cbn [snd cacheMap]; exact C. }
  split; [exact A|].
  intros s k e now k' v' ttl now' ok Hc Hlen HI Hk G Hexp Hk' Hf' HB r s2.
  pose proof Hc as Hc0.
  apply consistent_iff in Hc as (Hnd & Hb & Hnn).
  assert (R1 : r.1 = value e /\ cacheMap r.2 = map_delete k (cacheMap s) ++ [(k, e)]
               /\ currentBytes r.2 = currentBytes s).
  { subst r. unfold get, get_begin. rewrite Hk. cbn [negb]. rewrite G, Hexp.
    cbn [fst snd cacheMap currentBytes].
    unfold touchKey. rewrite G. rewrite (map_set_fresh _ _ _ (map_has_delete k _)). auto. }
  destruct R1 as (R1 & R2 & R3).
  assert (Hne : String.eqb k' k = false).
  { destruct (String.eqb k' k) eqn:E; [|reflexivity].
    apply String.eqb_eq in E. subst k'. rewrite map_has_get, G in Hf'. discriminate. }
  assert (Hcr : consistent r.2 = true).
  { apply consistent_iff. rewrite R2, R3. split; [|split].
    - apply nodup_keys_snoc; [apply nodup_keys_delete; assumption|apply map_has_delete].
    - rewrite sum_sizes_app, (sum_sizes_delete k e _ Hnd G), sum_sizes_cons. simpl. lia.
    - rewrite nonneg_app, (nonneg_delete k _ Hnn). simpl.
      assert (He : (0 <= size e)%Z).
      { clear - G Hnn. induction (cacheMap s) as [|[k0 e0] t IH]; [discriminate|].
        simpl in G, Hnn. apply andb_true_iff in Hnn as [H1 H2].
        destruct (String.eqb k0 k); [injection G as <-; lia|auto]. }
      replace (0 <=? size e)%Z with true by lia. reflexivity. }
  assert (Hlr : Z.of_nat (List.length (cacheMap r.2)) = maxItems).
  { rewrite R2, length_app. cbn [List.length].
    pose proof (length_delete k e _ Hnd G). lia. }
  assert (Hfr : map_has k' (cacheMap r.2) = false).
  { rewrite R2, map_has_app, (map_has_delete_ne k k' _ Hne), Hf'. simpl.
    rewrite String.eqb_sym, Hne. reflexivity. }
  assert (S2 : cacheMap s2 = tl (cacheMap r.2)
           ++ [(k', Entry v' (estimateSize v')
                          (if negb (ttl =? 0)%Z then Some (now' + ttl)%Z else None))]).
  { subst s2. apply A; try assumption; [lia|]. rewrite R3. exact HB. }
  split; [exact R1|]. split; [exact R2|]. split; [exact S2|].
  rewrite S2, R2.
  destruct (map_delete k (cacheMap s)) as [|[k0 e0] t] eqn:M.
  - exfalso. pose proof (length_delete k e _ Hnd G) as L. rewrite M in L. simpl in L. lia.
  - cbn [app tl].
    assert (Hkt : map_has k t = false).
    { pose proof (map_has_delete k (cacheMap s)) as H. rewrite M in H. simpl in H.
      apply orb_false_iff in H as [_ H]. exact H. }
    rewrite <- app_assoc. 
    clear - Hkt Hne. induction t as [|[k1 e1] t IH]; simpl.
    + rewrite String.eqb_refl. reflexivity.
    + simpl in Hkt. apply orb_false_iff in Hkt as [H1 H2]. rewrite H1. auto.
Qed.

End Accounting.

(** Calls that do not overlap keep the accounting exact: after every
    run of get, set, del, clear and sweep from the freshly loaded module,
    over any cache folder, [currentBytes] is the sum of the recorded sizes
    of the entries in the memory map; after a further [set] the same
    holds, the number of items is at most 500 and [currentBytes] at most
    50 MiB. *)
Lemma sequential_byte_accounting (shaKey : string -> string) (d : gmap string file) (ops : list op) :
  let s := run shaKey DEFAULT_MAX_ITEMS DEFAULT_MAX_BYTES ops (init d) in
  currentBytes s = sum_sizes (cacheMap s)
  /\ forall k v ttl now ok,
      let s' := (set shaKey DEFAULT_MAX_ITEMS DEFAULT_MAX_BYTES k v ttl now ok s).2 in
      currentBytes s' = sum_sizes (cacheMap s')
      /\ (Z.of_nat (List.length (cacheMap s')) <= DEFAULT_MAX_ITEMS)%Z
      /\ (currentBytes s' <= DEFAULT_MAX_BYTES)%Z.
Proof.
  intros s.
  assert (HI : (0 <= DEFAULT_MAX_ITEMS)%Z) by (unfold DEFAULT_MAX_ITEMS; lia).
  assert (HB : (0 <= DEFAULT_MAX_BYTES)%Z) by (unfold DEFAULT_MAX_BYTES; lia).
  assert (H0 : consistent (init d) = true
               /\ bounded DEFAULT_MAX_ITEMS DEFAULT_MAX_BYTES (init d)).
  { split; [reflexivity|]. unfold bounded. simpl. lia. }
  destruct H0 as [C0 B0].
  destruct (run_consistent shaKey _ _ ops (init d) HI HB C0 B0) as [C B].
  fold s in C, B. split.
  - apply consistent_iff in C. tauto.
  - intros k v ttl now ok s'.
    destruct (set_consistent shaKey _ _ k v ttl now ok s HI HB C B) as [C' B'].
    fold s' in C', B'. apply consistent_iff in C'. unfold bounded in B'. tauto.
Qed.

Lemma cache_set_get_roundtrip_witness :
  let s1 := (set digest DEFAULT_MAX_ITEMS DEFAULT_MAX_BYTES "k" (JStr "v") 1000 0 true
                 (init ∅)).2 in
  (get digest DEFAULT_MAX_ITEMS DEFAULT_MAX_BYTES "k" 500 s1).1 = JStr "v"
  /\ (get digest DEFAULT_MAX_ITEMS DEFAULT_MAX_BYTES "k" 1001 s1).1 = JNull.
Proof.
  pose proof (cache_set_get_roundtrip digest DEFAULT_MAX_ITEMS DEFAULT_MAX_BYTES
                (init ∅) "k" (JStr "v") 1000 0 500 true
                eq_refl eq_refl eq_refl ltac:(discriminate) ltac:(discriminate)
                ltac:(discriminate)) as H1.
  pose proof (cache_set_get_roundtrip digest DEFAULT_MAX_ITEMS DEFAULT_MAX_BYTES
                (init ∅) "k" (JStr "v") 1000 0 1001 true
                eq_refl eq_refl eq_refl ltac:(discriminate) ltac:(discriminate)
                ltac:(discriminate)) as H2.
  cbv zeta in *. split.
  - apply (proj1 H1). discriminate.
  - apply (proj2 H2). reflexivity.
Defined.

(** C2 (as stated, refuted): the empty key.  [set] returns false
    without storing anything and [get] returns null, not the value. *)
Lemma cache_roundtrip_empty_key :
  let s1 := (set digest DEFAULT_MAX_ITEMS DEFAULT_MAX_BYTES "" (JStr "v") 1000 0 true
                 (init ∅)) in
  s1.1 = false
  /\ (get digest DEFAULT_MAX_ITEMS DEFAULT_MAX_BYTES "" 1 s1.2).1 = JNull
  /\ (get digest DEFAULT_MAX_ITEMS DEFAULT_MAX_BYTES "" 1 s1.2).1 <> JStr "v".
Proof. vm_compute. repeat split. discriminate. Qed.

Lemma disk_hit_returns_wrapper_witness :
  let s1 := (set digest DEFAULT_MAX_ITEMS DEFAULT_MAX_BYTES "k" (JStr "v") 1000 0 true
                 (init ∅)).2 in
  (get digest DEFAULT_MAX_ITEMS DEFAULT_MAX_BYTES "k" 1 (init (disk s1))).1
  = JObj [("value", JStr "v"); ("meta", JObj [("ttl", JNum 1000); ("storedAt", JNum 0)])].
Proof.
  exact (proj1 (disk_hit_returns_wrapper digest DEFAULT_MAX_ITEMS DEFAULT_MAX_BYTES
                  ∅ "k" "v" 1000 0 1 eq_refl ltac:(discriminate))).
Defined.

(** A cache of two items, a then b, with a ceiling of two items. *)
Lemma lru_eviction_order_witness :
  let s := (set digest 2 100 "b" (JStr "vb") 0 2 true
              (set digest 2 100 "a" (JStr "va") 0 1 true (init ∅)).2).2 in
  let r := get digest 2 100 "a" 3 s in
  let s2 := (set digest 2 100 "c" (JStr "vc") 0 4 true r.2).2 in
  r.1 = JStr "va"
  /\ map fst (cacheMap r.2) = ["b"; "a"]
  /\ map fst (cacheMap s2) = ["a"; "c"].
Proof.
  pose proof (proj2 (lru_eviction_order digest 2 100)
                ((set digest 2 100 "b" (JStr "vb") 0 2 true
                    (set digest 2 100 "a" (JStr "va") 0 1 true (init ∅)).2).2)
                "a" (Entry (JStr "va") 2 None) 3%Z "c" (JStr "vc") 0%Z 4%Z true
                eq_refl eq_refl ltac:(discriminate) eq_refl eq_refl eq_refl eq_refl eq_refl
                ltac:(discriminate)) as H.
  cbv zeta in *. destruct H as (H1 & H2 & H3 & _).
  split; [exact H1|]. split; [rewrite H2; reflexivity|rewrite H3, H2; reflexivity].
Defined.

(** C10 (the code at the failing input): two calls of [get] for a key
    that has a file in the cache folder and no entry in memory, the
    second one started before the first one is resumed (as in
    [Promise.all([get(k), get(k)])]).  Both find the key missing; each,
    when resumed with what was read, inserts the entry and adds its size
    without looking at the map again ([set] subtracts the size of an
    entry it replaces, this path does not).  After both calls have
    returned the map holds one entry of 46 bytes and [currentBytes] is
    92. *)
Theorem overlapping_gets_break_accounting :
  let d := disk (set digest DEFAULT_MAX_ITEMS DEFAULT_MAX_BYTES "k" (JStr "v") 1000 0 true
                     (init ∅)).2 in
  let first := get_begin digest "k" 1 (init d) in
  let second := get_begin digest "k" 1 first.2 in
  let read := loadFromDisk digest "k" (disk second.2) in
  let s1 := (get_resume DEFAULT_MAX_ITEMS DEFAULT_MAX_BYTES "k" read second.2).2 in
  let s2 := (get_resume DEFAULT_MAX_ITEMS DEFAULT_MAX_BYTES "k" read s1).2 in
  first.1 = AwaitDisk "k" /\ second.1 = AwaitDisk "k"
  /\ map fst (cacheMap s2) = ["k"]
  /\ sum_sizes (cacheMap s2) = 46%Z
  /\ currentBytes s2 = 92%Z
  /\ currentBytes s2 <> sum_sizes (cacheMap s2).
Proof. vm_compute. repeat split. discriminate. Qed.

(** The sweep removes an expired entry from memory and leaves its file;
    a later [get] loads the file, which carries no expiry, and returns
    its record. *)
Lemma get_after_sweep_returns_disk_copy :
  let s1 := (set digest DEFAULT_MAX_ITEMS DEFAULT_MAX_BYTES "k" (JStr "v") 1000 0 true
                 (init ∅)).2 in
  let s2 := sweep DEFAULT_MAX_ITEMS DEFAULT_MAX_BYTES 60000 s1 in
  cacheMap s2 = []
  /\ (get digest DEFAULT_MAX_ITEMS DEFAULT_MAX_BYTES "k" 60001 s2).1
     = JObj [("value", JStr "v"); ("meta", JObj [("ttl", JNum 1000); ("storedAt", JNum 0)])].
Proof. vm_compute. split; reflexivity. Qed.

End CacheFacts.

(* --------------------------------------------------------------------- *)
(** ** The fetch orchestrator *)

Module FetcherFacts.
Import Str Js Fetcher Runs.

Lemma attempts_app tr1 tr2 : attempts (tr1 ++ tr2) = (attempts tr1 + attempts tr2)%nat.
Proof. unfold attempts. rewrite List.filter_app, length_app. reflexivity. Qed.

(** The loop of [fetchText] calls [fetch] at most once per turn. *)
Lemma text_loop_attempts n : forall up retries attempt lastErr tr,
  (attempts (text_loop n up retries attempt lastErr tr).2 <= attempts tr + n)%nat.
Proof.
  induction n as [|n IH]; intros up retries attempt lastErr tr; cbn [text_loop]; [cbn [fst snd]; lia|].
  destruct (attempt <=? retries)%Z; [|cbn [fst snd]; lia].
  assert (A : forall e tr', attempts tr' <= attempts tr + 1 ->
            (attempts (text_loop n up retries (attempt + 1) e tr').2 <= attempts tr + S n)%nat).
  { intros e tr' H. pose proof (IH up retries (attempt + 1)%Z e tr'). lia. }
  assert (T1 : attempts (tr ++ [EFetch (attempt + 1)]) <= attempts tr + 1)
    by (rewrite attempts_app; cbn; lia).
  assert (T2 : attempts ((tr ++ [EFetch (attempt + 1)])
                           ++ [ESleep (BACKOFF_BASE * (attempt + 1))]) <= attempts tr + 1)
    by (rewrite !attempts_app; cbn; lia).
  change (log "logWarn") with (Some (TypeErr "logWarn")). cbv iota.
  destruct (up (attempt + 1)%Z) as [status statusText hs chunks body_ok|message].
  - destruct (negb (ok status)).
    + destruct ((status >=? 500)%Z && (attempt + 1 <=? retries)%Z); [apply A; exact T2|].
      cbn [fst snd]. lia.
    + destruct body_ok; cbn [fst snd]; lia.
  - cbn [fst snd]. lia.
Qed.

(** [fetchText] makes at most [retries + 1] attempts. *)
Lemma fetchText_attempts_bound sha256 url o up now c :
  (attempts (fetchText sha256 url o up now c).1.2 <= Z.to_nat (retries_of o + 1))%nat.
Proof.
  assert (E : attempts [] = 0%nat) by reflexivity.
  unfold fetchText. destruct (negb (isValidUrl url)); [cbn [fst snd]; lia|].
  destruct (if useCache o then _ else _) as [cached c1].
  change (log "logInfo") with (Some (TypeErr "logInfo")).
  change (log "logWarn") with (Some (TypeErr "logWarn")). cbv iota.
  destruct (useCache o && truthy cached); [cbn [fst snd]; lia|].
  pose proof (text_loop_attempts (Z.to_nat (retries_of o + 1)) up (retries_of o) 0 Undef [])
    as H.
  destruct (text_loop _ _ _ _ _ _) as [r tr]. cbn [fst snd] in H.
  destruct r; cbn [fst snd]; lia.
Qed.

(** C3 (the code at the failing inputs).  The catch clauses of both
    loops call [logger.logWarn], and [logger] is undefined.  Against an
    upstream that resets every connection [fetchText] throws a TypeError
    after one call of [fetch], without a retry and without the error of
    the attempt, and [streamToResponse] rejects with a TypeError after one
    call, with nothing sent to the response.  Against an upstream that
    answers 503 to every attempt [fetchText] makes its three attempts and
    then throws a TypeError, not the error it recorded;
    [streamToResponse] passes the status 503 on, not 502.  An answer 404
    is not retried by either: [fetchText] throws the TypeError after one
    call and [streamToResponse] passes the status on. *)
Theorem failed_fetch_ends_in_TypeError :
  (fetchText digest "http://example.com/" default_options always_reset 0 (Cache.init ∅)).1
  = (Thrown (TypeErr "logWarn"), [EFetch 1])
  /\ (let '(res, tr, _, e) :=
        streamToResponse digest "http://example.com/" fresh_response default_options
                         always_reset 0 (Cache.init ∅) in (res, tr, e))
     = (fresh_response, [EFetch 1], Rejects (TypeErr "logWarn"))
  /\ (fetchText digest "http://example.com/" default_options always_503 0 (Cache.init ∅)).1
     = (Thrown (TypeErr "logWarn"), [EFetch 1; ESleep 300; EFetch 2; ESleep 600; EFetch 3])
  /\ (let '(res, tr, _, e) :=
        streamToResponse digest "http://example.com/" fresh_response default_options
                         always_503 0 (Cache.init ∅) in (res, tr, e))
     = ({| statusCode := Some 503%Z; resHeaders := [];
           written := ["Upstream error: 503"]; ended := true |},
        [EFetch 1; ESleep 300; EFetch 2; ESleep 600; EFetch 3], Resolves)
  /\ (fetchText digest "http://example.com/" default_options always_404 0 (Cache.init ∅)).1
     = (Thrown (TypeErr "logWarn"), [EFetch 1])
  /\ (let '(res, tr, _, e) :=
        streamToResponse digest "http://example.com/" fresh_response default_options
                         always_404 0 (Cache.init ∅) in (res, tr, e))
     = ({| statusCode := Some 404%Z; resHeaders := [];
           written := ["Upstream error: 404"]; ended := true |},
        [EFetch 1], Resolves).
Proof. vm_compute. repeat split. Qed.

End FetcherFacts.

(* ===================================================================== *)
(** * Laws of the cache *)
(* ===================================================================== *)

Module CacheLaws.
Import Str Js Cache Runs CacheFacts.

Section Laws.
Variable shaKey : string -> string.
Variables maxItems maxBytes : Z.

Local Abbreviation bounded := (Cache.bounded maxItems maxBytes).
Local Abbreviation evict := (evictIfNeeded maxItems maxBytes).

Local Abbreviation over := (Cache.over maxItems maxBytes).

Lemma evict_loop_prefix n : forall m,
  nodup_keys m = true -> (List.length m <= n)%nat ->
  exists dropped,
    m = dropped ++ (evict_loop maxItems maxBytes n m (sum_sizes m)).1
    /\ (evict_loop maxItems maxBytes n m (sum_sizes m)).2
       = sum_sizes (evict_loop maxItems maxBytes n m (sum_sizes m)).1
    /\ forall d1 d2, dropped = d1 ++ d2 -> d2 <> [] ->
         over (d2 ++ (evict_loop maxItems maxBytes n m (sum_sizes m)).1).
Proof.
  induction n as [|n IH]; intros m Hnd Hlen.
  - destruct m; [|simpl in Hlen; lia]. exists []. simpl. split; [reflexivity|].
    split; [reflexivity|]. intros d1 d2 E. destruct d1, d2; try discriminate. congruence.
  - destruct m as [|[k e] t].
    + rewrite evict_loop_nil. exists []. simpl. split; [reflexivity|]. split; [reflexivity|].
      intros d1 d2 E. destruct d1, d2; try discriminate. congruence.
    + rewrite (evict_loop_head maxItems maxBytes n k e t _ Hnd).
      destruct ((Z.of_nat (S (List.length t)) >? maxItems)%Z
                || (sum_sizes ((k, e) :: t) >? maxBytes)%Z) eqn:C.
      * simpl in Hnd, Hlen. apply andb_true_iff in Hnd as [_ Hnd].
        replace (sum_sizes ((k, e) :: t) - size e)%Z with (sum_sizes t)
          by (rewrite sum_sizes_cons; simpl; lia).
        destruct (IH t Hnd ltac:(lia)) as (dropped & E & B & M).
        exists ((k, e) :: dropped). split; [simpl; f_equal; exact E|]. split; [exact B|].
        intros d1 d2 Ed Hd2. destruct d1 as [|x d1].
        -- simpl in Ed. subst d2. simpl. rewrite <- E.
           apply orb_true_iff in C. unfold over.
           rewrite !Z.gtb_ltb, !Z.ltb_lt in C. exact C.
        -- injection Ed as _ Ed. apply (M d1 d2 Ed Hd2).
      * exists []. simpl. split; [reflexivity|]. split; [reflexivity|].
        intros d1 d2 E. destruct d1, d2; try discriminate. congruence.
Qed.

(** X2: on a consistent state [evictIfNeeded] removes a prefix of the
    insertion-ordered map and nothing else; the byte counter is the sum
    of the sizes that are left and the folder is not touched; what is
    left is within both ceilings or empty; and the prefix is the shortest
    one: before each removal the entries still there were over a
    ceiling. *)
Theorem evictIfNeeded_shortest_prefix (s : state) :
  consistent s = true ->
  exists dropped,
    cacheMap s = dropped ++ cacheMap (evict s)
    /\ currentBytes (evict s) = sum_sizes (cacheMap (evict s))
    /\ disk (evict s) = disk s
    /\ (cacheMap (evict s) = [] \/ ~ over (cacheMap (evict s)))
    /\ forall d1 d2, dropped = d1 ++ d2 -> d2 <> [] -> over (d2 ++ cacheMap (evict s)).
Proof.
  intros Hc. apply consistent_iff in Hc as (Hnd & Hb & Hnn).
  destruct (evict_loop_prefix (List.length (cacheMap s)) (cacheMap s) Hnd (le_n _))
    as (dropped & E & B & M).
  pose proof (evict_loop_spec maxItems maxBytes (List.length (cacheMap s)) (cacheMap s)
                (sum_sizes (cacheMap s)) Hnd eq_refl Hnn (le_n _)) as Sp.
  cbv zeta in Sp. destruct Sp as (_ & _ & _ & D & _).
  unfold evictIfNeeded. rewrite Hb.
  destruct (evict_loop maxItems maxBytes _ _ _) as [m b] eqn:L.
  cbn [fst snd cacheMap currentBytes disk] in *.
  exists dropped. split; [exact E|]. split; [exact B|]. split; [reflexivity|].
  split; [|exact M].
  destruct D as [D | D]; [left; exact D|right]. unfold over. subst b. lia.
Qed.

(** ** A value above the byte ceiling *)

Lemma sum_sizes_nonneg m : nonneg m = true -> (0 <= sum_sizes m)%Z.
Proof.
  induction m as [|p t IH]; [simpl; lia|].
  rewrite sum_sizes_cons. simpl. intros H. apply andb_true_iff in H as [H1 H2].
  apply Z.leb_le in H1. specialize (IH H2). lia.
Qed.

Lemma evict_loop_oversize x : forall m n,
  (maxBytes < size x.2)%Z -> nonneg m = true -> nodup_keys (m ++ [x]) = true ->
  (List.length (m ++ [x]) <= n)%nat ->
  evict_loop maxItems maxBytes n (m ++ [x]) (sum_sizes (m ++ [x])) = ([], 0%Z).
Proof.
  intros m. induction m as [|[k e] t IH]; intros n Hx Hnn Hnd Hlen.
  - destruct n as [|n]; [simpl in Hlen; lia|]. destruct x as [kx ex].
    simpl app. rewrite (evict_loop_head maxItems maxBytes n kx ex [] _ Hnd).
    rewrite sum_sizes_cons. simpl in *.
    replace (size ex + 0 >? maxBytes)%Z with true
      by (symmetry; rewrite Z.gtb_ltb, Z.ltb_lt; lia).
    rewrite orb_true_r, evict_loop_nil. f_equal. lia.
  - destruct n as [|n]; [simpl in Hlen; lia|].
    change (((k, e) :: t) ++ [x]) with ((k, e) :: (t ++ [x])) in *.
    rewrite (evict_loop_head maxItems maxBytes n k e (t ++ [x]) _ Hnd).
    simpl in Hnn. apply andb_true_iff in Hnn as [He Hnn]. apply Z.leb_le in He.
    pose proof (sum_sizes_nonneg t Hnn) as Ht.
    rewrite sum_sizes_cons, sum_sizes_app, sum_sizes_cons. simpl.
    replace (size e + (sum_sizes t + (size x.2 + 0)) >? maxBytes)%Z with true
      by (symmetry; rewrite Z.gtb_ltb, Z.ltb_lt; lia).
    rewrite orb_true_r.
    replace (size e + (sum_sizes t + (size x.2 + 0)) - size e)%Z
      with (sum_sizes (t ++ [x])) by (rewrite sum_sizes_app, sum_sizes_cons; simpl; lia).
    simpl in Hnd. apply andb_true_iff in Hnd as [_ Hnd].
    apply IH; try assumption. simpl in Hlen. lia.
Qed.

(** X3: a value whose estimated size is above the byte ceiling empties
    the memory cache: [set] answers true, yet the eviction that follows
    the insertion removes every older entry and then the new one. *)
Theorem set_oversize_flushes (s : state) (k : string) (v : jsval) (ttl now : Z) (ok : bool) :
  consistent s = true -> Str.truthy k = true ->
  (maxBytes < estimateSize v)%Z ->
  let r := set shaKey maxItems maxBytes k v ttl now ok s in
  r.1 = true /\ cacheMap r.2 = [] /\ currentBytes r.2 = 0%Z.
Proof.
  intros Hc Hk Hv r. subst r. unfold set. rewrite Hk. cbn [negb].
  apply consistent_iff in Hc as (Hnd & Hb & Hnn).
  pose proof (delete_accounting k (cacheMap s) (currentBytes s) Hnd Hb Hnn) as D.
  cbv zeta in D.
  destruct (match map_get k (cacheMap s) with
            | Some prev => _ | None => _ end) as [m b].
  simpl in D. destruct D as (D1 & D2 & D3 & D4 & _).
  set (e := Entry v (estimateSize v) _).
  pose proof (consistent_snoc k e m b D1 D2 D3 D4 (estimateSize_nonneg v)) as (S1 & S2 & S3).
  rewrite (map_set_fresh k e m D4) in *.
  unfold evictIfNeeded. cbn [cacheMap currentBytes disk].
  change (b + estimateSize v)%Z with (b + size e)%Z. rewrite S2.
  rewrite (evict_loop_oversize (k, e) m _ Hv D3 S1 (le_n _)).
  destruct (estimateSize v <=? MAX_PERSIST_BYTES)%Z;
    cbn [fst snd cacheMap currentBytes disk]; auto.
Qed.

(** ** del *)

Lemma map_get_delete k m : map_get k (map_delete k m) = None.
Proof.
  pose proof (map_has_delete k m) as H. rewrite map_has_get in H.
  destruct (map_get k (map_delete k m)); [discriminate|reflexivity].
Qed.

(** X4: [del] of a non-empty key answers true and leaves neither an
    entry nor a file for the key, so a [get] that follows answers null
    and changes nothing; the entries of the other keys stay as they were. *)
Theorem del_then_get (s : state) (k : string) (now : Z) :
  Str.truthy k = true ->
  let r := del shaKey k s in
  r.1 = true
  /\ get shaKey maxItems maxBytes k now r.2 = (JNull, r.2)
  /\ disk r.2 !! filename shaKey k = None
  /\ forall k', k' <> k -> map_get k' (cacheMap r.2) = map_get k' (cacheMap s).
Proof.
  intros Hk r. subst r. unfold del. rewrite Hk. cbn [negb].
  assert (G : forall m', (m' = map_delete k (cacheMap s) \/
                          (m' = cacheMap s /\ map_get k (cacheMap s) = None)) ->
              map_get k m' = None).
  { intros m' [-> | [-> H]]; [apply map_get_delete|exact H]. }
  destruct (map_get k (cacheMap s)) as [e|] eqn:E; cbn [fst snd cacheMap disk].
  - split; [reflexivity|]. split.
    + unfold get, get_begin. rewrite Hk. cbn [negb cacheMap].
      rewrite map_get_delete. unfold get_resume, loadFromDisk, removeFromDisk.
      cbn [disk]. rewrite lookup_delete_eq. reflexivity.
    + split; [apply lookup_delete_eq|].
      intros k' Hne. apply map_get_delete_ne. apply String.eqb_neq. exact Hne.
  - split; [reflexivity|]. split.
    + unfold get, get_begin. rewrite Hk. cbn [negb cacheMap]. rewrite E.
      unfold get_resume, loadFromDisk, removeFromDisk.
      cbn [disk]. rewrite lookup_delete_eq. reflexivity.
    + split; [apply lookup_delete_eq|]. reflexivity.
Qed.

(** ** The sweep *)

Lemma filter_twice {A} (f g : A -> bool) (l : list A) :
  List.filter f (List.filter g l) = List.filter (fun x => g x && f x) l.
Proof.
  induction l as [|x l IH]; [reflexivity|]. simpl.
  destruct (g x); simpl; [destruct (f x); simpl; congruence|exact IH].
Qed.

Lemma sweep_fold_filter t : forall l m b,
  (fold_left (sweep_step t) l (m, b)).1
  = List.filter (fun q => negb (existsb (fun p => String.eqb p.1 q.1 && expired p.2 t) l)) m.
Proof.
  induction l as [|p l IH]; intros m b.
  - simpl. induction m as [|q m IHm]; [reflexivity|]. simpl. f_equal. exact IHm.
  - cbn [fold_left]. unfold sweep_step at 2. cbn [fst snd].
    destruct (expired p.2 t) eqn:E.
    + rewrite IH. unfold map_delete. rewrite filter_twice.
      apply List.filter_ext. intros q. cbn [existsb]. rewrite E, andb_true_r.
      rewrite negb_orb. rewrite (String.eqb_sym p.1 q.1). reflexivity.
    + rewrite IH. apply List.filter_ext. intros q. cbn [existsb]. rewrite E, andb_false_r.
      reflexivity.
Qed.

Lemma expired_among k e t m :
  nodup_keys m = true -> In (k, e) m ->
  existsb (fun p => String.eqb p.1 k && expired p.2 t) m = expired e t.
Proof.
  induction m as [|[k' e'] m IH]; [simpl; tauto|].
  intros Hnd Hin. simpl in Hnd. apply andb_true_iff in Hnd as [H1 H2].
  apply negb_true_iff in H1. cbn [existsb fst snd].
  destruct Hin as [[= -> ->] | Hin].
  - rewrite String.eqb_refl. cbn [andb].
    destruct (expired e t); [reflexivity|]. cbn [orb].
    apply not_true_is_false. intros Hx. apply existsb_exists in Hx as ([k2 e2] & I2 & Hx).
    apply andb_true_iff in Hx as [Hx _]. apply String.eqb_eq in Hx. simpl in Hx. subst k2.
    rewrite (In_map_has shaKey k e2 m I2) in H1. discriminate.
  - destruct (String.eqb k' k) eqn:E.
    + apply String.eqb_eq in E. subst k'. rewrite (In_map_has shaKey k e m Hin) in H1. discriminate.
    + cbn [andb orb]. apply IH; assumption.
Qed.

Lemma filter_length_le {A} (f : A -> bool) l : (List.length (List.filter f l) <= List.length l)%nat.
Proof. induction l as [|x l IH]; simpl; [lia|]. destruct (f x); simpl; lia. Qed.

Lemma sum_sizes_filter_le f m :
  nonneg m = true -> (sum_sizes (List.filter f m) <= sum_sizes m)%Z.
Proof.
  induction m as [|p m IH]; [simpl; lia|].
  intros H. simpl in H. apply andb_true_iff in H as [H1 H2]. apply Z.leb_le in H1.
  specialize (IH H2). cbn [List.filter]. destruct (f p); rewrite ?sum_sizes_cons; lia.
Qed.

(** X5: on a consistent state within the ceilings the background sweep
    at time [t] removes exactly the entries that are expired at [t]: the
    others stay, in their order, the byte counter is the sum of their
    sizes, and no file of the folder is removed. *)
Theorem sweep_removes_expired (s : state) (t : Z) :
  consistent s = true -> bounded s ->
  cacheMap (sweep maxItems maxBytes t s) = List.filter (live t) (cacheMap s)
  /\ currentBytes (sweep maxItems maxBytes t s)
     = sum_sizes (List.filter (live t) (cacheMap s))
  /\ disk (sweep maxItems maxBytes t s) = disk s.
Proof.
  intros Hc [Bi Bb]. apply consistent_iff in Hc as (Hnd & Hb & Hnn).
  pose proof (sweep_fold shaKey t (cacheMap s) (cacheMap s, currentBytes s)
                Hnd Hb Hnn Hnd (fun k e => In_map_get shaKey k e _ Hnd)) as F.
  cbv zeta in F. destruct F as (_ & F & _).
  pose proof (sweep_fold_filter t (cacheMap s) (cacheMap s) (currentBytes s)) as M.
  assert (L : List.filter
                (fun q => negb (existsb (fun p => String.eqb p.1 q.1 && expired p.2 t)
                                        (cacheMap s))) (cacheMap s)
              = List.filter (live t) (cacheMap s)).
  { apply List.filter_ext_in. intros [k e] Hin. unfold live. cbn [fst snd].
    rewrite (expired_among k e t _ Hnd Hin). reflexivity. }
  rewrite L in M. unfold sweep.
  destruct (fold_left (sweep_step t) (cacheMap s) (cacheMap s, currentBytes s)) as [m b].
  cbn [fst snd] in *. subst m b.
  unfold evictIfNeeded. cbn [cacheMap currentBytes disk].
  rewrite evict_loop_stay.
  - cbn [cacheMap currentBytes disk]. auto.
  - pose proof (filter_length_le (live t) (cacheMap s)). lia.
  - pose proof (sum_sizes_filter_le (live t) (cacheMap s) Hnn). lia.
Qed.

(** ** An entry loaded from the folder *)

(** X6: an entry that [get] loads from the folder is put into memory
    without an expiry, whatever time to live it was stored with: when it
    fits under the ceilings, a second [get], at any time, answers the
    same value from memory. *)
Theorem disk_revival_never_expires (s : state) (k : string) (v : jsval) (t1 t2 : Z) :
  consistent s = true -> Str.truthy k = true ->
  map_has k (cacheMap s) = false ->
  loadFromDisk shaKey k (disk s) = v -> not_nullish v = true ->
  (1 <= maxItems)%Z -> (estimateSize v <= maxBytes)%Z ->
  let r1 := get shaKey maxItems maxBytes k t1 s in
  let r2 := get shaKey maxItems maxBytes k t2 r1.2 in
  r1.1 = v
  /\ map_get k (cacheMap r1.2) = Some (Entry v (estimateSize v) None)
  /\ r2.1 = v.
Proof.
  intros Hc Hk Hf Hl Hv HI HB r1 r2.
  apply consistent_iff in Hc as (Hnd & Hb & Hnn).
  assert (G : map_get k (cacheMap s) = None).
  { rewrite map_has_get in Hf. destruct (map_get k (cacheMap s)); [discriminate|reflexivity]. }
  set (e := Entry v (estimateSize v) None).
  assert (R1 : r1.1 = v /\ exists m1, cacheMap r1.2 = m1 ++ [(k, e)]
                                     /\ nodup_keys (m1 ++ [(k, e)]) = true).
  { subst r1. unfold get, get_begin. rewrite Hk. cbn [negb]. rewrite G.
    unfold get_resume. rewrite Hl, Hv. cbn [fst snd]. split; [reflexivity|].
    pose proof (consistent_snoc k e _ _ Hnd Hb Hnn Hf (estimateSize_nonneg v)) as (S1 & S2 & S3).
    fold e. rewrite (map_set_fresh k e _ Hf) in *.
    unfold evictIfNeeded. cbn [cacheMap currentBytes disk].
    change (currentBytes s + estimateSize v)%Z with (currentBytes s + size e)%Z. rewrite S2.
    destruct (evict_loop_keeps_last maxItems maxBytes (k, e) (cacheMap s)
                (List.length (cacheMap s ++ [(k, e)])) HI HB S1) as (m1 & E & N).
    rewrite E. exists m1. cbn [cacheMap]. auto. }
  destruct R1 as (R1 & m1 & M1 & N1).
  assert (G1 : map_get k (cacheMap r1.2) = Some e).
  { rewrite M1. apply map_get_app_fresh. apply (nodup_snoc_fresh k e). exact N1. }
  split; [exact R1|]. split; [exact G1|].
  subst r2. unfold get, get_begin. rewrite Hk. cbn [negb]. rewrite G1.
  reflexivity.
Qed.

End Laws.

(** X1: calls that do not overlap keep the module's invariants.  After
    every run of get, set, del, clear and sweep from the freshly loaded
    module, over any cache folder: no key is held twice, [currentBytes]
    is the sum of the recorded sizes, and the state is within the
    ceilings of 500 items and 50 MiB. *)
Theorem sequential_runs_keep_invariants (shaKey : string -> string) (d : gmap string file)
        (ops : list op) :
  let s := run shaKey DEFAULT_MAX_ITEMS DEFAULT_MAX_BYTES ops (init d) in
  nodup_keys (cacheMap s) = true
  /\ currentBytes s = sum_sizes (cacheMap s)
  /\ (Z.of_nat (List.length (cacheMap s)) <= DEFAULT_MAX_ITEMS)%Z
  /\ (0 <= currentBytes s <= DEFAULT_MAX_BYTES)%Z.
Proof.
  intros s.
  assert (HI : (0 <= DEFAULT_MAX_ITEMS)%Z) by (unfold DEFAULT_MAX_ITEMS; lia).
  assert (HB : (0 <= DEFAULT_MAX_BYTES)%Z) by (unfold DEFAULT_MAX_BYTES; lia).
  assert (C0 : consistent (init d) = true) by reflexivity.
  assert (B0 : bounded DEFAULT_MAX_ITEMS DEFAULT_MAX_BYTES (init d)).
  { unfold bounded. simpl. lia. }
  destruct (run_consistent shaKey _ _ ops (init d) HI HB C0 B0) as [C [B1 B2]].
  fold s in C, B1, B2. apply consistent_iff in C as (Hnd & Hb & Hnn).
  pose proof (sum_sizes_nonneg _ Hnn) as Hs.
  split; [exact Hnd|]. split; [exact Hb|]. split; [exact B1|]. lia.
Qed.

Lemma evictIfNeeded_shortest_prefix_witness :
  consistent three_entries = true
  /\ exists dropped,
       cacheMap three_entries = dropped ++ cacheMap (evictIfNeeded 2 100 three_entries)
       /\ currentBytes (evictIfNeeded 2 100 three_entries)
          = sum_sizes (cacheMap (evictIfNeeded 2 100 three_entries))
       /\ disk (evictIfNeeded 2 100 three_entries) = disk three_entries
       /\ (cacheMap (evictIfNeeded 2 100 three_entries) = []
           \/ ~ over 2 100 (cacheMap (evictIfNeeded 2 100 three_entries)))
       /\ forall d1 d2, dropped = d1 ++ d2 -> d2 <> [] ->
            over 2 100 (d2 ++ cacheMap (evictIfNeeded 2 100 three_entries)).
Proof.
  split; [reflexivity|].
  exact (evictIfNeeded_shortest_prefix 2 100 three_entries eq_refl).
Defined.

Lemma set_oversize_flushes_witness :
  let r := set digest 2 3 "k" (JStr "four") 1000 0 true three_entries in
  r.1 = true /\ cacheMap r.2 = [] /\ currentBytes r.2 = 0%Z.
Proof.
  exact (set_oversize_flushes digest 2 3 three_entries "k" (JStr "four") 1000 0 true
           eq_refl eq_refl eq_refl).
Defined.

Lemma del_then_get_witness :
  let r := del digest "b" three_entries in
  r.1 = true
  /\ get digest 500 100 "b" 7 r.2 = (JNull, r.2)
  /\ disk r.2 !! filename digest "b" = None
  /\ forall k', k' <> "b" -> map_get k' (cacheMap r.2) = map_get k' (cacheMap three_entries).
Proof. exact (del_then_get digest 500 100 three_entries "b" 7 eq_refl). Defined.

Lemma sweep_removes_expired_witness :
  cacheMap (sweep 500 100 100 mixed_entries)
  = [("a", Entry (JStr "x") 1 (Some 200%Z)); ("c", Entry (JStr "z") 1 (Some 200%Z))]
  /\ currentBytes (sweep 500 100 100 mixed_entries) = 2%Z.
Proof.
  destruct (sweep_removes_expired digest 500 100 mixed_entries 100 eq_refl
              ltac:(split; simpl; lia)) as (H1 & H2 & _).
  split; [rewrite H1|rewrite H2]; reflexivity.
Defined.

Lemma disk_revival_never_expires_witness :
  let d := disk (set digest 500 100 "k" (JStr "v") 1000 0 true (init ∅)).2 in
  let v := JObj [("value", JStr "v");
                 ("meta", JObj [("ttl", JNum 1000); ("storedAt", JNum 0)])] in
  (get digest 500 100 "k" 1 (init d)).1 = v
  /\ (get digest 500 100 "k" 999999 (get digest 500 100 "k" 1 (init d)).2).1 = v.
Proof.
  intros d v.
  assert (L : loadFromDisk digest "k" (disk (init d)) = v) by (vm_compute; reflexivity).
  assert (B : (estimateSize v <= 100)%Z) by (vm_compute; discriminate).
  destruct (disk_revival_never_expires digest 500 100 (init d) "k" v 1 999999
              eq_refl eq_refl eq_refl L eq_refl ltac:(lia) B) as (H1 & _ & H2).
  split; [exact H1|exact H2].
Defined.

End CacheLaws.

(* ===================================================================== *)
(** * Laws of the fetcher *)
(* ===================================================================== *)

Module FetcherLaws.
Import Str Js Fetcher Runs.

Ltac cmp := symmetry; rewrite ?Z.leb_le, ?Z.leb_gt, ?Z.ltb_lt, ?Z.ltb_ge; lia.

Lemma open_fetch a : open_trace a ++ [EFetch (Z.of_nat a + 1)] = schedule (S a).
Proof.
  destruct a as [|a]; [reflexivity|].
  unfold open_trace. cbn [schedule]. rewrite <- app_assoc. cbn [app].
  replace (Z.of_nat (S a) + 1)%Z with (Z.of_nat (S (S a))) by lia. reflexivity.
Qed.

Lemma open_next a :
  schedule (S a) ++ [ESleep (BACKOFF_BASE * (Z.of_nat a + 1))] = open_trace (S a).
Proof.
  unfold open_trace. replace (Z.of_nat (S a)) with (Z.of_nat a + 1)%Z by lia. reflexivity.
Qed.

Lemma log_throws method : log method = Some (TypeErr method).
Proof. reflexivity. Qed.

Section Loop.
Variable up : upstream.
Variable retries : Z.
Hypothesis retries_nonneg : (0 <= retries)%Z.

Let R : nat := Z.to_nat retries.

Local Abbreviation at_ i := (up (Z.of_nat i)).

(** One turn of the loop of [fetchText]: it returns the body of a good
    attempt, waits and goes on after an answer 5xx that is not the last
    attempt, and throws from the catch clause otherwise. *)
Lemma text_loop_step n a e :
  (Z.of_nat a <= retries)%Z ->
  exists e',
    text_loop (S n) up retries (Z.of_nat a) e (open_trace a)
    = if good (at_ (S a)) then (Returned (JStr (body_text (at_ (S a)))), schedule (S a))
      else if retryable (at_ (S a)) && (Z.of_nat (S a) <=? retries)%Z
      then text_loop n up retries (Z.of_nat (S a)) e' (open_trace (S a))
      else (Thrown (TypeErr "logWarn"), schedule (S a)).
Proof.
  intros Ha. cbn [text_loop]. replace (Z.of_nat a <=? retries)%Z with true by cmp.
  rewrite (open_fetch a), open_next, log_throws.
  replace (Z.of_nat (S a)) with (Z.of_nat a + 1)%Z by lia.
  destruct (up (Z.of_nat a + 1)%Z) as [status statusText hs chunks body_ok|message];
    cbn [good body_text retryable].
  - destruct (ok status); cbn [negb andb].
    + destruct body_ok; exists e; reflexivity.
    + eexists. destruct ((status >=? 500)%Z && (Z.of_nat a + 1 <=? retries)%Z); reflexivity.
  - exists e. reflexivity.
Qed.

(** The loop returns at the first good attempt when the attempts before
    it were answered 5xx. *)
Lemma text_loop_first_good n : forall a e j,
  (a < j <= R + 1)%nat -> (j - a <= n)%nat ->
  (forall i, (a < i < j)%nat -> retryable (at_ i) = true) -> good (at_ j) = true ->
  text_loop n up retries (Z.of_nat a) e (open_trace a)
  = (Returned (JStr (body_text (at_ j))), schedule j).
Proof.
  induction n as [|n IH]; intros a e j Hj Hn Hre Hgood; [lia|].
  destruct (text_loop_step n a e ltac:(subst R; lia)) as (e' & ->).
  destruct (Nat.eq_dec j (S a)) as [->|Hne].
  - rewrite Hgood. reflexivity.
  - pose proof (Hre (S a) ltac:(lia)) as Hr.
    assert (G : good (at_ (S a)) = false).
    { unfold retryable, good in *. destruct (at_ (S a)); [|discriminate].
      apply andb_true_iff in Hr as [H _]. apply negb_true_iff in H. rewrite H. reflexivity. }
    rewrite G, Hr. replace (Z.of_nat (S a) <=? retries)%Z with true by (subst R; cmp).
    cbn [andb]. apply IH; try lia; [|exact Hgood].
    intros i Hi. apply Hre. lia.
Qed.

(** The loop throws from the catch clause at the first attempt that is
    neither good nor an answer 5xx with attempts left. *)
Lemma text_loop_first_bad n : forall a e j,
  (a < j <= R + 1)%nat -> (j - a <= n)%nat ->
  (forall i, (a < i < j)%nat -> retryable (at_ i) = true) ->
  good (at_ j) = false -> (retryable (at_ j) = false \/ j = (R + 1)%nat) ->
  text_loop n up retries (Z.of_nat a) e (open_trace a)
  = (Thrown (TypeErr "logWarn"), schedule j).
Proof.
  induction n as [|n IH]; intros a e j Hj Hn Hre Hbad Hlast; [lia|].
  destruct (text_loop_step n a e ltac:(subst R; lia)) as (e' & ->).
  destruct (Nat.eq_dec j (S a)) as [->|Hne].
  - rewrite Hbad. destruct Hlast as [-> | Hl]; [reflexivity|].
    replace (Z.of_nat (S a) <=? retries)%Z with false by (subst R; cmp).
    rewrite andb_false_r. reflexivity.
  - pose proof (Hre (S a) ltac:(lia)) as Hr.
    assert (G : good (at_ (S a)) = false).
    { unfold retryable, good in *. destruct (at_ (S a)); [|discriminate].
      apply andb_true_iff in Hr as [H _]. apply negb_true_iff in H. rewrite H. reflexivity. }
    rewrite G, Hr. replace (Z.of_nat (S a) <=? retries)%Z with true by (subst R; cmp).
    cbn [andb]. apply IH; try lia; assumption || (intros i Hi; apply Hre; lia).
Qed.

(** ** The loop of streamToResponse *)

Variable url : string.
Variable o : options.
Variable res : response.

Lemma stream_loop_step n a e :
  (Z.of_nat a <= retries)%Z ->
  exists e',
    stream_loop (S n) url up o retries (Z.of_nat a) e (open_trace a) res
    = match at_ (S a) with
      | Resolved status _ hs chunks body_ok =>
          if ok status then
            let '(res2, v, en) :=
              stream_body o hs chunks body_ok
                {| statusCode := statusCode res;
                   resHeaders := resHeaders res ++ allowed_headers hs;
                   written := written res; ended := ended res |} in
            (res2, schedule (S a), v, en)
          else if (status >=? 500)%Z && (Z.of_nat (S a) <=? retries)%Z then
            stream_loop n url up o retries (Z.of_nat (S a)) e' (open_trace (S a)) res
          else (send status ("Upstream error: " +:+ Z_to_string status) res, schedule (S a),
                None, Resolves)
      | Rejected message => (res, schedule (S a), None, Rejects (TypeErr "logWarn"))
      end.
Proof.
  intros Ha. cbn [stream_loop]. replace (Z.of_nat a <=? retries)%Z with true by cmp.
  rewrite (open_fetch a), open_next, log_throws.
  replace (Z.of_nat (S a)) with (Z.of_nat a + 1)%Z by lia.
  destruct (up (Z.of_nat a + 1)%Z) as [status statusText hs chunks body_ok|message].
  - destruct (ok status); cbn [negb].
    + exists e. reflexivity.
    + eexists. destruct ((status >=? 500)%Z && (Z.of_nat a + 1 <=? retries)%Z); reflexivity.
  - exists e. reflexivity.
Qed.

(** The attempts before [j] are answered 5xx, so the loop reaches
    attempt [j]. *)
Lemma stream_loop_skip n : forall a e j,
  (a < j <= R + 1)%nat -> (j - a <= n)%nat ->
  (forall i, (a < i < j)%nat -> retryable (at_ i) = true) ->
  exists e',
    stream_loop n url up o retries (Z.of_nat a) e (open_trace a) res
    = stream_loop (S (n - (j - a))) url up o retries (Z.of_nat (j - 1)) e'
                  (open_trace (j - 1)) res.
Proof.
  induction n as [|n IH]; intros a e j Hj Hn Hre; [lia|].
  destruct (Nat.eq_dec j (S a)) as [->|Hne].
  - exists e. replace (S a - 1)%nat with a by lia.
    replace (S (S n - (S a - a)))%nat with (S n) by lia. reflexivity.
  - destruct (stream_loop_step n a e ltac:(subst R; lia)) as (e1 & ->).
    pose proof (Hre (S a) ltac:(lia)) as Hr. unfold retryable in Hr.
    destruct (at_ (S a)) as [status statusText hs chunks body_ok|message]; [|discriminate].
    apply andb_true_iff in Hr as [H1 H2]. apply negb_true_iff in H1. rewrite H1, H2.
    replace (Z.of_nat (S a) <=? retries)%Z with true by (subst R; cmp).
    cbn [andb]. destruct (IH (S a) e1 j) as (e' & E); try lia.
    + intros i Hi. apply Hre. lia.
    + exists e'. rewrite E. f_equal. lia.
Qed.

End Loop.

Section Calls.
Variable sha256 : string -> string.

Local Abbreviation textKey url := (cacheKeyFor sha256 url "text").
Local Abbreviation streamKey url := (cacheKeyFor sha256 url "stream").

(** With nothing usable in the cache both calls go to their loop. *)
Lemma fetchText_on_miss url o up now c :
  isValidUrl url = true ->
  (useCache o = true -> (cache_get sha256 (textKey url) now c).1 = JNull) ->
  fetchText sha256 url o up now c
  = let c1 := if useCache o then (cache_get sha256 (textKey url) now c).2 else c in
    let (r, tr) := text_loop (Z.to_nat (retries_of o + 1)) up (retries_of o) 0 Undef [] in
    match r with
    | Returned text =>
        (r, tr,
         if useCache o then (cache_set sha256 (textKey url) text (ttl_ms o) now true c1).2
         else c1)
    | Thrown _ => (r, tr, c1)
    end.
Proof.
  intros Hv Hmiss. unfold fetchText. rewrite Hv. cbn [negb].
  destruct (useCache o) eqn:U.
  - specialize (Hmiss eq_refl).
    destruct (cache_get sha256 (textKey url) now c) as [cached c1]. cbn [fst snd] in *.
    subst cached. reflexivity.
  - reflexivity.
Qed.

Lemma streamToResponse_on_miss url res o up now c :
  isValidUrl url = true ->
  (useCache o = true -> (cache_get sha256 (streamKey url) now c).1 = JNull) ->
  streamToResponse sha256 url res o up now c
  = let c1 := if useCache o then (cache_get sha256 (streamKey url) now c).2 else c in
    match stream_loop (Z.to_nat (retries_of o + 1)) url up o (retries_of o) 0 Undef [] res
    with
    | (res1, tr, Some v, e) =>
        (res1, tr, (cache_set sha256 (streamKey url) v (ttl_ms o) now true c1).2, e)
    | (res1, tr, None, e) => (res1, tr, c1, e)
    end.
Proof.
  intros Hv Hmiss. unfold streamToResponse. rewrite Hv. cbn [negb].
  destruct (useCache o) eqn:U.
  - specialize (Hmiss eq_refl).
    destruct (cache_get sha256 (streamKey url) now c) as [cached c1]. cbn [fst snd] in *.
    subst cached. reflexivity.
  - reflexivity.
Qed.

(** X7: [fetchText] answers with the first good attempt.  For a valid
    URL, nothing usable in the cache and a number of retries that is not
    negative: when the attempts before attempt [j], one of the
    [retries + 1] allowed, were all answered with a status of 500 or
    above and attempt [j] brings a 2xx answer with a readable body,
    [fetchText] returns that body after exactly [j] calls of [fetch], each
    of the earlier ones followed by a wait of [300 * i] milliseconds. *)
Theorem fetchText_returns_first_good (url : string) (o : options) (up : upstream)
        (now : Z) (c : Cache.state) (j : nat) :
  isValidUrl url = true ->
  (useCache o = true -> (cache_get sha256 (textKey url) now c).1 = JNull) ->
  (0 <= retries_of o)%Z ->
  (1 <= j <= Z.to_nat (retries_of o) + 1)%nat ->
  (forall i, (1 <= i < j)%nat -> retryable (up (Z.of_nat i)) = true) ->
  good (up (Z.of_nat j)) = true ->
  (fetchText sha256 url o up now c).1
  = (Returned (JStr (body_text (up (Z.of_nat j)))), schedule j).
Proof.
  intros Hv Hmiss Hr Hj Hre Hgood. rewrite (fetchText_on_miss url o up now c Hv Hmiss).
  cbv zeta.
  assert (L : text_loop (Z.to_nat (retries_of o + 1)) up (retries_of o) 0 Undef []
              = (Returned (JStr (body_text (up (Z.of_nat j)))), schedule j)).
  { apply (text_loop_first_good up (retries_of o) Hr (Z.to_nat (retries_of o + 1)) 0 Undef j);
      try lia; [|exact Hgood].
    intros i Hi. apply Hre. lia. }
  rewrite L. reflexivity.
Qed.

(** X8: a failure of [fetchText] is a TypeError.  For a valid URL,
    nothing usable in the cache and a number of retries that is not
    negative: when the attempts before attempt [j] were all answered with
    a status of 500 or above, and attempt [j] is rejected, is answered
    with a status outside 2xx that is below 500, has a body that cannot
    be read, or is the last attempt allowed and not good, then
    [fetchText] throws the TypeError of the call of [logger.logWarn] right
    after attempt [j]: the error of the attempt is not thrown, no wait and
    no further attempt follow, and the cache is left as the lookup left
    it. *)
Theorem fetchText_failure_throws_TypeError (url : string) (o : options) (up : upstream)
        (now : Z) (c : Cache.state) (j : nat) :
  isValidUrl url = true ->
  (useCache o = true -> (cache_get sha256 (textKey url) now c).1 = JNull) ->
  (0 <= retries_of o)%Z ->
  (1 <= j <= Z.to_nat (retries_of o) + 1)%nat ->
  (forall i, (1 <= i < j)%nat -> retryable (up (Z.of_nat i)) = true) ->
  good (up (Z.of_nat j)) = false ->
  (retryable (up (Z.of_nat j)) = false \/ j = (Z.to_nat (retries_of o) + 1)%nat) ->
  fetchText sha256 url o up now c
  = (Thrown (TypeErr "logWarn"), schedule j,
     if useCache o then (cache_get sha256 (textKey url) now c).2 else c).
Proof.
  intros Hv Hmiss Hr Hj Hre Hbad Hlast. rewrite (fetchText_on_miss url o up now c Hv Hmiss).
  cbv zeta.
  assert (L : text_loop (Z.to_nat (retries_of o + 1)) up (retries_of o) 0 Undef []
              = (Thrown (TypeErr "logWarn"), schedule j)).
  { apply (text_loop_first_bad up (retries_of o) Hr (Z.to_nat (retries_of o + 1)) 0 Undef j);
      try lia; [|exact Hbad|exact Hlast].
    intros i Hi. apply Hre. lia. }
  rewrite L. reflexivity.
Qed.

(** X9: [streamToResponse] passes a failure status of the upstream on.
    When the attempts before [j] were all answered with a status of 500
    or above, and attempt [j] is answered with a status outside 2xx that
    is below 500 or comes on the last allowed attempt, the response gets
    that status with the text Upstream error: <status> after exactly [j]
    calls of [fetch], the promise resolves, and nothing is written to the
    cache. *)
Theorem streamToResponse_passes_status (url : string) (res : response) (o : options)
        (up : upstream) (now : Z) (c : Cache.state) (j : nat)
        (status : Z) (statusText : string) (hs : list (string * string))
        (chunks : list string) (body_ok : bool) :
  isValidUrl url = true ->
  (useCache o = true -> (cache_get sha256 (streamKey url) now c).1 = JNull) ->
  (0 <= retries_of o)%Z ->
  (1 <= j <= Z.to_nat (retries_of o) + 1)%nat ->
  (forall i, (1 <= i < j)%nat -> retryable (up (Z.of_nat i)) = true) ->
  up (Z.of_nat j) = Resolved status statusText hs chunks body_ok ->
  ok status = false ->
  ((status < 500)%Z \/ j = (Z.to_nat (retries_of o) + 1)%nat) ->
  streamToResponse sha256 url res o up now c
  = (send status ("Upstream error: " +:+ Z_to_string status) res, schedule j,
     (if useCache o then (cache_get sha256 (streamKey url) now c).2 else c), Resolves).
Proof.
  intros Hv Hmiss Hr Hj Hre Hup Hok Hlast.
  rewrite (streamToResponse_on_miss url res o up now c Hv Hmiss). cbv zeta.
  assert (L : stream_loop (Z.to_nat (retries_of o + 1)) url up o (retries_of o) 0 Undef [] res
              = (send status ("Upstream error: " +:+ Z_to_string status) res, schedule j, None,
                 Resolves)).
  { destruct (stream_loop_skip up (retries_of o) Hr url o res (Z.to_nat (retries_of o + 1))
                0 Undef j) as (e' & E); try lia.
    { intros i Hi. apply Hre. lia. }
    change (stream_loop (Z.to_nat (retries_of o + 1)) url up o (retries_of o) 0 Undef [] res)
      with (stream_loop (Z.to_nat (retries_of o + 1)) url up o (retries_of o) (Z.of_nat 0)
                        Undef (open_trace 0) res).
    rewrite E.
    destruct (stream_loop_step up (retries_of o) url o res
                (Z.to_nat (retries_of o + 1) - (j - 0)) (j - 1) e' ltac:(lia)) as (e2 & ->).
    replace (S (j - 1)) with j by lia. rewrite Hup, Hok.
    destruct Hlast as [Hlt | ->].
    - replace (status >=? 500)%Z with false by (symmetry; rewrite Z.geb_leb, Z.leb_gt; lia).
      reflexivity.
    - replace (Z.of_nat (Z.to_nat (retries_of o) + 1) <=? retries_of o)%Z with false by cmp.
      rewrite andb_false_r. reflexivity. }
  rewrite L. reflexivity.
Qed.

(** X10: a rejected call of [fetch] makes [streamToResponse] reject.
    When the attempts before [j] were all answered with a status of 500
    or above and attempt [j] is rejected (a time-out, a reset connection),
    the promise of [streamToResponse] rejects with the TypeError of the
    call of [logger.logWarn] right after attempt [j]: nothing is sent to
    the response, status 502 included, no further attempt is made, and
    nothing is written to the cache. *)
Theorem streamToResponse_rejects_on_failed_fetch (url : string) (res : response)
        (o : options) (up : upstream) (now : Z) (c : Cache.state) (j : nat)
        (message : string) :
  isValidUrl url = true ->
  (useCache o = true -> (cache_get sha256 (streamKey url) now c).1 = JNull) ->
  (0 <= retries_of o)%Z ->
  (1 <= j <= Z.to_nat (retries_of o) + 1)%nat ->
  (forall i, (1 <= i < j)%nat -> retryable (up (Z.of_nat i)) = true) ->
  up (Z.of_nat j) = Rejected message ->
  streamToResponse sha256 url res o up now c
  = (res, schedule j,
     (if useCache o then (cache_get sha256 (streamKey url) now c).2 else c),
     Rejects (TypeErr "logWarn")).
Proof.
  intros Hv Hmiss Hr Hj Hre Hup.
  rewrite (streamToResponse_on_miss url res o up now c Hv Hmiss). cbv zeta.
  assert (L : stream_loop (Z.to_nat (retries_of o + 1)) url up o (retries_of o) 0 Undef [] res
              = (res, schedule j, None, Rejects (TypeErr "logWarn"))).
  { destruct (stream_loop_skip up (retries_of o) Hr url o res (Z.to_nat (retries_of o + 1))
                0 Undef j) as (e' & E); try lia.
    { intros i Hi. apply Hre. lia. }
    change (stream_loop (Z.to_nat (retries_of o + 1)) url up o (retries_of o) 0 Undef [] res)
      with (stream_loop (Z.to_nat (retries_of o + 1)) url up o (retries_of o) (Z.of_nat 0)
                        Undef (open_trace 0) res).
    rewrite E.
    destruct (stream_loop_step up (retries_of o) url o res
                (Z.to_nat (retries_of o + 1) - (j - 0)) (j - 1) e' ltac:(lia)) as (e2 & ->).
    replace (S (j - 1)) with j by lia. rewrite Hup. reflexivity. }
  rewrite L. reflexivity.
Qed.

(** ** The headers forwarded *)

Lemma allowed_headers_in h v hs :
  In (h, v) (allowed_headers hs) ->
  In h headerWhitelist /\ header_get h hs = Some v /\ Str.truthy v = true.
Proof.
  unfold allowed_headers. intros H. apply in_flat_map in H as (h0 & Hw & H).
  destruct (header_get h0 hs) as [v0|] eqn:G; [|destruct H].
  destruct (Str.truthy v0) eqn:T; [|destruct H].
  destruct H as [[= <- <-]|[]]. auto.
Qed.


Lemma stream_body_headers o hs chunks body_ok res1 :
  resHeaders (stream_body o hs chunks body_ok res1).1.1 = resHeaders res1.
Proof.
  unfold stream_body. rewrite !log_throws.
  destruct (useCache o); [|reflexivity].
  destruct body_ok; [|reflexivity].
  destruct (capture _ chunks [] (Some 0%Z)) as [kept [len|]];
    [destruct (0 <? len)%Z|]; reflexivity.
Qed.

Lemma stream_loop_headers url up o retries n : forall attempt e tr res,
  resHeaders (stream_loop n url up o retries attempt e tr res).1.1.1 = resHeaders res
  \/ exists i status statusText hs chunks body_ok,
       up i = Resolved status statusText hs chunks body_ok /\ ok status = true
       /\ resHeaders (stream_loop n url up o retries attempt e tr res).1.1.1
          = resHeaders res ++ allowed_headers hs.
Proof.
  induction n as [|n IH]; intros attempt e tr res; [left; reflexivity|].
  cbn [stream_loop]. rewrite !log_throws.
  destruct (attempt <=? retries)%Z; [|left; reflexivity].
  destruct (up (attempt + 1)%Z) as [status statusText hs chunks body_ok|message] eqn:U.
  - destruct (ok status) eqn:K; cbn [negb].
    + right. exists (attempt + 1)%Z, status, statusText, hs, chunks, body_ok.
      split; [exact U|]. split; [exact K|].
      pose proof (stream_body_headers o hs chunks body_ok
                    {| statusCode := statusCode res;
                       resHeaders := resHeaders res ++ allowed_headers hs;
                       written := written res; ended := ended res |}) as H.
      destruct (stream_body _ _ _ _ _) as [[res2 v] en]. exact H.
    + destruct ((status >=? 500)%Z && (attempt + 1 <=? retries)%Z); [apply IH|].
      left. reflexivity.
  - left. reflexivity.
Qed.

(** X11: the only headers [streamToResponse] adds to the response
    when it does not answer from the cache are headers of the allow-list
    (content-type, content-length, last-modified, etag, cache-control)
    with the non-empty value that a 2xx answer of the upstream gave them. *)
Theorem streamToResponse_forwards_allowlisted_headers (url : string) (res : response)
        (o : options) (up : upstream) (now : Z) (c : Cache.state) (h v : string) :
  (useCache o = true -> (cache_get sha256 (streamKey url) now c).1 = JNull) ->
  In (h, v) (resHeaders (streamToResponse sha256 url res o up now c).1.1.1) ->
  In (h, v) (resHeaders res)
  \/ (In h headerWhitelist /\ v <> EmptyString
      /\ exists i status statusText hs chunks body_ok,
           up i = Resolved status statusText hs chunks body_ok /\ ok status = true
           /\ header_get h hs = Some v).
Proof.
  intros Hmiss.
  destruct (isValidUrl url) eqn:Hv;
    [|unfold streamToResponse; rewrite Hv; cbn; auto].
  rewrite (streamToResponse_on_miss url res o up now c Hv Hmiss). cbv zeta.
  assert (L : In (h, v) (resHeaders
               (stream_loop (Z.to_nat (retries_of o + 1)) url up o (retries_of o) 0 Undef []
                            res).1.1.1) ->
              In (h, v) (resHeaders res)
              \/ (In h headerWhitelist /\ v <> EmptyString
                  /\ exists i status statusText hs chunks body_ok,
                       up i = Resolved status statusText hs chunks body_ok /\ ok status = true
                       /\ header_get h hs = Some v)).
  { destruct (stream_loop_headers url up o (retries_of o) (Z.to_nat (retries_of o + 1)) 0
                Undef [] res)
      as [E | (i & status & statusText & hs & chunks & body_ok & U & K & E)]; rewrite E.
    - auto.
    - intros H. apply in_app_or in H as [H|H]; [auto|]. right.
      apply allowed_headers_in in H as (H1 & H2 & H3).
      split; [exact H1|]. split; [intros ->; discriminate|].
      exists i, status, statusText, hs, chunks, body_ok. auto. }
  destruct (stream_loop _ _ _ _ _ _ _ _ _) as [[[res1 tr] [v0|]] en]; cbn [fst snd] in *;
    exact L.
Qed.

(** ** What is captured for the cache *)

Lemma length_append (a b : string) :
  String.length (a +:+ b) = (String.length a + String.length b)%nat.
Proof. induction a as [|x a IH]; [reflexivity|]. simpl. rewrite IH. reflexivity. Qed.

Lemma append_empty (x : string) : x +:+ EmptyString = x.
Proof.
  induction x as [|a x IH]; [reflexivity|].
  change (String a (x +:+ EmptyString) = String a x). rewrite IH. reflexivity.
Qed.

Lemma concat_cons (x : string) (l : list string) :
  String.concat EmptyString (x :: l) = x +:+ String.concat EmptyString l.
Proof. destruct l as [|y l]; [|reflexivity]. simpl. symmetry. apply append_empty. Qed.

Lemma append_assoc (a b c : string) : (a +:+ b) +:+ c = a +:+ (b +:+ c).
Proof.
  induction a as [|x a IH]; [reflexivity|].
  change (String x ((a +:+ b) +:+ c) = String x (a +:+ (b +:+ c))). rewrite IH. reflexivity.
Qed.

Lemma concat_app (l1 l2 : list string) :
  String.concat EmptyString (l1 ++ l2)
  = String.concat EmptyString l1 +:+ String.concat EmptyString l2.
Proof.
  induction l1 as [|x l1 IH]; [reflexivity|].
  change ((x :: l1) ++ l2) with (x :: (l1 ++ l2)).
  rewrite !concat_cons, IH, append_assoc. reflexivity.
Qed.

Lemma total_cons x l : total (x :: l) = (Z.of_nat (String.length x) + total l)%Z.
Proof. unfold total. rewrite concat_cons, length_append. lia. Qed.

Lemma total_nonneg l : (0 <= total l)%Z.
Proof. unfold total. lia. Qed.

Lemma capture_passed limit chunks : forall kept,
  (capture limit chunks kept None).2 = None.
Proof. induction chunks as [|x t IH]; intros kept; [reflexivity|]. cbn. apply IH. Qed.

Lemma capture_fits limit chunks : forall kept l,
  (l + total chunks <= limit)%Z ->
  capture limit chunks kept (Some l) = (kept ++ chunks, Some (l + total chunks)%Z).
Proof.
  induction chunks as [|x t IH]; intros kept l H.
  - cbn [capture]. rewrite app_nil_r. unfold total. simpl. rewrite Z.add_0_r. reflexivity.
  - cbn [capture]. rewrite total_cons in *. pose proof (total_nonneg t).
    replace (l + Z.of_nat (String.length x) <=? limit)%Z with true by cmp.
    rewrite IH by lia. rewrite <- app_assoc. cbn [app]. do 2 f_equal. lia.
Qed.

Lemma capture_overflows limit chunks : forall kept l,
  (l <= limit)%Z -> (limit < l + total chunks)%Z ->
  (capture limit chunks kept (Some l)).2 = None.
Proof.
  induction chunks as [|x t IH]; intros kept l Hl H.
  - unfold total in H. simpl in H. lia.
  - cbn [capture]. rewrite total_cons in H.
    destruct (l + Z.of_nat (String.length x) <=? limit)%Z eqn:E.
    + apply Z.leb_le in E. apply IH; lia.
    + apply capture_passed.
Qed.

Lemma captured_spec o hs chunks body_ok :
  useCache o = true ->
  captured o hs chunks body_ok
  = if body_ok && (0 <? total chunks)%Z && (total chunks <=? capture_limit o)%Z
    then Some (JObj [("headers", JObj (map (fun kv => (kv.1, JStr kv.2)) (allowed_headers hs)));
                     ("body", JBuffer (String.concat EmptyString chunks))])
    else None.
Proof.
  intros U. unfold captured. rewrite U.
  destruct (Z.le_gt_cases (total chunks) (capture_limit o)) as [Hfit | Hover].
  - rewrite (capture_fits (capture_limit o) chunks [] 0%Z) by lia.
    cbn [app]. rewrite Z.add_0_l.
    replace (total chunks <=? capture_limit o)%Z with true by cmp.
    rewrite andb_true_r. reflexivity.
  - replace (total chunks <=? capture_limit o)%Z with false by cmp.
    rewrite andb_false_r.
    destruct (Z.le_gt_cases 0 (capture_limit o)) as [H0 | H0].
    + pose proof (capture_overflows (capture_limit o) chunks [] 0%Z H0 ltac:(lia)) as H.
      destruct (capture _ chunks [] (Some 0%Z)) as [kept len]. cbn [snd] in H.
      subst len. reflexivity.
    + destruct chunks as [|x t].
      * cbn [capture]. cbn [Z.ltb Z.compare]. rewrite andb_false_r. reflexivity.
      * cbn [capture].
        replace (0 + Z.of_nat (String.length x) <=? capture_limit o)%Z with false by cmp.
        pose proof (capture_passed (capture_limit o) t []) as H.
        destruct (capture _ t [] None) as [kept len]. cbn [snd] in H. subst len. reflexivity.
Qed.


(** What the listeners of the body do, by cases. *)
Lemma stream_body_spec o hs chunks body_ok res1 :
  useCache o = true ->
  stream_body o hs chunks body_ok res1
  = ({| statusCode := statusCode res1; resHeaders := resHeaders res1;
        written := written res1 ++ chunks; ended := ended res1 || body_ok |},
     captured o hs chunks body_ok,
     if body_ok
     then match captured o hs chunks body_ok with
          | Some _ => Uncaught (TypeErr "logWarn")
          | None => Resolves
          end
     else Uncaught (TypeErr "logError")).
Proof.
  intros U. unfold stream_body, captured, capture_limit. rewrite U, !log_throws.
  destruct body_ok.
  - rewrite orb_true_r.
    destruct (capture _ chunks [] (Some 0%Z)) as [kept [len|]];
      [cbn [andb]; destruct (0 <? len)%Z|]; reflexivity.
  - rewrite orb_false_r.
    destruct (capture _ chunks [] (Some 0%Z)) as [kept [len|]]; reflexivity.
Qed.

(** X12: after a 2xx answer on the first attempt, with the cache in use
    and a miss, the response carries the allow-listed headers and every
    chunk of the body, and it is ended only when the body was read to
    the end.  The cache is written exactly when the body was read to the
    end, is not empty and is no longer than the capture limit (1 MiB by
    default), and then it gets the allow-listed headers with the whole
    body.  The promise resolves; after a write to the cache the listener
    of the end of the stream fails with the TypeError of
    [logger.logWarn], and after an error of the stream the listener of
    the error fails with that of [logger.logError], which nothing
    catches. *)
Theorem streamToResponse_caches_what_fits (url : string) (res : response) (o : options)
        (up : upstream) (now : Z) (c : Cache.state)
        (status : Z) (statusText : string) (hs : list (string * string))
        (chunks : list string) (body_ok : bool) :
  isValidUrl url = true -> useCache o = true ->
  (cache_get sha256 (streamKey url) now c).1 = JNull ->
  (0 <= retries_of o)%Z ->
  up 1%Z = Resolved status statusText hs chunks body_ok -> ok status = true ->
  let c1 := (cache_get sha256 (streamKey url) now c).2 in
  let entry := JObj [("headers",
                      JObj (map (fun kv => (kv.1, JStr kv.2)) (allowed_headers hs)));
                     ("body", JBuffer (String.concat EmptyString chunks))] in
  let fits := body_ok && (0 <? total chunks)%Z && (total chunks <=? capture_limit o)%Z in
  streamToResponse sha256 url res o up now c
  = ({| statusCode := statusCode res;
        resHeaders := resHeaders res ++ allowed_headers hs;
        written := written res ++ chunks; ended := ended res || body_ok |},
     [EFetch 1],
     (if fits then (cache_set sha256 (streamKey url) entry (ttl_ms o) now true c1).2 else c1),
     if body_ok then (if fits then Uncaught (TypeErr "logWarn") else Resolves)
     else Uncaught (TypeErr "logError")).
Proof.
  intros Hv U Hmiss Hr Hup Hok c1 entry fits. subst c1 fits.
  rewrite (streamToResponse_on_miss url res o up now c Hv (fun _ => Hmiss)). cbv zeta.
  rewrite U.
  change (stream_loop (Z.to_nat (retries_of o + 1)) url up o (retries_of o) 0 Undef [] res)
    with (stream_loop (Z.to_nat (retries_of o + 1)) url up o (retries_of o) (Z.of_nat 0)
                      Undef (open_trace 0) res).
  replace (Z.to_nat (retries_of o + 1)) with (S (Z.to_nat (retries_of o))) by lia.
  destruct (stream_loop_step up (retries_of o) url o res (Z.to_nat (retries_of o)) 0 Undef
              ltac:(lia)) as (e' & ->).
  change (Z.of_nat 1) with 1%Z.
  rewrite Hup, Hok, (stream_body_spec o hs chunks body_ok _ U),
    (captured_spec o hs chunks body_ok U).
  cbn [statusCode resHeaders written ended schedule]. fold entry.
  destruct (body_ok && (0 <? total chunks)%Z && (total chunks <=? capture_limit o)%Z) eqn:F.
  - assert (B : body_ok = true).
    { apply andb_true_iff in F as [F _]. apply andb_true_iff in F as [F _]. exact F. }
    rewrite B. reflexivity.
  - destruct body_ok; reflexivity.
Qed.

(** ** The cache filled by fetchText *)

(** X13: a text that [fetchText] fetched from the upstream and stored
    is not served when it is asked for again.  With a consistent cache
    within its ceilings and a non-empty text of at most 50 MiB: a second
    call for the same URL, up to [ttl] seconds (60 by default) later,
    finds the text in the cache and then throws the TypeError of the call
    of [logger.logWarn], without a call of [fetch], whatever the upstream
    would answer. *)
Theorem fetchText_cache_hit_throws (url : string) (o : options) (up up' : upstream)
        (now now' : Z) (c : Cache.state) (text : string) :
  (forall x, Str.truthy (sha256 x) = true) ->
  Cache.consistent c = true ->
  Cache.bounded Cache.DEFAULT_MAX_ITEMS Cache.DEFAULT_MAX_BYTES c ->
  useCache o = true ->
  (fetchText sha256 url o up now c).1.1 = Returned (JStr text) ->
  text <> EmptyString ->
  (Z.of_nat (String.length text) <= Cache.DEFAULT_MAX_BYTES)%Z ->
  (now' <= now + ttl_ms o)%Z ->
  (fetchText sha256 url o up' now' (fetchText sha256 url o up now c).2).1
  = (Thrown (TypeErr "logWarn"), [])
  /\ (cache_get sha256 (textKey url) now' (fetchText sha256 url o up now c).2).1 = JStr text.
Proof.
  intros Hsha Hc Hb U Hret Htext Hsize Hnow.
  assert (HI : (0 <= Cache.DEFAULT_MAX_ITEMS)%Z) by (unfold Cache.DEFAULT_MAX_ITEMS; lia).
  assert (HB : (0 <= Cache.DEFAULT_MAX_BYTES)%Z) by (unfold Cache.DEFAULT_MAX_BYTES; lia).
  assert (Hk : Str.truthy (textKey url) = true) by apply Hsha.
  assert (Ht : Str.truthy text = true) by (destruct text; [congruence|reflexivity]).
  unfold fetchText in Hret |- *. rewrite !log_throws in *.
  destruct (isValidUrl url); [|discriminate]. cbn [negb] in *. rewrite U in *.
  pose proof (CacheFacts.get_consistent sha256 _ _ (textKey url) now c HI HB Hc Hb) as [Hc1 _].
  unfold cache_get in *.
  destruct (Cache.get sha256 Cache.DEFAULT_MAX_ITEMS Cache.DEFAULT_MAX_BYTES
                      (textKey url) now c) as [cached c1].
  cbn [fst snd andb] in *.
  destruct (truthy cached); [discriminate|].
  destruct (text_loop _ up _ 0 Undef []) as [r tr]. destruct r as [v|err]; [|discriminate].
  cbn [fst snd] in *. injection Hret as ->.
  assert (Es : Cache.estimateSize (JStr text) = Z.of_nat (String.length text)).
  { unfold Cache.estimateSize. cbn [truthy]. rewrite Ht. reflexivity. }
  destruct (CacheFacts.set_state sha256 Cache.DEFAULT_MAX_ITEMS Cache.DEFAULT_MAX_BYTES
              (textKey url) (JStr text) (ttl_ms o) now true c1 Hk Hc1
              ltac:(unfold Cache.DEFAULT_MAX_ITEMS; lia)
              ltac:(rewrite Es; exact Hsize)) as (m1 & M & N & _).
  unfold cache_set. cbv zeta in M.
  set (c2 := (Cache.set sha256 _ _ (textKey url) (JStr text) (ttl_ms o) now true c1).2) in *.
  unfold Cache.get, Cache.get_begin. rewrite Hk. cbn [negb]. rewrite M.
  rewrite (CacheFacts.map_get_app_fresh _ _ _ (CacheFacts.nodup_snoc_fresh _ _ _ N)).
  assert (E : Cache.expired
                {| Cache.value := JStr text; Cache.size := Cache.estimateSize (JStr text);
                   Cache.expiresAt := if negb (ttl_ms o =? 0)%Z
                                      then Some (now + ttl_ms o)%Z else None |} now' = false).
  { unfold Cache.expired. cbn [Cache.expiresAt].
    destruct (negb (ttl_ms o =? 0)%Z); [|reflexivity].
    replace (now + ttl_ms o <? now')%Z with false by cmp. apply andb_false_r. }
  rewrite E. cbn [fst snd Cache.value truthy]. rewrite Ht. split; reflexivity.
Qed.

End Calls.

Lemma fetchText_returns_first_good_witness :
  (fetchText digest "http://example.com/" default_options flaky 0 (Cache.init ∅)).1
  = (Returned (JStr "hello"), [EFetch 1; ESleep 300; EFetch 2; ESleep 600; EFetch 3]).
Proof.
  assert (V : isValidUrl "http://example.com/" = true) by (vm_compute; reflexivity).
  assert (M : useCache default_options = true ->
              (cache_get digest (cacheKeyFor digest "http://example.com/" "text") 0
                         (Cache.init ∅)).1 = JNull) by (intros _; vm_compute; reflexivity).
  assert (B : forall i, (1 <= i < 3)%nat -> retryable (flaky (Z.of_nat i)) = true).
  { intros i Hi. destruct i as [|[|[|i]]]; try lia; reflexivity. }
  exact (fetchText_returns_first_good digest "http://example.com/" default_options flaky 0
           (Cache.init ∅) 3 V M ltac:(vm_compute; discriminate) ltac:(vm_compute; lia)
           B eq_refl).
Defined.

Lemma fetchText_failure_throws_TypeError_witness :
  (fetchText digest "http://example.com/" default_options reset_after_503 0 (Cache.init ∅)).1
  = (Thrown (TypeErr "logWarn"), [EFetch 1; ESleep 300; EFetch 2]).
Proof.
  assert (V : isValidUrl "http://example.com/" = true) by (vm_compute; reflexivity).
  assert (M : useCache default_options = true ->
              (cache_get digest (cacheKeyFor digest "http://example.com/" "text") 0
                         (Cache.init ∅)).1 = JNull) by (intros _; vm_compute; reflexivity).
  assert (B : forall i, (1 <= i < 2)%nat -> retryable (reset_after_503 (Z.of_nat i)) = true).
  { intros i Hi. destruct i as [|[|i]]; try lia; reflexivity. }
  rewrite (fetchText_failure_throws_TypeError digest "http://example.com/" default_options
             reset_after_503 0 (Cache.init ∅) 2 V M ltac:(vm_compute; discriminate)
             ltac:(vm_compute; lia) B eq_refl (or_introl eq_refl)).
  reflexivity.
Defined.

Lemma streamToResponse_passes_status_witness :
  (streamToResponse digest "http://example.com/" fresh_response default_options
                    always_404 0 (Cache.init ∅)).1.1
  = (send 404 "Upstream error: 404" fresh_response, [EFetch 1]).
Proof.
  assert (V : isValidUrl "http://example.com/" = true) by (vm_compute; reflexivity).
  assert (M : useCache default_options = true ->
              (cache_get digest (cacheKeyFor digest "http://example.com/" "stream") 0
                         (Cache.init ∅)).1 = JNull) by (intros _; vm_compute; reflexivity).
  rewrite (streamToResponse_passes_status digest "http://example.com/" fresh_response
             default_options always_404 0 (Cache.init ∅) 1 404 "Not Found" [] [] true
             V M ltac:(vm_compute; discriminate) ltac:(vm_compute; lia)
             ltac:(intros i Hi; lia) eq_refl eq_refl ltac:(left; lia)).
  reflexivity.
Defined.

Lemma streamToResponse_rejects_on_failed_fetch_witness :
  (streamToResponse digest "http://example.com/" fresh_response default_options
                    reset_after_503 0 (Cache.init ∅)).1.1
  = (fresh_response, [EFetch 1; ESleep 300; EFetch 2])
  /\ (streamToResponse digest "http://example.com/" fresh_response default_options
                       reset_after_503 0 (Cache.init ∅)).2
     = Rejects (TypeErr "logWarn").
Proof.
  assert (V : isValidUrl "http://example.com/" = true) by (vm_compute; reflexivity).
  assert (M : useCache default_options = true ->
              (cache_get digest (cacheKeyFor digest "http://example.com/" "stream") 0
                         (Cache.init ∅)).1 = JNull) by (intros _; vm_compute; reflexivity).
  assert (B : forall i, (1 <= i < 2)%nat -> retryable (reset_after_503 (Z.of_nat i)) = true).
  { intros i Hi. destruct i as [|[|i]]; try lia; reflexivity. }
  rewrite (streamToResponse_rejects_on_failed_fetch digest "http://example.com/"
             fresh_response default_options reset_after_503 0 (Cache.init ∅) 2 "ECONNRESET"
             V M ltac:(vm_compute; discriminate) ltac:(vm_compute; lia) B eq_refl).
  split; reflexivity.
Defined.

Lemma streamToResponse_forwards_allowlisted_headers_witness :
  In ("content-type", "text/html") (resHeaders fresh_response)
  \/ (In "content-type" headerWhitelist /\ "text/html" <> EmptyString
      /\ exists i status statusText hs chunks body_ok,
           page i = Resolved status statusText hs chunks body_ok /\ ok status = true
           /\ header_get "content-type" hs = Some "text/html").
Proof.
  assert (M : useCache default_options = true ->
              (cache_get digest (cacheKeyFor digest "http://example.com/" "stream") 0
                         (Cache.init ∅)).1 = JNull) by (intros _; vm_compute; reflexivity).
  apply (streamToResponse_forwards_allowlisted_headers digest "http://example.com/"
           fresh_response default_options page 0 (Cache.init ∅) _ _ M).
  vm_compute. left. reflexivity.
Defined.

Lemma streamToResponse_caches_what_fits_witness :
  (streamToResponse digest "http://example.com/" fresh_response default_options page 0
                    (Cache.init ∅)).1.1.1
  = {| statusCode := None; resHeaders := [("content-type", "text/html")];
       written := ["ab"; "c"]; ended := true |}
  /\ Cache.map_has (cacheKeyFor digest "http://example.com/" "stream")
       (Cache.cacheMap (streamToResponse digest "http://example.com/" fresh_response
                          default_options page 0 (Cache.init ∅)).1.2) = true
  /\ (streamToResponse digest "http://example.com/" fresh_response default_options page 0
                       (Cache.init ∅)).2
     = Uncaught (TypeErr "logWarn").
Proof.
  assert (V : isValidUrl "http://example.com/" = true) by (vm_compute; reflexivity).
  assert (M : (cache_get digest (cacheKeyFor digest "http://example.com/" "stream") 0
                         (Cache.init ∅)).1 = JNull) by (vm_compute; reflexivity).
  rewrite (streamToResponse_caches_what_fits digest "http://example.com/" fresh_response
             default_options page 0 (Cache.init ∅) 200 "OK"
             [("content-type", "text/html"); ("set-cookie", "id=1")] ["ab"; "c"] true
             V eq_refl M ltac:(vm_compute; discriminate) eq_refl eq_refl).
  split; [reflexivity|]. split; vm_compute; reflexivity.
Defined.

Lemma fetchText_cache_hit_throws_witness :
  (fetchText digest "http://example.com/" default_options always_reset 60000
             (fetchText digest "http://example.com/" default_options flaky 0
                        (Cache.init ∅)).2).1
  = (Thrown (TypeErr "logWarn"), []).
Proof.
  exact (proj1 (fetchText_cache_hit_throws digest "http://example.com/" default_options
           flaky always_reset 0 60000 (Cache.init ∅) "hello"
           (fun x => eq_refl) eq_refl ltac:(split; vm_compute; discriminate) eq_refl
           ltac:(vm_compute; reflexivity)
           ltac:(discriminate) ltac:(vm_compute; discriminate)
           ltac:(vm_compute; discriminate))).
Defined.

End FetcherLaws.

(* ===================================================================== *)
(** * Texts the rewriters leave alone *)
(* ===================================================================== *)

Module RegexLaws.
Import Str Regex Bytes RegexFacts.

Lemma free_tail P a t : free P (String a t) = true -> free P t = true.
Proof. simpl. intros H. apply andb_true_iff in H. tauto. Qed.

Lemma must_stuck icase P r :
  must icase P r = true ->
  forall x k, free P (rest x) = true -> compile icase r x k = None.
Proof.
  induction r; intros Hm x k Hx; cbn [must] in Hm; try discriminate; cbn [compile].
  - destruct (rest x) as [|a t] eqn:E; [reflexivity|].
    destruct (ceq icase c a) eqn:C; [|reflexivity].
    pose proof (for_all_bytes _ Hm a) as H. cbv beta in H. rewrite C in H. simpl in H.
    simpl in Hx. rewrite H in Hx. discriminate.
  - destruct (rest x) as [|a t] eqn:E; [reflexivity|].
    destruct (in_cls icase negated items a) eqn:C; [|reflexivity].
    pose proof (for_all_bytes _ Hm a) as H. cbv beta in H. rewrite C in H. simpl in H.
    simpl in Hx. rewrite H in Hx. discriminate.
  - apply orb_true_iff in Hm as [Hm | Hm].
    + apply IHr1; assumption.
    + apply (compile_stuck (fun t => free P t = true) (free_tail P)); [exact Hx|].
      intros y Hy. apply IHr2; assumption.
  - apply andb_true_iff in Hm as [H1 H2].
    rewrite IHr1 by assumption. apply IHr2; assumption.
  - apply IHr; assumption.
Qed.

Lemma must_no_match re P p s :
  must (ignoreCase re) P (pattern re) = true -> free P s = true -> match_at re p s = None.
Proof.
  intros Hm Hs. unfold match_at. rewrite (must_stuck _ P _ Hm); [reflexivity|exact Hs].
Qed.

(** A global replace with a pattern that must read a character of [P]
    leaves a text without such characters as it is. *)
Lemma replace_all_free re P fn s :
  must (ignoreCase re) P (pattern re) = true -> free P s = true -> replace_all re fn s = s.
Proof.
  intros Hm Hs. unfold replace_all.
  apply (replace_loop_stuck (fun t => free P t = true) (free_tail P)); [|exact Hs].
  intros p t Ht. apply (must_no_match re P); assumption.
Qed.

Lemma search_free re P : forall n k p s,
  must (ignoreCase re) P (pattern re) = true -> free P s = true -> search re n k p s = None.
Proof.
  induction n as [|n IH]; intros k p s Hm Hs; cbn [search];
    rewrite (must_no_match re P p s Hm Hs).
  - reflexivity.
  - destruct s as [|c t]; [reflexivity|]. apply IH; [exact Hm|]. apply (free_tail P c). exact Hs.
Qed.

Lemma free_lacks3 a b c s :
  lacks a s = true -> lacks b s = true -> lacks c s = true ->
  free (fun x => Ascii.eqb x a || Ascii.eqb x b || Ascii.eqb x c) s = true.
Proof.
  induction s as [|x s IH]; [reflexivity|]. simpl. intros Ha Hb Hc.
  apply andb_true_iff in Ha as [A1 A2]. apply andb_true_iff in Hb as [B1 B2].
  apply andb_true_iff in Hc as [C1 C2].
  rewrite IH by assumption. apply negb_true_iff in A1, B1, C1. rewrite A1, B1, C1. reflexivity.
Qed.

End RegexLaws.

Module RewriteLaws.
Import Str Regex Uri Rewrite Bytes RegexFacts RegexLaws.

Local Abbreviation is_quote3 :=
  (fun x : ascii => Ascii.eqb x "'" || Ascii.eqb x dq || Ascii.eqb x "`").
Local Abbreviation is_markup :=
  (fun x : ascii => Ascii.eqb x "<" || Ascii.eqb x "'" || Ascii.eqb x dq).

(** X14: a script without a quote of any of the three kinds is returned
    by [rewriteJs] as it is, for every base address and configuration:
    the rewriter touches quoted addresses only. *)
Theorem rewriteJs_keeps_text_without_quotes (js base : string) (cfg : config) :
  lacks "'" js = true -> lacks dq js = true -> lacks "`" js = true ->
  rewriteJs js base cfg = js.
Proof.
  intros H1 H2 H3. pose proof (free_lacks3 _ _ _ js H1 H2 H3) as F.
  unfold rewriteJs. destruct (_ || _); [reflexivity|]. cbv zeta.
  rewrite (replace_all_free re_fetch is_quote3 _ js ltac:(vm_compute; reflexivity) F).
  rewrite (replace_all_free re_open is_quote3 _ js ltac:(vm_compute; reflexivity) F).
  rewrite (replace_all_free re_dot_src is_quote3 _ js ltac:(vm_compute; reflexivity) F).
  apply (replace_all_free re_import_call is_quote3 _ js ltac:(vm_compute; reflexivity) F).
Qed.

(** X15: a text without an opening angle bracket and without a quote is
    returned by [rewriteHtml] as it is, for every base address and
    configuration, with or without the aggressive sanitizing. *)
Theorem rewriteHtml_keeps_text_without_markup (html base : string) (cfg : config) :
  lacks "<" html = true -> lacks "'" html = true -> lacks dq html = true ->
  rewriteHtml html base cfg = html.
Proof.
  intros H1 H2 H3. pose proof (free_lacks3 _ _ _ html H1 H2 H3) as F.
  unfold rewriteHtml. destruct (_ || _); [reflexivity|]. cbv zeta.
  rewrite (replace_all_free re_base is_markup _ html ltac:(vm_compute; reflexivity) F).
  rewrite (replace_all_free re_meta is_markup _ html ltac:(vm_compute; reflexivity) F).
  rewrite (replace_all_free re_tag is_markup _ html ltac:(vm_compute; reflexivity) F).
  rewrite (replace_all_free re_style_attr is_markup _ html ltac:(vm_compute; reflexivity) F).
  rewrite (replace_all_free re_style_block is_markup _ html ltac:(vm_compute; reflexivity) F).
  rewrite (replace_all_free re_script_block is_markup _ html ltac:(vm_compute; reflexivity) F).
  destruct (aggressiveSanitize cfg); [|reflexivity].
  apply (replace_all_free re_handler is_markup _ html ltac:(vm_compute; reflexivity) F).
Qed.

(** ** escapeAttr *)

Lemma lacks_append c a b : lacks c (a +:+ b) = lacks c a && lacks c b.
Proof.
  induction a as [|x a IH]; [reflexivity|].
  change (lacks c (String x (a +:+ b)) = lacks c (String x a) && lacks c b).
  cbn [lacks]. rewrite IH. apply andb_assoc.
Qed.

(** A pass that replaces [c] by a text without [c], and other
    characters by texts without [c] if at all, leaves no [c]. *)
Lemma replace_chars_removes c f s :
  (forall a r, f a = Some r -> lacks c r = true) ->
  (forall a, f a = None -> Ascii.eqb a c = false) ->
  lacks c (replace_chars f s) = true.
Proof.
  intros Hr Hn. induction s as [|a s IH]; [reflexivity|]. cbn [replace_chars].
  destruct (f a) as [r|] eqn:E.
  - rewrite lacks_append, (Hr a r E), IH. reflexivity.
  - cbn [lacks]. rewrite (Hn a E), IH. reflexivity.
Qed.

(** A pass whose replacement texts are without [c] keeps a text without
    [c] so. *)
Lemma replace_chars_keeps c f s :
  (forall a r, f a = Some r -> lacks c r = true) ->
  lacks c s = true -> lacks c (replace_chars f s) = true.
Proof.
  intros Hr. induction s as [|a s IH]; [reflexivity|]. cbn [replace_chars lacks].
  intros H. apply andb_true_iff in H as [H1 H2].
  destruct (f a) as [r|] eqn:E.
  - rewrite lacks_append, (Hr a r E), (IH H2). reflexivity.
  - cbn [lacks]. rewrite H1, (IH H2). reflexivity.
Qed.

Lemma replace_chars_id f s :
  (forall a, In a (list_ascii_of_string s) -> f a = None) -> replace_chars f s = s.
Proof.
  induction s as [|a s IH]; [reflexivity|]. intros H. cbn [replace_chars].
  rewrite (H a (or_introl eq_refl)). f_equal. apply IH. intros b Hb. apply H. right. exact Hb.
Qed.

Lemma lacks_not_in c s a : lacks c s = true -> In a (list_ascii_of_string s) -> Ascii.eqb a c = false.
Proof.
  induction s as [|x s IH]; [intros _ []|]. cbn [lacks list_ascii_of_string].
  intros H [-> | Hin]; apply andb_true_iff in H as [H1 H2].
  - apply negb_true_iff. exact H1.
  - apply IH; assumption.
Qed.

(** X16: the result of [escapeAttr] holds no quote of either kind, so
    it cannot end the attribute value it is written into. *)
Theorem escapeAttr_leaves_no_quote (s : string) :
  lacks "'" (escapeAttr s) = true /\ lacks dq (escapeAttr s) = true.
Proof.
  unfold escapeAttr. split.
  - apply replace_chars_removes.
    + intros a r H. destruct (Ascii.eqb a "'"); [injection H as <-; reflexivity|discriminate].
    + intros a H. destruct (Ascii.eqb a "'"); [discriminate|reflexivity].
  - apply replace_chars_keeps.
    + intros a r H. destruct (Ascii.eqb a "'"); [injection H as <-; reflexivity|discriminate].
    + apply replace_chars_removes.
      * intros a r H. destruct (Ascii.eqb a dq); [injection H as <-; reflexivity|discriminate].
      * intros a H. destruct (Ascii.eqb a dq); [discriminate|reflexivity].
Qed.

Lemma rewriteJs_keeps_text_without_quotes_witness :
  rewriteJs "var n = 1 + 2; f(n);" "https://a.test/" default_config = "var n = 1 + 2; f(n);".
Proof.
  exact (rewriteJs_keeps_text_without_quotes "var n = 1 + 2; f(n);" "https://a.test/"
           default_config eq_refl eq_refl eq_refl).
Defined.

Lemma rewriteHtml_keeps_text_without_markup_witness :
  rewriteHtml "plain text & more" "https://a.test/" default_config = "plain text & more".
Proof.
  exact (rewriteHtml_keeps_text_without_markup "plain text & more" "https://a.test/"
           default_config eq_refl eq_refl eq_refl).
Defined.

End RewriteLaws.

(* ===================================================================== *)
(** * Facts about texts and objects *)
(* ===================================================================== *)

Module StrFacts.
Import Str Regex Url Bytes.

Lemma length_app (a b : string) : String.length (a +:+ b) = (String.length a + String.length b)%nat.
Proof.
  induction a as [|x a IH]; [reflexivity|].
  change (S (String.length (a +:+ b)) = S (String.length a + String.length b)). now rewrite IH.
Qed.

Lemma sforall_app f (a b : string) : sforall f (a +:+ b) = sforall f a && sforall f b.
Proof.
  induction a as [|x a IH]; [reflexivity|].
  change (f x && sforall f (a +:+ b) = f x && sforall f a && sforall f b).
  rewrite IH. apply andb_assoc.
Qed.

Lemma take_length n : forall s, (String.length (take n s) <= n)%nat.
Proof. induction n as [|n IH]; intros [|c t]; simpl; try lia. specialize (IH t). lia. Qed.

Lemma take_all n : forall s, (String.length s <= n)%nat -> take n s = s.
Proof.
  induction n as [|n IH]; intros [|c t] H; simpl in *; try reflexivity; try lia.
  f_equal. apply IH. lia.
Qed.

Lemma take_sforall f n : forall s, sforall f s = true -> sforall f (take n s) = true.
Proof.
  induction n as [|n IH]; intros [|c t] H; simpl in *; try reflexivity.
  apply andb_true_iff in H as [H1 H2]. rewrite H1. simpl. apply IH, H2.
Qed.

Lemma sforall_impl (f g : ascii -> bool) s :
  (forall c, f c = true -> g c = true) -> sforall f s = true -> sforall g s = true.
Proof.
  intros I. induction s as [|c t IH]; [reflexivity|]. simpl. intros H.
  apply andb_true_iff in H as [H1 H2]. rewrite (I c H1), (IH H2). reflexivity.
Qed.

Lemma sforall_lacks f c s : f c = false -> sforall f s = true -> lacks c s = true.
Proof.
  intros F. induction s as [|a t IH]; [reflexivity|]. simpl. intros H.
  apply andb_true_iff in H as [H1 H2]. rewrite (IH H2), andb_true_r.
  apply negb_true_iff. destruct (Ascii.eqb_spec a c) as [->|]; [congruence|reflexivity].
Qed.

Lemma sfilter_sforall f s : sforall f (sfilter f s) = true.
Proof.
  induction s as [|c t IH]; [reflexivity|]. simpl. destruct (f c) eqn:E; [|exact IH].
  simpl. rewrite E, IH. reflexivity.
Qed.

End StrFacts.

Module SplitFacts.
Import Str.

Lemma srev_onto_twice a : forall cur acc,
  srev_onto (srev_onto a cur) acc = srev_onto cur (a +:+ acc).
Proof.
  induction a as [|c a IH]; intros cur acc; [reflexivity|].
  cbn [srev_onto]. rewrite IH. reflexivity.
Qed.

Lemma srev_srev_onto a : srev (srev_onto a EmptyString) = a.
Proof.
  unfold srev. rewrite srev_onto_twice. cbn [srev_onto].
  induction a as [|c a IH]; [reflexivity|].
  change (String c (a +:+ EmptyString) = String c a). now rewrite IH.
Qed.

Lemma split_acc_whole sep a : forall cur,
  lacks sep a = true -> split_acc sep a cur = [srev (srev_onto a cur)].
Proof.
  induction a as [|c a IH]; intros cur H; [reflexivity|]. cbn [split_acc srev_onto].
  cbn [lacks] in H. apply andb_true_iff in H as [H1 H2]. apply negb_true_iff in H1.
  rewrite H1. apply IH, H2.
Qed.

Lemma split_acc_first sep a b : forall cur,
  lacks sep a = true ->
  split_acc sep (a +:+ String sep b) cur
  = srev (srev_onto a cur) :: split_acc sep b EmptyString.
Proof.
  induction a as [|c a IH]; intros cur H.
  - change (split_acc sep (String sep b) cur = srev cur :: split_acc sep b EmptyString).
    cbn [split_acc]. rewrite Ascii.eqb_refl. reflexivity.
  - change (split_acc sep (String c (a +:+ String sep b)) cur
            = srev (srev_onto a (String c cur)) :: split_acc sep b EmptyString).
    cbn [split_acc]. cbn [lacks] in H. apply andb_true_iff in H as [H1 H2].
    apply negb_true_iff in H1. rewrite H1. apply IH, H2.
Qed.

(** A text without the separator is one piece, and a separator after
    such a text ends the first piece. *)
Lemma split_whole sep a : lacks sep a = true -> split sep a = [a].
Proof. intros H. unfold split. rewrite (split_acc_whole _ _ _ H), srev_srev_onto. reflexivity. Qed.

Lemma split_first sep a b :
  lacks sep a = true -> split sep (a +:+ String sep b) = a :: split sep b.
Proof. intros H. unfold split. rewrite (split_acc_first _ _ _ _ H), srev_srev_onto. reflexivity. Qed.

Lemma lacks_app c a b : lacks c (a +:+ b) = lacks c a && lacks c b.
Proof.
  induction a as [|x a IH]; [reflexivity|].
  change (lacks c (String x (a +:+ b)) = lacks c (String x a) && lacks c b).
  cbn [lacks]. rewrite IH. apply andb_assoc.
Qed.

Lemma app_assoc_s (a b c : string) : (a +:+ b) +:+ c = a +:+ (b +:+ c).
Proof.
  induction a as [|x a IH]; [reflexivity|].
  change (String x ((a +:+ b) +:+ c) = String x (a +:+ (b +:+ c))). now rewrite IH.
Qed.

Lemma app_nil_s (a : string) : a +:+ EmptyString = a.
Proof.
  induction a as [|x a IH]; [reflexivity|].
  change (String x (a +:+ EmptyString) = String x a). now rewrite IH.
Qed.

Lemma indexOf_from_char c a b : forall n,
  lacks c a = true ->
  indexOf_from n (String c EmptyString) (a +:+ String c b) = Some (n + String.length a)%nat.
Proof.
  induction a as [|x a IH]; intros n H.
  - change (indexOf_from n (String c EmptyString) (String c b) = Some (n + 0)%nat).
    cbn [indexOf_from String.prefix]. destruct (ascii_dec c c); [|contradiction].
    destruct b; f_equal; lia.
  - change (indexOf_from n (String c EmptyString) (String x (a +:+ String c b))
            = Some (n + S (String.length a))%nat).
    cbn [lacks] in H. apply andb_true_iff in H as [H1 H2]. apply negb_true_iff in H1.
    cbn [indexOf_from String.prefix]. destruct (ascii_dec c x) as [->|N].
    + rewrite Ascii.eqb_refl in H1. discriminate.
    + rewrite (IH (S n) H2). f_equal. lia.
Qed.

Lemma take_app (a b : string) : take (String.length a) (a +:+ b) = a.
Proof.
  induction a as [|x a IH]; [destruct b; reflexivity|].
  change (String x (take (String.length a) (a +:+ b)) = String x a). now rewrite IH.
Qed.

Lemma drop_app (a b : string) : drop (String.length a) (a +:+ b) = b.
Proof. induction a as [|x a IH]; [destruct b; reflexivity|exact IH]. Qed.

End SplitFacts.

Module ObjFacts.
Import Str.

Lemma assign_lookup key val (obj : gmap string string) k :
  Obj.assign key val obj !! k
  = if String.eqb key "__proto__" then obj !! k
    else if String.eqb key k then Some val else obj !! k.
Proof.
  unfold Obj.assign. destruct (String.eqb key "__proto__"); [reflexivity|].
  destruct (String.eqb_spec key k) as [->|N].
  - apply lookup_insert_eq.
  - apply lookup_insert_ne, N.
Qed.

(** Copying the properties of an object that a test lets through. *)
Lemma fold_assign_filter (skip : string -> bool)
      (f : string -> string -> gmap string string -> gmap string string)
      (m : gmap string string) k :
  (forall k v acc, f k v acc = if skip k then acc else Obj.assign k v acc) ->
  map_fold f ∅ m !! k
  = if skip k || String.eqb k "__proto__" then None else m !! k.
Proof.
  intros Hf. revert k.
  apply (map_fold_weak_ind
           (fun r m => forall k, r !! k
                       = if skip k || String.eqb k "__proto__" then None else m !! k)).
  - intros k. rewrite !lookup_empty. destruct (_ || _); reflexivity.
  - intros i x m' r Hi IH k. rewrite Hf. destruct (skip i) eqn:Si.
    + rewrite IH. destruct (String.eqb_spec i k) as [->|N].
      * rewrite Si. reflexivity.
      * rewrite (lookup_insert_ne _ _ _ _ N). reflexivity.
    + rewrite assign_lookup, IH. destruct (String.eqb_spec i "__proto__") as [->|P].
      * destruct (String.eqb_spec "__proto__" k) as [<-|N].
        -- rewrite orb_true_r. reflexivity.
        -- rewrite (lookup_insert_ne _ _ _ _ N). reflexivity.
      * destruct (String.eqb_spec i k) as [->|N].
        -- rewrite Si. cbn [orb]. destruct (String.eqb_spec k "__proto__"); [contradiction|].
           rewrite lookup_insert_eq. reflexivity.
        -- rewrite (lookup_insert_ne _ _ _ _ N). reflexivity.
Qed.

Lemma find_ext {A} (f g : A -> bool) l :
  (forall x, In x l -> f x = g x) -> find f l = find g l.
Proof.
  induction l as [|x l IH]; [reflexivity|]. intros H. cbn [find].
  rewrite <- (H x (or_introl eq_refl)). destruct (f x); [reflexivity|].
  apply IH. intros y Hy. apply H. right. exact Hy.
Qed.

Lemma find_none_all {A} (f : A -> bool) l : (forall x, f x = false) -> find f l = None.
Proof. intros H. induction l as [|x l IH]; [reflexivity|]. cbn [find]. now rewrite H. Qed.

(** Filling an empty object from a list of entries: a name holds the
    value of the last entry that wrote it. *)
Lemma fold_assign_last {A} (keyf : A -> option string) (valf : A -> string) (l : list A) k :
  fold_left (fun clean x => match keyf x with
                            | Some key => Obj.assign key (valf x) clean
                            | None => clean
                            end) l (∅ : gmap string string) !! k
  = if String.eqb k "__proto__" then None
    else option_map valf
           (find (fun x => match keyf x with Some key => String.eqb key k | None => false end)
                 (rev l)).
Proof.
  induction l as [|x l IH] using rev_ind.
  - cbn. rewrite lookup_empty. destruct (String.eqb k "__proto__"); reflexivity.
  - rewrite fold_left_app, rev_app_distr. cbn [fold_left rev app find].
    destruct (keyf x) as [key|]; [|exact IH].
    rewrite assign_lookup, IH.
    destruct (String.eqb_spec key "__proto__") as [->|P].
    + destruct (String.eqb_spec "__proto__" k) as [<-|N]; reflexivity.
    + destruct (String.eqb_spec key k) as [->|N]; [|reflexivity].
      destruct (String.eqb_spec k "__proto__"); [contradiction|reflexivity].
Qed.

End ObjFacts.

Module QuadFacts.
Import Str Url Net Security SplitFacts.

Lemma below_256 (P : N -> bool) :
  forallb (fun k => P (N.of_nat k)) (seq 0 256) = true ->
  forall n, (n < 256)%N -> P n = true.
Proof.
  intros A n H. pose proof (proj1 (forallb_forall _ _) A (N.to_nat n)) as B.
  cbv beta in B. rewrite N2Nat.id in B. apply B. apply in_seq. lia.
Qed.

Lemma octet_facts n :
  (n < 256)%N ->
  octet_ok (N_to_string n) = true
  /\ Security.parseInt10 (N_to_string n) = Some (Z.of_N n)
  /\ lacks "." (N_to_string n) = true.
Proof.
  intros H.
  pose proof (below_256
                (fun n => octet_ok (N_to_string n)
                          && match Security.parseInt10 (N_to_string n) with
                             | Some v => (v =? Z.of_N n)%Z
                             | None => false
                             end
                          && lacks "." (N_to_string n))
                ltac:(vm_compute; reflexivity) n H) as B.
  cbv beta in B. apply andb_true_iff in B as [B B3]. apply andb_true_iff in B as [B1 B2].
  split; [exact B1|]. split; [|exact B3].
  destruct (Security.parseInt10 (N_to_string n)) as [v|]; [|discriminate].
  apply Z.eqb_eq in B2. now subst.
Qed.

(** The text of a number below 256 is the text [q] of the number [v]
    only for that number. *)
Lemma octet_text q v n :
  forallb (fun k => Bool.eqb (String.eqb q (N_to_string (N.of_nat k))) (N.of_nat k =? v)%N)
          (seq 0 256) = true ->
  (n < 256)%N -> String.eqb q (N_to_string n) = (n =? v)%N.
Proof.
  intros A H. apply eqb_prop.
  exact (below_256 (fun n => Bool.eqb (String.eqb q (N_to_string n)) (n =? v)%N) A n H).
Qed.

Lemma dot_app (x y : string) : x +:+ "." +:+ y = x +:+ String "." y.
Proof. reflexivity. Qed.

Lemma split_quad a b c d :
  (a < 256)%N -> (b < 256)%N -> (c < 256)%N -> (d < 256)%N ->
  split "." (dotted_quad a b c d)
  = [N_to_string a; N_to_string b; N_to_string c; N_to_string d].
Proof.
  intros Ha Hb Hc Hd. unfold dotted_quad.
  destruct (octet_facts a Ha) as (_ & _ & La). destruct (octet_facts b Hb) as (_ & _ & Lb).
  destruct (octet_facts c Hc) as (_ & _ & Lc). destruct (octet_facts d Hd) as (_ & _ & Ld).
  rewrite !dot_app.
  rewrite (split_first _ _ _ La), (split_first _ _ _ Lb), (split_first _ _ _ Lc),
    (split_whole _ _ Ld).
  reflexivity.
Qed.

Lemma isIPv4_quad a b c d :
  (a < 256)%N -> (b < 256)%N -> (c < 256)%N -> (d < 256)%N ->
  isIPv4 (dotted_quad a b c d) = true.
Proof.
  intros Ha Hb Hc Hd.
  destruct (octet_facts a Ha) as (Oa & _). destruct (octet_facts b Hb) as (Ob & _).
  destruct (octet_facts c Hc) as (Oc & _). destruct (octet_facts d Hd) as (Od & _).
  unfold isIPv4. rewrite (split_quad a b c d Ha Hb Hc Hd), Oa, Ob, Oc, Od. reflexivity.
Qed.

(** Comparing texts label by label. *)
Lemma prefix_label q p : forall x rest,
  lacks "." q = true -> lacks "." x = true ->
  String.prefix (q +:+ String "." p) (x +:+ String "." rest)
  = String.eqb q x && String.prefix p rest.
Proof.
  induction q as [|c q IH]; intros [|y x] rest Hq Hx.
  - change (String.prefix (String "." p) (String "." rest) = true && String.prefix p rest).
    cbn [String.prefix]. destruct (ascii_dec "." "."); [reflexivity|contradiction].
  - change (String.prefix (String "." p) (String y (x +:+ String "." rest))
            = false && String.prefix p rest).
    cbn [String.prefix lacks] in *. apply andb_true_iff in Hx as [Hy _].
    destruct (ascii_dec "." y) as [<-|]; [discriminate|reflexivity].
  - change (String.prefix (String c (q +:+ String "." p)) (String "." rest)
            = false && String.prefix p rest).
    cbn [String.prefix lacks] in *. apply andb_true_iff in Hq as [Hc _].
    destruct (ascii_dec c ".") as [->|]; [discriminate|reflexivity].
  - change (String.prefix (String c (q +:+ String "." p)) (String y (x +:+ String "." rest))
            = String.eqb (String c q) (String y x) && String.prefix p rest).
    cbn [String.prefix String.eqb lacks] in *.
    apply andb_true_iff in Hq as [_ Hq]. apply andb_true_iff in Hx as [_ Hx].
    destruct (ascii_dec c y) as [->|N].
    + rewrite Ascii.eqb_refl. apply IH; assumption.
    + destruct (Ascii.eqb_spec c y); [contradiction|reflexivity].
Qed.

Lemma eqb_label q p : forall x rest,
  lacks "." q = true -> lacks "." x = true ->
  String.eqb (q +:+ String "." p) (x +:+ String "." rest)
  = String.eqb q x && String.eqb p rest.
Proof.
  induction q as [|c q IH]; intros [|y x] rest Hq Hx.
  - change (String.eqb (String "." p) (String "." rest) = true && String.eqb p rest).
    cbn [String.eqb]. rewrite Ascii.eqb_refl. reflexivity.
  - change (String.eqb (String "." p) (String y (x +:+ String "." rest))
            = false && String.eqb p rest).
    cbn [String.eqb lacks] in *. apply andb_true_iff in Hx as [Hy _].
    rewrite Ascii.eqb_sym. destruct (Ascii.eqb y "."); [discriminate|reflexivity].
  - change (String.eqb (String c (q +:+ String "." p)) (String "." rest)
            = false && String.eqb p rest).
    cbn [String.eqb lacks] in *. apply andb_true_iff in Hq as [Hc _].
    destruct (Ascii.eqb c "."); [discriminate|reflexivity].
  - change (String.eqb (String c (q +:+ String "." p)) (String y (x +:+ String "." rest))
            = String.eqb (String c q) (String y x) && String.eqb p rest).
    cbn [String.eqb lacks] in *.
    apply andb_true_iff in Hq as [_ Hq]. apply andb_true_iff in Hx as [_ Hx].
    destruct (Ascii.eqb c y); [apply IH; assumption|reflexivity].
Qed.

End QuadFacts.

(* ===================================================================== *)
(** * Laws of the sanitizers *)
(* ===================================================================== *)

Module SanitizeLaws.
Import Str Regex Url Sanitize Bytes StrFacts ObjFacts.

Local Abbreviation filename_char := (in_cls false false filename_class).

Lemma filename_units_safe c : sforall filename_char (filename_units c) = true.
Proof.
  exact (for_all_bytes (fun c => sforall filename_char (filename_units c))
           ltac:(vm_compute; reflexivity) c).
Qed.

Lemma expand_safe s : sforall filename_char (expand filename_units s) = true.
Proof.
  induction s as [|c t IH]; [reflexivity|]. cbn [expand].
  rewrite sforall_app, filename_units_safe, IH. reflexivity.
Qed.

Lemma expand_fixed s : sforall filename_char s = true -> expand filename_units s = s.
Proof.
  induction s as [|c t IH]; [reflexivity|]. cbn [expand sforall]. intros H.
  apply andb_true_iff in H as [H1 H2]. rewrite (IH H2). unfold filename_units. rewrite H1.
  reflexivity.
Qed.

(** X17: whatever the name, [sanitizeFilename] gives a text of at most
    255 characters, all of them letters, digits, underscore, hyphen or
    dot, so without a slash or a backslash; and it gives the name back
    unchanged exactly when the name already is such a text.  A dot is
    kept, so a name of two dots stays as it is. *)
Theorem sanitizeFilename_is_a_plain_name (name : string) :
  (String.length (sanitizeFilename name) <= 255)%nat
  /\ sforall filename_char (sanitizeFilename name) = true
  /\ lacks "/" (sanitizeFilename name) = true
  /\ lacks "\" (sanitizeFilename name) = true
  /\ (sanitizeFilename name = name
      <-> (String.length name <= 255)%nat /\ sforall filename_char name = true).
Proof.
  assert (S : sforall filename_char (sanitizeFilename name) = true)
    by (apply take_sforall, expand_safe).
  split; [apply take_length|]. split; [exact S|].
  split; [exact (sforall_lacks _ "/" _ eq_refl S)|].
  split; [exact (sforall_lacks _ "\" _ eq_refl S)|].
  split.
  - intros E. split; [rewrite <- E; apply take_length|rewrite <- E; exact S].
  - intros [L F]. unfold sanitizeFilename. rewrite (expand_fixed _ F). apply take_all, L.
Qed.

(** The names that [sanitizeHeaders] never writes. *)
Local Abbreviation refused :=
  (fun key : string =>
     startsWith key "proxy-" || startsWith key "x-forwarded" || test re_credentials key
     || String.eqb key "__proto__").

Lemma sanitizeHeaders_fold headers :
  sanitizeHeaders headers
  = fold_left (fun clean kv =>
                 match (let key := toLowerCase kv.1 in
                        if startsWith key "proxy-" || startsWith key "x-forwarded"
                           || test re_credentials key
                        then None else Some key) with
                 | Some key => Obj.assign key (keep_chars header_value_class kv.2) clean
                 | None => clean
                 end) headers ∅.
Proof.
  unfold sanitizeHeaders. generalize (∅ : gmap string string).
  induction headers as [|kv l IH]; intros acc; [reflexivity|]. cbn [fold_left].
  rewrite <- IH. f_equal. cbv zeta.
  destruct (startsWith _ "proxy-" || startsWith _ "x-forwarded"); [reflexivity|].
  cbn [orb]. destruct (test re_credentials _); reflexivity.
Qed.

(** X18: what [sanitizeHeaders] returns under a name.  A name that
    starts with proxy- or x-forwarded, that contains cookie or
    authorization, or that is __proto__ is never present; any other name
    holds the cleaned value of the last entry whose lower-cased name it
    is.  A value that is present consists of word characters, hyphen,
    slash, dot, semicolon, comma, equals sign and space only: it holds
    neither a carriage return nor a line feed. *)
Theorem sanitizeHeaders_lookup (headers : list (string * string)) (k : string) :
  sanitizeHeaders headers !! k
  = (if refused k then None
     else option_map (fun kv => keep_chars header_value_class kv.2)
            (find (fun kv => String.eqb (toLowerCase kv.1) k) (rev headers)))
  /\ (forall v, sanitizeHeaders headers !! k = Some v ->
        sforall (in_cls false false header_value_class) v = true
        /\ lacks (chr 13) v = true /\ lacks (chr 10) v = true).
Proof.
  assert (E : sanitizeHeaders headers !! k
              = if refused k then None
                else option_map (fun kv => keep_chars header_value_class kv.2)
                       (find (fun kv => String.eqb (toLowerCase kv.1) k) (rev headers))).
  { rewrite sanitizeHeaders_fold, fold_assign_last.
    destruct (String.eqb k "__proto__") eqn:P; [rewrite !orb_true_r; reflexivity|].
    rewrite orb_false_r.
    destruct (startsWith k "proxy-" || startsWith k "x-forwarded" || test re_credentials k) eqn:R.
    - rewrite find_none_all; [reflexivity|]. intros x. cbv zeta.
      destruct (startsWith (toLowerCase x.1) "proxy-" || startsWith (toLowerCase x.1) "x-forwarded"
                || test re_credentials (toLowerCase x.1)) eqn:Rx; [reflexivity|].
      destruct (String.eqb_spec (toLowerCase x.1) k) as [Ek|]; [|reflexivity].
      rewrite Ek in Rx. congruence.
    - f_equal. apply find_ext. intros x _. cbv zeta.
      destruct (startsWith (toLowerCase x.1) "proxy-" || startsWith (toLowerCase x.1) "x-forwarded"
                || test re_credentials (toLowerCase x.1)) eqn:Rx; [|reflexivity].
      destruct (String.eqb_spec (toLowerCase x.1) k) as [Ek|]; [|reflexivity].
      rewrite Ek in Rx. congruence. }
  split; [exact E|]. intros v Hv. rewrite E in Hv.
  destruct (refused k); [discriminate|].
  destruct (find _ _) as [kv|]; [|discriminate]. injection Hv as <-.
  assert (S : sforall (in_cls false false header_value_class)
                (keep_chars header_value_class kv.2) = true) by apply sfilter_sforall.
  split; [exact S|].
  split; [exact (sforall_lacks _ (chr 13) _ eq_refl S)|exact (sforall_lacks _ (chr 10) _ eq_refl S)].
Qed.

(** X19: [stripDangerousHeaders] drops the four headers
    content-security-policy, x-frame-options, x-xss-protection and
    referrer-policy in any letter case, and a property named __proto__;
    every other header is passed on with its name and value unchanged. *)
Theorem stripDangerousHeaders_lookup (respHeaders : gmap string string) (k : string) :
  stripDangerousHeaders respHeaders !! k
  = if includes dangerous_headers (toLowerCase k) || String.eqb k "__proto__" then None
    else respHeaders !! k.
Proof.
  apply (fold_assign_filter (fun k => includes dangerous_headers (toLowerCase k))).
  reflexivity.
Qed.

(** X20: what [sanitizeQueryParams] returns under a name: the cleaned,
    trimmed value of the last entry whose cleaned name it is, and nothing
    under __proto__; so two parameters whose names differ only in
    removed characters end up as one, the later one.  A name that is
    present has word characters, hyphen and dot only, and its value word
    characters and the characters - . : @ / ? & = % only. *)
Theorem sanitizeQueryParams_lookup (queryObj : list (string * string)) (k : string) :
  sanitizeQueryParams queryObj !! k
  = (if String.eqb k "__proto__" then None
     else option_map (fun kv => keep_chars query_value_class (trim kv.2))
            (find (fun kv => String.eqb (keep_chars query_key_class kv.1) k) (rev queryObj)))
  /\ (forall v, sanitizeQueryParams queryObj !! k = Some v ->
        sforall (in_cls false false query_key_class) k = true
        /\ sforall (in_cls false false query_value_class) v = true).
Proof.
  assert (E : sanitizeQueryParams queryObj !! k
     = if String.eqb k "__proto__" then None
     else option_map (fun kv => keep_chars query_value_class (trim kv.2))
            (find (fun kv => String.eqb (keep_chars query_key_class kv.1) k) (rev queryObj))).
  { exact (fold_assign_last (fun kv => Some (keep_chars query_key_class kv.1))
             (fun kv => keep_chars query_value_class (trim kv.2)) queryObj k). }
  split; [exact E|]. intros v Hv. rewrite E in Hv.
  destruct (String.eqb k "__proto__"); [discriminate|].
  destruct (find _ _) as [kv|] eqn:F; [|discriminate]. injection Hv as <-.
  apply find_some in F as [_ F]. apply String.eqb_eq in F. subst k.
  split; apply sfilter_sforall.
Qed.

Lemma sanitizeHeaders_lookup_witness :
  sanitizeHeaders Runs.sample_headers !! "accept" = Some "a/bSet-Cookie x=1"
  /\ sanitizeHeaders Runs.sample_headers !! "cookie" = None.
Proof.
  split.
  - exact (eq_trans (proj1 (sanitizeHeaders_lookup Runs.sample_headers "accept")) eq_refl).
  - exact (eq_trans (proj1 (sanitizeHeaders_lookup Runs.sample_headers "cookie")) eq_refl).
Defined.

Lemma sanitizeQueryParams_lookup_witness :
  sanitizeQueryParams [("q", " a b<c> "); ("q!", "x")] !! "q" = Some "x".
Proof.
  exact (eq_trans (proj1 (sanitizeQueryParams_lookup [("q", " a b<c> "); ("q!", "x")] "q"))
                  eq_refl).
Defined.

End SanitizeLaws.

Module ErrorPageLaws.
Import Str Rewrite ErrorPage Bytes.
Import RewriteLaws.

(** The entity that stands for a character of markup. *)
Local Abbreviation entity :=
  (fun c : ascii =>
     if Ascii.eqb c "&" then Some "&amp;"
     else if Ascii.eqb c "<" then Some "&lt;"
     else if Ascii.eqb c ">" then Some "&gt;"
     else if Ascii.eqb c dq then Some "&quot;"
     else if Ascii.eqb c "'" then Some "&#39;"
     else None).

Lemma replace_chars_app f (a b : string) :
  replace_chars f (a +:+ b) = replace_chars f a +:+ replace_chars f b.
Proof.
  induction a as [|x a IH]; [reflexivity|].
  change (replace_chars f (String x (a +:+ b))
          = replace_chars f (String x a) +:+ replace_chars f b).
  cbn [replace_chars]. rewrite IH. destruct (f x) as [r|].
  - clear. induction r as [|y r IH]; [reflexivity|].
    change (String y (r +:+ (replace_chars f a +:+ replace_chars f b))
            = String y ((r +:+ replace_chars f a) +:+ replace_chars f b)).
    now rewrite IH.
  - reflexivity.
Qed.

Lemma five_passes_one c :
  sanitizeForHtml (Some (String c EmptyString)) = replace_chars entity (String c EmptyString).
Proof.
  apply String.eqb_eq.
  exact (for_all_bytes
           (fun c => String.eqb (sanitizeForHtml (Some (String c EmptyString)))
                       (replace_chars entity (String c EmptyString)))
           ltac:(vm_compute; reflexivity) c).
Qed.

Lemma five_passes_app a b :
  sanitizeForHtml (Some (a +:+ b)) = sanitizeForHtml (Some a) +:+ sanitizeForHtml (Some b).
Proof. unfold sanitizeForHtml, replace_char. now rewrite !replace_chars_app. Qed.

Lemma entity_safe c x :
  In x ["<"; ">"; dq; "'"]%char ->
  lacks x (replace_chars entity (String c EmptyString)) = true.
Proof.
  intros Hx.
  assert (H : forallb (fun x => lacks x (replace_chars entity (String c EmptyString)))
                ["<"; ">"; dq; "'"]%char = true).
  { exact (for_all_bytes
             (fun c => forallb (fun x => lacks x (replace_chars entity (String c EmptyString)))
                         ["<"; ">"; dq; "'"]%char)
             ltac:(vm_compute; reflexivity) c). }
  exact (proj1 (forallb_forall _ _) H x Hx).
Qed.

(** X21: the five replacements of [sanitizeForHtml] act as one pass
    that writes each ampersand, angle bracket and quote as its entity
    and copies every other character: nothing is escaped twice.  The
    result holds no angle bracket and no quote of either kind. *)
Theorem sanitizeForHtml_escapes_once (t : string) :
  sanitizeForHtml (Some t) = replace_chars entity t
  /\ lacks "<" (sanitizeForHtml (Some t)) = true
  /\ lacks ">" (sanitizeForHtml (Some t)) = true
  /\ lacks dq (sanitizeForHtml (Some t)) = true
  /\ lacks "'" (sanitizeForHtml (Some t)) = true.
Proof.
  assert (E : sanitizeForHtml (Some t) = replace_chars entity t).
  { induction t as [|c t IH]; [reflexivity|].
    change (String c t) with (String c EmptyString +:+ t).
    rewrite five_passes_app, replace_chars_app, IH, five_passes_one. reflexivity. }
  split; [exact E|]. rewrite E.
  assert (L : forall x, In x ["<"; ">"; dq; "'"]%char -> lacks x (replace_chars entity t) = true).
  { clear E. intros x Hx. induction t as [|c t IH]; [reflexivity|].
    change (String c t) with (String c EmptyString +:+ t).
    rewrite replace_chars_app, lacks_append, (entity_safe c x Hx). exact IH. }
  repeat split; apply L; simpl; tauto.
Qed.

End ErrorPageLaws.

Module ConfigLaws.
Import Str Uri Url Config Bytes UriFacts StrFacts.

(** The characters of an encoded component. *)
Local Abbreviation component_char := (fun c : ascii => unreserved c || Ascii.eqb c "%").

Lemma drop_prefix (p s : string) : drop (String.length p) (p +:+ s) = s.
Proof. induction p as [|c p IH]; [destruct s; reflexivity|exact IH]. Qed.

Lemma prefix_app (p s : string) : String.prefix p (p +:+ s) = true.
Proof.
  induction p as [|c p IH]; [destruct s; reflexivity|].
  change (String.prefix (String c p) (String c (p +:+ s)) = true). cbn [String.prefix].
  destruct (ascii_dec c c); [exact IH|contradiction].
Qed.

Lemma encode_chars s : sforall component_char (encodeURIComponent s) = true.
Proof.
  unfold encodeURIComponent. induction s as [|c t IH]; [reflexivity|]. cbn [encode_with].
  rewrite sforall_app, IH, andb_true_r.
  exact (for_all_bytes
           (fun c => sforall component_char
                       (if unreserved c then String c EmptyString else escape c))
           ltac:(vm_compute; reflexivity) c).
Qed.

(** X22: for a well-formed target, [resolveProxyUrl] and
    [resolveResourceUrl] give the path prefix followed by a text of
    unreserved characters and percent signs only, so the target stays one
    query value, and decoding that text gives the target back. *)
Theorem resolveProxyUrl_round_trip (target : string) :
  utf8_valid target = true ->
  startsWith (resolveProxyUrl target) proxyPath = true
  /\ sforall component_char (drop (String.length proxyPath) (resolveProxyUrl target)) = true
  /\ decodeURIComponent (drop (String.length proxyPath) (resolveProxyUrl target)) = Some target
  /\ startsWith (resolveResourceUrl target) resourcePath = true
  /\ sforall component_char (drop (String.length resourcePath) (resolveResourceUrl target)) = true
  /\ decodeURIComponent (drop (String.length resourcePath) (resolveResourceUrl target))
     = Some target.
Proof.
  intros V. unfold startsWith, resolveProxyUrl, resolveResourceUrl.
  rewrite !drop_prefix, !prefix_app, (decode_encode _ V), encode_chars.
  repeat split; reflexivity.
Qed.

Lemma resolveProxyUrl_round_trip_witness :
  resolveProxyUrl "https://a.test/p?q=1&r=2#f" = "/proxy?url=https%3A%2F%2Fa.test%2Fp%3Fq%3D1%26r%3D2%23f"
  /\ decodeURIComponent (drop (String.length proxyPath) (resolveProxyUrl "https://a.test/p?q=1&r=2#f"))
     = Some "https://a.test/p?q=1&r=2#f".
Proof.
  split; [reflexivity|].
  exact (proj1 (proj2 (proj2 (resolveProxyUrl_round_trip "https://a.test/p?q=1&r=2#f" eq_refl)))).
Defined.

End ConfigLaws.

(* ===================================================================== *)
(** * Laws of the style sheet and cookie helpers *)
(* ===================================================================== *)

Module CssParserLaws.
Import Str Regex Rewrite CssParser Bytes RegexLaws.

Local Abbreviation is_at := (fun x : ascii => Ascii.eqb x "@").

Lemma free_lacks c s : lacks c s = true -> free (fun x => Ascii.eqb x c) s = true.
Proof.
  induction s as [|x s IH]; [reflexivity|]. simpl. intros H.
  apply andb_true_iff in H as [H1 H2]. rewrite H1, (IH H2). reflexivity.
Qed.

Lemma free_drop P n : forall s, free P s = true -> free P (drop n s) = true.
Proof.
  induction n as [|n IH]; intros [|c t] H; try exact H. cbn [drop].
  apply IH. exact (free_tail P c t H).
Qed.

Lemma exec_free re P s lastIndex :
  must (ignoreCase re) P (pattern re) = true -> free P s = true ->
  exec re s lastIndex = (None, 0%nat).
Proof.
  intros Hm Hs. unfold exec. destruct (_ <? _)%nat; [reflexivity|].
  rewrite (search_free re P _ _ _ _ Hm (free_drop P lastIndex s Hs)). reflexivity.
Qed.

(** X23: a style sheet without an at sign is returned by
    [inlineImports] as it is, in one step, whatever the fetcher and
    whatever [lastIndex] an earlier call left behind; [lastIndex] is 0
    afterwards unless the sheet is empty. *)
Theorem inlineImports_without_imports (fetcherFn : string -> option string)
        (fuel lastIndex : nat) (css baseUrl : string) :
  lacks "@" css = true ->
  inlineImports fetcherFn (S fuel) lastIndex css baseUrl
  = Some (css, if truthy css then 0%nat else lastIndex).
Proof.
  intros H. cbn [inlineImports]. destruct (truthy css); [|reflexivity]. cbn [negb].
  rewrite (exec_free IMPORT_REGEX is_at css lastIndex ltac:(vm_compute; reflexivity)
             (free_lacks "@" css H)).
  reflexivity.
Qed.

Lemma inlineImports_without_imports_witness :
  inlineImports Runs.chain 1 7 Runs.sheet_c Runs.base_a = Some (Runs.sheet_c, 0%nat).
Proof. exact (inlineImports_without_imports Runs.chain 0 7 Runs.sheet_c Runs.base_a eq_refl). Defined.

End CssParserLaws.

Module CookiesLaws.
Import Str Cookies ObjFacts SplitFacts.

(** X24: [filterCookies] keeps a cookie, with its value, exactly when
    its name is not on the blacklist, is on the whitelist if that is not
    empty, and is not __proto__; the blacklist wins over the whitelist. *)
Theorem filterCookies_lookup (cookies : gmap string string) (whitelist blacklist : list string)
        (k : string) :
  filterCookies cookies whitelist blacklist !! k
  = if includes blacklist k then None
    else if negb (List.length whitelist =? 0)%nat && negb (includes whitelist k) then None
    else if String.eqb k "__proto__" then None
    else cookies !! k.
Proof.
  unfold filterCookies.
  rewrite (fold_assign_filter
             (fun k => includes blacklist k
                       || negb (List.length whitelist =? 0)%nat && negb (includes whitelist k))).
  - destruct (includes blacklist k); cbn [orb]; [reflexivity|].
    destruct (negb _ && negb _); reflexivity.
  - intros i v acc. destruct (includes blacklist i); cbn [orb]; reflexivity.
Qed.

Local Abbreviation pair_of := (fun kv : string * string => serializeCookie kv.1 kv.2 no_options).

Local Abbreviation read_pair :=
  (fun (result : gmap string string) (pair : string) =>
     match indexOf "=" pair with
     | Some idx =>
         if (0 <? idx)%nat
         then Obj.assign (trim (slice 0 idx pair)) (trim (drop (idx + 1) pair)) result
         else result
     | None => result
     end).

Lemma read_plain_pair pre k v result :
  lacks "=" pre = true -> trimStart (pre +:+ k) = trimStart k ->
  plain_name k = true -> plain_value v = true ->
  read_pair result (pre +:+ k +:+ "=" +:+ v) = <[k := v]> result.
Proof.
  intros Hpre Htrim Hk Hv. unfold plain_name in Hk. unfold plain_value in Hv.
  repeat (apply andb_true_iff in Hk as [Hk ?]). apply andb_true_iff in Hv as [Hv1 Hv2].
  apply String.eqb_eq in H0, Hv2. apply negb_true_iff in H.
  cbv beta. unfold indexOf.
  replace (pre +:+ k +:+ "=" +:+ v) with ((pre +:+ k) +:+ String "=" v)
    by (rewrite app_assoc_s; reflexivity).
  rewrite indexOf_from_char by (rewrite lacks_app, Hpre, H1; reflexivity).
  cbn [Nat.add].
  assert (L : (0 <? String.length (pre +:+ k))%nat = true).
  { apply Nat.ltb_lt. rewrite StrFacts.length_app. destruct k; [discriminate|]. simpl. lia. }
  rewrite L. unfold slice. rewrite Nat.sub_0_r. cbn [drop]. rewrite take_app.
  replace (String.length (pre +:+ k) + 1)%nat with (String.length ((pre +:+ k) +:+ "=")).
  2:{ rewrite (StrFacts.length_app (pre +:+ k) "="). reflexivity. }
  replace ((pre +:+ k) +:+ String "=" v) with (((pre +:+ k) +:+ "=") +:+ v)
    by (rewrite (app_assoc_s (pre +:+ k) "=" v); reflexivity).
  rewrite drop_app, Hv2.
  assert (T : trim (pre +:+ k) = k).
  { unfold trim. rewrite Htrim. exact H0. }
  rewrite T. unfold Obj.assign. rewrite H. reflexivity.
Qed.

Lemma pair_lacks_semicolon kv :
  plain_name kv.1 = true -> plain_value kv.2 = true -> lacks ";" (pair_of kv) = true.
Proof.
  intros Hk Hv. unfold plain_name in Hk. unfold plain_value in Hv.
  repeat (apply andb_true_iff in Hk as [Hk ?]). apply andb_true_iff in Hv as [Hv1 Hv2].
  unfold serializeCookie. cbn. rewrite !lacks_app, H2, Hv1. reflexivity.
Qed.

Local Abbreviation plain := (fun kv : string * string => plain_name kv.1 && plain_value kv.2).

Lemma lacks_spaced x : lacks ";" x = true -> lacks ";" (String " " x) = true.
Proof. intros H. cbn [lacks]. rewrite H. reflexivity. Qed.

Lemma split_joined kv l :
  forallb plain (kv :: l) = true ->
  split ";" (join "; " (map pair_of (kv :: l)))
  = pair_of kv :: map (fun x => " " +:+ pair_of x) l.
Proof.
  revert kv. induction l as [|y l IH]; intros kv H.
  - cbn [forallb] in H. rewrite andb_true_r in H. apply andb_true_iff in H as [Hk Hv].
    cbn [map join]. apply split_whole, pair_lacks_semicolon; assumption.
  - cbn [forallb] in H. apply andb_true_iff in H as [H1 H2].
    apply andb_true_iff in H1 as [Hk Hv].
    change (join "; " (map pair_of (kv :: y :: l)))
      with (pair_of kv +:+ String ";" (" " +:+ join "; " (map pair_of (y :: l)))).
    rewrite split_first by (apply pair_lacks_semicolon; assumption). f_equal.
    cbn [forallb] in H2. pose proof H2 as H2'. apply andb_true_iff in H2' as [Hy _].
    apply andb_true_iff in Hy as [Hyk Hyv].
    destruct l as [|z l].
    + cbn [map join].
      change (" " +:+ pair_of y) with (String " " (pair_of y)).
      rewrite split_whole; [reflexivity|].
      apply lacks_spaced, pair_lacks_semicolon; assumption.
    + specialize (IH y H2).
      change (join "; " (map pair_of (y :: z :: l)))
        with (pair_of y +:+ String ";" (" " +:+ join "; " (map pair_of (z :: l)))) in *.
      rewrite split_first in IH by (apply pair_lacks_semicolon; assumption).
      injection IH as IH.
      change (" " +:+ (pair_of y +:+ String ";" (" " +:+ join "; " (map pair_of (z :: l)))))
        with ((String " " (pair_of y)) +:+ String ";" (" " +:+ join "; " (map pair_of (z :: l)))).
      rewrite split_first by (apply lacks_spaced, pair_lacks_semicolon; assumption).
      cbn [map]. f_equal. exact IH.
Qed.

Lemma read_spaced l : forall acc,
  forallb plain l = true ->
  fold_left read_pair (map (fun x => " " +:+ pair_of x) l) acc
  = fold_left (fun m kv => <[kv.1 := kv.2]> m) l acc.
Proof.
  induction l as [|kv l IH]; intros acc H; [reflexivity|].
  cbn [forallb] in H. apply andb_true_iff in H as [H1 H2].
  apply andb_true_iff in H1 as [Hk Hv]. cbn [map fold_left].
  rewrite <- (IH _ H2). f_equal.
  exact (read_plain_pair " " kv.1 kv.2 acc eq_refl eq_refl Hk Hv).
Qed.

(** X25: [parseCookieHeader] reads back what [serializeCookie] wrote.
    For pairs of plain names and plain values, each serialized without
    options and joined with a semicolon and a space, the parsed object
    is the one that assigning the pairs in order builds: every name
    holds its value, a repeated name the last one. *)
Theorem parseCookieHeader_reads_back (l : list (string * string)) :
  forallb plain l = true ->
  parseCookieHeader (join "; " (map pair_of l))
  = fold_left (fun m kv => <[kv.1 := kv.2]> m) l ∅.
Proof.
  intros H. destruct l as [|kv l]; [reflexivity|].
  unfold parseCookieHeader.
  assert (T : truthy (join "; " (map pair_of (kv :: l))) = true).
  { cbn [forallb] in H. apply andb_true_iff in H as [H _]. apply andb_true_iff in H as [Hk _].
    unfold plain_name in Hk. repeat (apply andb_true_iff in Hk as [Hk ?]).
    destruct kv as [k v]. destruct k; [discriminate|]. destruct l; reflexivity. }
  rewrite T. cbn [negb]. rewrite (split_joined kv l H).
  cbn [forallb] in H. apply andb_true_iff in H as [H1 H2].
  apply andb_true_iff in H1 as [Hk Hv]. cbn [fold_left].
  rewrite <- (read_spaced l _ H2). f_equal.
  exact (read_plain_pair "" kv.1 kv.2 ∅ eq_refl eq_refl Hk Hv).
Qed.

Lemma parseCookieHeader_reads_back_witness :
  parseCookieHeader "sid=abc; theme=dark=1; sid=xyz"
  = <["sid" := "xyz"]> (<["theme" := "dark=1"]> (<["sid" := "abc"]> ∅)).
Proof.
  exact (parseCookieHeader_reads_back [("sid", "abc"); ("theme", "dark=1"); ("sid", "xyz")]
           eq_refl).
Defined.

End CookiesLaws.

(* ===================================================================== *)
(** * Laws of the address checks *)
(* ===================================================================== *)

Module SecurityLaws.
Import Str Url Net Security SplitFacts QuadFacts.

Section RateLimit.
Variables limit perMs : Z.

Local Abbreviation recent now := (fun t : Z => (now - t <? perMs)%Z).
Local Abbreviation times ip cs :=
  (map snd (List.filter (fun c : string * Z => String.eqb c.1 ip) cs)).

(** What the map remembers of the calls [cs]: for a time not before
    any of them, the timestamps still in the window. *)
Local Abbreviation remembers cs m :=
  (forall ip now, Forall (fun c : string * Z => (c.2 <= now)%Z) cs ->
     List.filter (recent now) (default [] (m !! ip)) = List.filter (recent now) (times ip cs)).

Lemma filter_recent_twice now now' l :
  (now <= now')%Z ->
  List.filter (recent now') (List.filter (recent now) l) = List.filter (recent now') l.
Proof.
  intros H. induction l as [|t l IH]; [reflexivity|]. cbn [List.filter].
  destruct (now - t <? perMs)%Z eqn:A; cbn [List.filter].
  - rewrite IH. reflexivity.
  - rewrite IH. replace (now' - t <? perMs)%Z with false; [reflexivity|].
    symmetry. apply Z.ltb_ge. apply Z.ltb_ge in A. lia.
Qed.

Lemma filter_app_list {A} (f : A -> bool) l1 l2 :
  List.filter f (l1 ++ l2) = List.filter f l1 ++ List.filter f l2.
Proof. induction l1 as [|x l1 IH]; [reflexivity|]. simpl. destruct (f x); simpl; now rewrite IH. Qed.

Lemma enforce_state ip now m :
  (enforceRateLimit ip limit perMs now m).2
  = <[ip := List.filter (recent now) (default [] (m !! ip)) ++ [now]]> m.
Proof.
  unfold enforceRateLimit. destruct (m !! ip) as [l|] eqn:E.
  - rewrite E. destruct (_ >? _)%Z; reflexivity.
  - rewrite lookup_insert_eq. cbn [default List.filter app].
    rewrite insert_insert_eq. destruct (_ >? _)%Z; reflexivity.
Qed.

Lemma enforce_answer ip now m :
  (enforceRateLimit ip limit perMs now m).1
  = (Z.of_nat (List.length (List.filter (recent now) (default [] (m !! ip)))) + 1 <=? limit)%Z.
Proof.
  unfold enforceRateLimit.
  assert (E : default [] ((match m !! ip with Some _ => m | None => <[ip := []]> m end) !! ip)
              = default [] (m !! ip)).
  { destruct (m !! ip) as [l|] eqn:E; [rewrite E; reflexivity|].
    rewrite lookup_insert_eq. reflexivity. }
  rewrite E, length_app. cbn [List.length].
  destruct (_ >? _)%Z eqn:G; cbn [fst]; symmetry.
  - apply Z.leb_gt. apply Z.gtb_lt in G. lia.
  - apply Z.leb_le. rewrite Z.gtb_ltb in G. apply Z.ltb_ge in G. lia.
Qed.

Lemma enforce_remembers ip now cs m :
  Forall (fun c : string * Z => (c.2 <= now)%Z) cs ->
  remembers cs m ->
  remembers (cs ++ [(ip, now)]) (enforceRateLimit ip limit perMs now m).2.
Proof.
  intros Hle Inv ip' now' Hall. rewrite enforce_state.
  apply Forall_app in Hall as [Hcs Hnow]. inversion Hnow as [|? ? Hn _]; subst. cbn in Hn.
  rewrite filter_app_list, map_app. cbn [List.filter fst].
  destruct (String.eqb_spec ip ip') as [->|N].
  - rewrite lookup_insert_eq. cbn [map snd].
    change (default [] (Some ?x)) with x.
    rewrite !filter_app_list, (filter_recent_twice now now' _ Hn), (Inv ip' now' Hcs).
    reflexivity.
  - rewrite (lookup_insert_ne _ _ _ _ N). cbn [map]. rewrite app_nil_r. apply Inv, Hcs.
Qed.

Lemma serve_remembers cs : forall cs0 m,
  StronglySorted Z.le (map snd (cs0 ++ cs)) ->
  remembers cs0 m ->
  remembers (cs0 ++ cs) (serve limit perMs cs m).2.
Proof.
  induction cs as [|[ip now] cs IH]; intros cs0 m Hs Inv.
  - rewrite app_nil_r. exact Inv.
  - cbn [serve].
    destruct (enforceRateLimit ip limit perMs now m) as [r m1] eqn:E.
    destruct (serve limit perMs cs m1) as [rs m2] eqn:E2. cbn [snd].
    replace m2 with (serve limit perMs cs m1).2 by (rewrite E2; reflexivity).
    replace (cs0 ++ (ip, now) :: cs) with ((cs0 ++ [(ip, now)]) ++ cs)
      by (rewrite <- app_assoc; reflexivity).
    apply IH.
    + rewrite <- app_assoc. exact Hs.
    + replace m1 with (enforceRateLimit ip limit perMs now m).2 by (rewrite E; reflexivity).
      apply enforce_remembers; [|exact Inv].
      rewrite map_app in Hs. cbn [map] in Hs.
      clear - Hs. induction cs0 as [|c cs0 IHc]; [constructor|].
      cbn [map app] in Hs. inversion Hs as [|? ? Hs' Hc]; subst. constructor.
      * apply Forall_app in Hc as [_ Hc]. inversion Hc; subst. assumption.
      * apply IHc, Hs'.
Qed.

Lemma count_window ip now cs :
  List.length (List.filter (recent now) (times ip cs))
  = List.length (List.filter (fun c : string * Z => String.eqb c.1 ip && (now - c.2 <? perMs)%Z) cs).
Proof.
  induction cs as [|c cs IH]; [reflexivity|]. cbn [List.filter].
  destruct (String.eqb c.1 ip); cbn [andb map List.filter]; [|exact IH].
  destruct (now - c.2 <? perMs)%Z; cbn [List.length]; now rewrite IH.
Qed.

(** X26: [enforceRateLimit] is a sliding window.  After any calls
    made with a clock that does not go back, a call at time [now] is
    admitted exactly when the earlier calls from the same address less
    than [perMs] before [now], the refused ones included, and the call
    itself are at most [limit]. *)
Theorem enforceRateLimit_counts_the_window (cs : list (string * Z)) (ip : string) (now : Z) :
  StronglySorted Z.le (map snd cs ++ [now]) ->
  (enforceRateLimit ip limit perMs now (serve limit perMs cs ∅).2).1
  = (Z.of_nat (List.length
                 (List.filter (fun c : string * Z =>
                                 String.eqb c.1 ip && (now - c.2 <? perMs)%Z) cs)) + 1
     <=? limit)%Z.
Proof.
  intros Hs. rewrite enforce_answer, <- count_window. do 4 f_equal.
  assert (Inv : remembers ([] ++ cs) (serve limit perMs cs ∅).2).
  { apply serve_remembers.
    - cbn [app]. clear - Hs. induction cs as [|c cs IH]; [constructor|].
      cbn [map app] in Hs. inversion Hs as [|? ? Hs' Hc]; subst. constructor.
      + apply IH, Hs'.
      + apply Forall_app in Hc as [Hc _]. exact Hc.
    - intros ip' now' _. rewrite lookup_empty. reflexivity. }
  cbn [app] in Inv. apply Inv.
  clear - Hs. induction cs as [|c cs IH]; [constructor|].
  cbn [map app] in Hs. inversion Hs as [|? ? Hs' Hc]; subst. constructor.
  - apply Forall_app in Hc as [_ Hc]. inversion Hc; subst. assumption.
  - apply IH, Hs'.
Qed.

End RateLimit.

Lemma sorted_times_example :
  StronglySorted Z.le (map snd [("1.2.3.4", 100); ("5.6.7.8", 200); ("1.2.3.4", 600)]%Z ++ [1500%Z])
  /\ StronglySorted Z.le
       (map snd [("1.2.3.4", 600); ("1.2.3.4", 700); ("1.2.3.4", 800)]%Z ++ [1500%Z]).
Proof.
  cbn [map snd app].
  split;
    repeat match goal with
           | |- StronglySorted _ _ => constructor
           | |- Forall _ _ => constructor
           end; lia.
Qed.

Lemma enforceRateLimit_counts_the_window_witness :
  (enforceRateLimit "1.2.3.4" 2 1000 1500
     (serve 2 1000 [("1.2.3.4", 100); ("5.6.7.8", 200); ("1.2.3.4", 600)]%Z ∅).2).1
  = true
  /\ (enforceRateLimit "1.2.3.4" 2 1000 1500
        (serve 2 1000 [("1.2.3.4", 600); ("1.2.3.4", 700); ("1.2.3.4", 800)]%Z ∅).2).1
     = false.
Proof.
  split.
  - refine (eq_trans (enforceRateLimit_counts_the_window 2 1000
               [("1.2.3.4", 100); ("5.6.7.8", 200); ("1.2.3.4", 600)]%Z
               "1.2.3.4" 1500 (proj1 sorted_times_example)) _).
    vm_compute. reflexivity.
  - refine (eq_trans (enforceRateLimit_counts_the_window 2 1000
               [("1.2.3.4", 600); ("1.2.3.4", 700); ("1.2.3.4", 800)]%Z "1.2.3.4" 1500
               (proj2 sorted_times_example)) _).
    vm_compute. reflexivity.
Defined.

Lemma to_int32_small x : (- 2 ^ 31 <= x < 2 ^ 31)%Z -> to_int32 x = x.
Proof. intros H. unfold to_int32. rewrite Z.mod_small; lia. Qed.

Lemma to_int32_wrap x : (2 ^ 31 <= x < 2 ^ 32)%Z -> to_int32 x = (x - 2 ^ 32)%Z.
Proof.
  intros H. unfold to_int32.
  replace (x + 2 ^ 31)%Z with ((x - 2 ^ 31) + 1 * 2 ^ 32)%Z by lia.
  rewrite Z.mod_add by lia. rewrite Z.mod_small; lia.
Qed.

Lemma ipToInt_quad a b c d :
  (a < 256)%N -> (b < 256)%N -> (c < 256)%N -> (d < 256)%N ->
  isIPv4 (dotted_quad a b c d) = true
  /\ ipToInt (dotted_quad a b c d) = Some (quad_int a b c d).
Proof.
  intros Ha Hb Hc Hd.
  destruct (octet_facts a Ha) as (Oa & Pa & _). destruct (octet_facts b Hb) as (Ob & Pb & _).
  destruct (octet_facts c Hc) as (Oc & Pc & _). destruct (octet_facts d Hd) as (Od & Pd & _).
  unfold isIPv4, ipToInt. rewrite (split_quad a b c d Ha Hb Hc Hd).
  rewrite Oa, Ob, Oc, Od. split; [reflexivity|].
  cbn [fold_left]. rewrite Pa, Pb, Pc, Pd. cbn [default]. f_equal.
  unfold id. change (to_int32 (to_int32 0 * 2 ^ 8)) with 0%Z.
  rewrite (to_int32_small (0 + Z.of_N a)) by lia.
  rewrite (to_int32_small ((0 + Z.of_N a) * 2 ^ 8)) by lia.
  rewrite (to_int32_small ((0 + Z.of_N a) * 2 ^ 8 + Z.of_N b)) by lia.
  rewrite (to_int32_small (((0 + Z.of_N a) * 2 ^ 8 + Z.of_N b) * 2 ^ 8)) by lia.
  rewrite (to_int32_small (((0 + Z.of_N a) * 2 ^ 8 + Z.of_N b) * 2 ^ 8 + Z.of_N c)) by lia.
  unfold quad_int. destruct (N.ltb_spec a 128).
  - rewrite to_int32_small by lia. lia.
  - rewrite to_int32_wrap by lia. lia.
Qed.

Lemma ipInSubnet_unfold ip subnet block mask bits X B :
  split "/" subnet = [block; mask] -> parseInt10 mask = Some bits ->
  isIPv4 ip = true -> ipToInt ip = Some X ->
  isIPv4 block = true -> ipToInt block = Some B ->
  ipInSubnet ip subnet
  = if (X =? 0)%Z || (B =? 0)%Z then false
    else (Z.land (to_int32 X) (mask_of (Some bits))
          =? Z.land (to_int32 B) (mask_of (Some bits)))%Z.
Proof.
  intros H1 H2 H3 H4 H5 H6. unfold ipInSubnet. rewrite H1. cbn [nth nth_error].
  rewrite H2, H3, H4, H5, H6. reflexivity.
Qed.

Lemma land_clear_low x k :
  (0 <= k)%Z -> Z.land x (Z.lnot (Z.ones k)) = (x / 2 ^ k * 2 ^ k)%Z.
Proof.
  intros H. rewrite <- Z.ldiff_land, Z.ldiff_ones_r by exact H.
  rewrite Z.shiftl_mul_pow2, Z.shiftr_div_pow2 by exact H. reflexivity.
Qed.

Lemma quad_int_range a b c d :
  (a < 256)%N -> (b < 256)%N -> (c < 256)%N -> (d < 256)%N ->
  (- 2 ^ 31 <= quad_int a b c d < 2 ^ 31)%Z.
Proof. intros. unfold quad_int. destruct (N.ltb_spec a 128); lia. Qed.

Section Quad.
Variables a b c d : N.
Hypothesis Ha : (a < 256)%N.
Hypothesis Hb : (b < 256)%N.
Hypothesis Hc : (c < 256)%N.
Hypothesis Hd : (d < 256)%N.

Lemma in_subnet subnet block mask bits B k :
  split "/" subnet = [block; mask] -> parseInt10 mask = Some bits ->
  isIPv4 block = true -> ipToInt block = Some B ->
  (- 2 ^ 31 <= B < 2 ^ 31)%Z -> (0 <= k)%Z ->
  mask_of (Some bits) = Z.lnot (Z.ones k) ->
  ipInSubnet (dotted_quad a b c d) subnet
  = if (quad_int a b c d =? 0)%Z || (B =? 0)%Z then false
    else (quad_int a b c d / 2 ^ k =? B / 2 ^ k)%Z.
Proof.
  intros H1 H2 H5 H6 HB Hk HM.
  destruct (ipToInt_quad a b c d Ha Hb Hc Hd) as [H3 H4].
  rewrite (ipInSubnet_unfold _ _ _ _ _ _ _ H1 H2 H3 H4 H5 H6), HM.
  destruct (_ || _); [reflexivity|].
  rewrite (to_int32_small _ (quad_int_range a b c d Ha Hb Hc Hd)), (to_int32_small _ HB).
  rewrite !land_clear_low by exact Hk.
  destruct (Z.eqb_spec (quad_int a b c d / 2 ^ k) (B / 2 ^ k)) as [E|N].
  - rewrite E. apply Z.eqb_refl.
  - apply Z.eqb_neq. intros E. apply N.
    apply (Z.mul_reg_r _ _ (2 ^ k)); [|exact E]. apply Z.pow_nonzero; lia.
Qed.

Lemma in_loopback : ipInSubnet (dotted_quad a b c d) "127.0.0.0/8" = (a =? 127)%N.
Proof.
  rewrite (in_subnet "127.0.0.0/8" "127.0.0.0" "8" 8 (127 * 2 ^ 24) 24
             ltac:(vm_compute; reflexivity) ltac:(vm_compute; reflexivity)
             ltac:(vm_compute; reflexivity) ltac:(vm_compute; reflexivity)
             ltac:(lia) ltac:(lia) ltac:(vm_compute; reflexivity)).
  unfold quad_int. change (127 * 2 ^ 24 =? 0)%Z with false. rewrite orb_false_r.
  destruct (N.eqb_spec a 127) as [->|N].
  - change (127 <? 128)%N with true. cbv iota.
    replace (_ =? 0)%Z with false by (symmetry; apply Z.eqb_neq; lia).
    apply Z.eqb_eq. Z.div_mod_to_equations. lia.
  - destruct (_ =? 0)%Z; [reflexivity|]. apply Z.eqb_neq. intros E. apply N.
    destruct (N.ltb_spec a 128); Z.div_mod_to_equations; lia.
Qed.

Lemma in_ten : ipInSubnet (dotted_quad a b c d) "10.0.0.0/8" = (a =? 10)%N.
Proof.
  rewrite (in_subnet "10.0.0.0/8" "10.0.0.0" "8" 8 (10 * 2 ^ 24) 24
             ltac:(vm_compute; reflexivity) ltac:(vm_compute; reflexivity)
             ltac:(vm_compute; reflexivity) ltac:(vm_compute; reflexivity)
             ltac:(lia) ltac:(lia) ltac:(vm_compute; reflexivity)).
  unfold quad_int. change (10 * 2 ^ 24 =? 0)%Z with false. rewrite orb_false_r.
  destruct (N.eqb_spec a 10) as [->|N].
  - change (10 <? 128)%N with true. cbv iota.
    replace (_ =? 0)%Z with false by (symmetry; apply Z.eqb_neq; lia).
    apply Z.eqb_eq. Z.div_mod_to_equations. lia.
  - destruct (_ =? 0)%Z; [reflexivity|]. apply Z.eqb_neq. intros E. apply N.
    destruct (N.ltb_spec a 128); Z.div_mod_to_equations; lia.
Qed.

Lemma in_172 :
  ipInSubnet (dotted_quad a b c d) "172.16.0.0/12"
  = ((a =? 172) && (16 <=? b) && (b <=? 31))%N.
Proof.
  rewrite (in_subnet "172.16.0.0/12" "172.16.0.0" "12" 12
             (172 * 2 ^ 24 + 16 * 2 ^ 16 - 2 ^ 32) 20
             ltac:(vm_compute; reflexivity) ltac:(vm_compute; reflexivity)
             ltac:(vm_compute; reflexivity) ltac:(vm_compute; reflexivity)
             ltac:(lia) ltac:(lia) ltac:(vm_compute; reflexivity)).
  unfold quad_int. change (172 * 2 ^ 24 + 16 * 2 ^ 16 - 2 ^ 32 =? 0)%Z with false.
  rewrite orb_false_r.
  destruct (N.eqb_spec a 172) as [->|N]; cbn [andb].
  - change (172 <? 128)%N with false. cbv iota.
    replace (_ =? 0)%Z with false by (symmetry; apply Z.eqb_neq; lia).
    destruct (N.leb_spec 16 b); cbn [andb].
    + destruct (N.leb_spec b 31).
      * apply Z.eqb_eq. Z.div_mod_to_equations. lia.
      * apply Z.eqb_neq. Z.div_mod_to_equations. lia.
    + apply Z.eqb_neq. Z.div_mod_to_equations. lia.
  - destruct (_ =? 0)%Z; [reflexivity|]. apply Z.eqb_neq. intros E. apply N.
    destruct (N.ltb_spec a 128); Z.div_mod_to_equations; lia.
Qed.

Lemma in_192 :
  ipInSubnet (dotted_quad a b c d) "192.168.0.0/16" = ((a =? 192) && (b =? 168))%N.
Proof.
  rewrite (in_subnet "192.168.0.0/16" "192.168.0.0" "16" 16
             (192 * 2 ^ 24 + 168 * 2 ^ 16 - 2 ^ 32) 16
             ltac:(vm_compute; reflexivity) ltac:(vm_compute; reflexivity)
             ltac:(vm_compute; reflexivity) ltac:(vm_compute; reflexivity)
             ltac:(lia) ltac:(lia) ltac:(vm_compute; reflexivity)).
  unfold quad_int. change (192 * 2 ^ 24 + 168 * 2 ^ 16 - 2 ^ 32 =? 0)%Z with false.
  rewrite orb_false_r.
  destruct (N.eqb_spec a 192) as [->|N]; cbn [andb].
  - change (192 <? 128)%N with false. cbv iota.
    replace (_ =? 0)%Z with false by (symmetry; apply Z.eqb_neq; lia).
    destruct (N.eqb_spec b 168) as [->|Nb].
    + apply Z.eqb_eq. Z.div_mod_to_equations. lia.
    + apply Z.eqb_neq. Z.div_mod_to_equations. lia.
  - destruct (_ =? 0)%Z; [reflexivity|]. apply Z.eqb_neq. intros E. apply N.
    destruct (N.ltb_spec a 128); Z.div_mod_to_equations; lia.
Qed.

Lemma quad_blocked :
  existsb (fun sub => ipInSubnet (dotted_quad a b c d) sub) blockedSubnets
  = private_range a b.
Proof.
  unfold blockedSubnets, private_range. cbn [existsb].
  rewrite in_loopback, in_ten, in_172, in_192, orb_false_r, !orb_assoc. reflexivity.
Qed.

End Quad.

Lemma other_not_blocked ip : isIPv4 ip = false ->
  existsb (fun sub => ipInSubnet ip sub) blockedSubnets = false.
Proof.
  intros H. unfold blockedSubnets, ipInSubnet. cbn [existsb]. rewrite H. reflexivity.
Qed.

Lemma address_blocked x :
  resolved_ok x = true ->
  existsb (fun sub => ipInSubnet (address_text x) sub) blockedSubnets = address_private x.
Proof.
  destruct x as [[[[a b] c] d]|s]; cbn [resolved_ok address_text address_private]; intros H.
  - repeat (apply andb_true_iff in H as [H ?]).
    apply quad_blocked; apply N.ltb_lt; assumption.
  - apply other_not_blocked. apply negb_true_iff. exact H.
Qed.

(** X27: for a host name that does not end with an allowed domain and
    whose lookup gives IPv4 addresses a.b.c.d and texts that are not
    IPv4 addresses, [checkHostAllowed] answers false exactly when one of
    the IPv4 addresses is in 127/8, 10/8, 172.16/12 or 192.168/16; an
    address of another family, such as the IPv6 loopback, never makes it
    refuse. *)
Theorem checkHostAllowed_refuses_private_ranges
        (dns : string -> option (list string)) (hostname : string)
        (addrs : list (N * N * N * N + string)) :
  truthy hostname = true ->
  existsb (fun d => endsWith (toLowerCase hostname) d) allowedDomains = false ->
  forallb resolved_ok addrs = true ->
  dns (toLowerCase hostname) = Some (map address_text addrs) ->
  checkHostAllowed dns hostname = negb (existsb address_private addrs).
Proof.
  intros Ht Ha Hr Hd.
  assert (E : existsb (fun ip => existsb (fun sub => ipInSubnet ip sub) blockedSubnets)
                      (map address_text addrs)
              = existsb address_private addrs).
  { clear Hd. induction addrs as [|x l IH]; [reflexivity|]. cbn [forallb] in Hr.
    apply andb_true_iff in Hr as [Hx Hl]. cbn [map existsb].
    rewrite (address_blocked x Hx), (IH Hl). reflexivity. }
  unfold checkHostAllowed. rewrite Ht, Ha, Hd, E. reflexivity.
Qed.

Lemma checkHostAllowed_refuses_private_ranges_witness :
  checkHostAllowed (fun _ => Some ["93.184.216.34"; "::1"]) "Site.test" = true
  /\ checkHostAllowed (fun _ => Some ["93.184.216.34"; "172.20.0.1"]) "site.test" = false.
Proof.
  split.
  - exact (checkHostAllowed_refuses_private_ranges
             (fun _ => Some ["93.184.216.34"; "::1"]) "Site.test"
             [inl (93, 184, 216, 34)%N; inr "::1"] eq_refl eq_refl eq_refl eq_refl).
  - exact (checkHostAllowed_refuses_private_ranges
             (fun _ => Some ["93.184.216.34"; "172.20.0.1"]) "site.test"
             [inl (93, 184, 216, 34)%N; inl (172, 20, 0, 1)%N] eq_refl eq_refl eq_refl eq_refl).
Defined.

End SecurityLaws.

Module ValidatorLaws.
Import Str Url Net Validator Security SplitFacts QuadFacts.

(** X28: on an IPv4 address a.b.c.d [isLocalAddress] answers true
    exactly for 10.x.x.x, 192.168.x.x, 172.16.x.x and 127.0.0.1; the rest
    of 172.16/12 and of 127/8 is not local to it. *)
Theorem isLocalAddress_on_dotted_quads (isIPv6 : string -> bool) (a b c d : N) :
  (a < 256)%N -> (b < 256)%N -> (c < 256)%N -> (d < 256)%N ->
  isLocalAddress isIPv6 (dotted_quad a b c d)
  = ((a =? 10) || ((a =? 192) && (b =? 168)) || ((a =? 172) && (b =? 16))
     || ((a =? 127) && (b =? 0) && (c =? 0) && (d =? 1)))%N.
Proof.
  intros Ha Hb Hc Hd.
  destruct (octet_facts a Ha) as (_ & _ & La). destruct (octet_facts b Hb) as (_ & _ & Lb).
  destruct (octet_facts c Hc) as (_ & _ & Lc). destruct (octet_facts d Hd) as (_ & _ & Ld).
  unfold isLocalAddress, isIP. rewrite (isIPv4_quad a b c d Ha Hb Hc Hd).
  change (4 =? 0)%Z with false. cbv iota.
  unfold startsWith, dotted_quad. rewrite !dot_app.
  change "10." with ("10" +:+ String "." "").
  change "192.168." with ("192" +:+ String "." ("168" +:+ String "." "")).
  change "172.16." with ("172" +:+ String "." ("16" +:+ String "." "")).
  rewrite (prefix_label "10" "" _ _ eq_refl La),
    (prefix_label "192" ("168" +:+ String "." "") _ _ eq_refl La),
    (prefix_label "168" "" _ _ eq_refl Lb),
    (prefix_label "172" ("16" +:+ String "." "") _ _ eq_refl La),
    (prefix_label "16" "" _ _ eq_refl Lb).
  rewrite (String.eqb_sym _ "127.0.0.1").
  change "127.0.0.1" with ("127" +:+ String "." ("0" +:+ String "." ("0" +:+ String "." "1"))).
  rewrite (eqb_label "127" ("0" +:+ String "." ("0" +:+ String "." "1")) _ _ eq_refl La),
    (eqb_label "0" ("0" +:+ String "." "1") _ _ eq_refl Lb),
    (eqb_label "0" "1" _ _ eq_refl Lc).
  rewrite (octet_text "10" 10 a ltac:(vm_compute; reflexivity) Ha),
    (octet_text "192" 192 a ltac:(vm_compute; reflexivity) Ha),
    (octet_text "172" 172 a ltac:(vm_compute; reflexivity) Ha),
    (octet_text "127" 127 a ltac:(vm_compute; reflexivity) Ha),
    (octet_text "168" 168 b ltac:(vm_compute; reflexivity) Hb),
    (octet_text "16" 16 b ltac:(vm_compute; reflexivity) Hb),
    (octet_text "0" 0 b ltac:(vm_compute; reflexivity) Hb),
    (octet_text "0" 0 c ltac:(vm_compute; reflexivity) Hc),
    (octet_text "1" 1 d ltac:(vm_compute; reflexivity) Hd).
  assert (P0 : forall s : string, String.prefix "" s = true) by (intros []; reflexivity).
  rewrite !P0, !andb_true_r.
  destruct (a =? 10)%N, ((a =? 192) && (b =? 168))%N, ((a =? 172) && (b =? 16))%N;
    cbn [orb]; try reflexivity.
  rewrite !andb_assoc. reflexivity.
Qed.

Lemma isLocalAddress_on_dotted_quads_witness :
  isLocalAddress (fun _ => false) "172.20.0.1" = false
  /\ isLocalAddress (fun _ => false) "127.0.0.2" = false
  /\ isLocalAddress (fun _ => false) "192.168.1.1" = true.
Proof.
  split; [|split].
  - exact (isLocalAddress_on_dotted_quads (fun _ => false) 172 20 0 1
             eq_refl eq_refl eq_refl eq_refl).
  - exact (isLocalAddress_on_dotted_quads (fun _ => false) 127 0 0 2
             eq_refl eq_refl eq_refl eq_refl).
  - exact (isLocalAddress_on_dotted_quads (fun _ => false) 192 168 1 1
             eq_refl eq_refl eq_refl eq_refl).
Defined.

End ValidatorLaws.

(* ===================================================================== *)
(** * rewriteCss over a text laid out by its references *)
(* ===================================================================== *)

Module RewriteCssLaws.
Import Str Regex Uri Rewrite Bytes RegexFacts StrFacts.

Local Abbreviation not_close := (Cls true [CChar ")"]).
Local Abbreviation as_url := (fun u : string => "url(" +:+ u +:+ ")").



(** ** The greedy run of [^)] reads up to the next closing parenthesis *)








Section Pass.

Variables (fn : found -> string) (reference : string -> string).
Hypothesis fn_reads_group : forall f, fn f = reference (group_str 1 f).



End Pass.
(** ** The at sign stays out *)










End RewriteCssLaws.
